(** * Zen-Sync: the reconciliation engine of [sync.py]

    A shallow embedding of [ZenS3Sync] (src/sync.py): the namespace mapper
    ([_get_s3_key], [_get_relative_s3_key], [_get_download_path]), the
    pattern classifier ([should_include_file], [_scan_directory]), the
    identity comparator ([_files_are_different]), the three analyzers and
    the mode-level entry points with their executor.

    Conventions.
    - Python [str] is [string]; [int] is [Z]; a [dict] used as a map is a
      [gmap]; lists stay lists.
    - [pathlib.Path] is modelled in its POSIX flavour: a flag for the
      leading slash and the list of path components.
    - An exception is a value of [exn]; code that may raise returns
      [result].  Executor code threads the mutable [World] and returns the
      world reached together with the outcome.
    - [fnmatch.fnmatch] belongs to the Python library; the engine is
      parametrised by it, and [fnmatch_posix] is the instance used to run
      the engine on concrete inputs. *)

From Stdlib Require Import ZArith Ascii String Lia.
From stdpp Require Import base option list strings pretty gmap fin_maps.

Local Open Scope Z_scope.

(** ** Strings *)

Module Str.

Definition slash : ascii := "/"%char.
Definition backslash : ascii := "\"%char.

(** [c in s] for a one-character needle. *)
Fixpoint has_char (c : ascii) (s : string) : bool :=
  match s with
  | EmptyString => false
  | String a s' => if decide (a = c) then true else has_char c s'
  end.

(** [s.replace(a, b)] for one-character [a] and [b]. *)
Fixpoint replace (a b : ascii) (s : string) : string :=
  match s with
  | EmptyString => EmptyString
  | String c s' => String (if decide (c = a) then b else c) (replace a b s')
  end.

(** [s.startswith(p)]. *)
Fixpoint startswith (p s : string) : bool :=
  match p, s with
  | EmptyString, _ => true
  | String a p', String b s' => if decide (a = b) then startswith p' s' else false
  | String _ _, EmptyString => false
  end.

(** [s[n:]]. *)
Fixpoint drop (n : nat) (s : string) : string :=
  match n, s with
  | O, _ => s
  | S n', String _ s' => drop n' s'
  | S _, EmptyString => EmptyString
  end.

(** [s.split(sep)] for a one-character separator: never the empty list. *)
Fixpoint split (sep : ascii) (s : string) : list string :=
  match s with
  | EmptyString => [EmptyString]
  | String c s' =>
      if decide (c = sep) then EmptyString :: split sep s'
      else match split sep s' with
           | w :: ws => String c w :: ws
           | [] => [String c EmptyString]
           end
  end.

(** [sep.join(l)]. *)
Fixpoint join (sep : string) (l : list string) : string :=
  match l with
  | [] => EmptyString
  | [x] => x
  | x :: l' => x +:+ sep +:+ join sep l'
  end.

(** [needle in s] for a string needle. *)
Fixpoint contains (needle s : string) : bool :=
  startswith needle s ||
  match s with
  | EmptyString => false
  | String _ s' => contains needle s'
  end.

Definition lower_char (c : ascii) : ascii :=
  let n := nat_of_ascii c in
  if (65 <=? n)%nat && (n <=? 90)%nat then ascii_of_nat (n + 32) else c.

(** [s.lower()] on ASCII text. *)
Fixpoint lower (s : string) : string :=
  match s with
  | EmptyString => EmptyString
  | String c s' => String (lower_char c) (lower s')
  end.

End Str.

(** ** Exceptions *)

Inductive exn : Type :=
  | ValueError
  | KeyError (key : string)
  | OSError
  | ClientError (msg : string).

Inductive result (A : Type) : Type :=
  | Ok (a : A)
  | Raise (e : exn).
Arguments Ok {A} a.
Arguments Raise {A} e.

Definition rbind {A B} (m : result A) (k : A -> result B) : result B :=
  match m with
  | Ok a => k a
  | Raise e => Raise e
  end.

Global Instance result_bind : MBind result := fun _ _ k m => rbind m k.
Global Instance result_ret : MRet result := fun _ a => Ok a.

(** A [for] loop whose body may raise: the first exception ends the loop. *)
Fixpoint for_each {A S} (body : A -> S -> result S) (l : list A) (s : S) : result S :=
  match l with
  | [] => Ok s
  | a :: l' => rbind (body a s) (for_each body l')
  end.

(** ** [pathlib.Path], POSIX flavour *)

Record Path : Type := mkPath {
  absolute : bool;          (* the path starts at the root [/] *)
  parts : list string       (* its components, none empty, none [.] *)
}.

Global Instance Path_eq_dec : EqDecision Path.
Proof. solve_decision. Defined.

(** The components a string denotes: empty components and [.] are dropped. *)
Definition segments (s : string) : list string :=
  filter (fun seg => seg <> EmptyString /\ seg <> "."%string) (Str.split Str.slash s).

(** [Path(s)]. *)
Definition parse_path (s : string) : Path :=
  mkPath (Str.startswith "/" s) (segments s).

(** [p / s]: an absolute right operand replaces the left one.  (The
    root [//] that POSIX keeps apart is not told from [/].) *)
Definition joinpath (p : Path) (s : string) : Path :=
  if Str.startswith "/" s then parse_path s
  else mkPath (absolute p) (parts p ++ segments s).

(** [str(p)]. *)
Definition path_str (p : Path) : string :=
  if absolute p then "/" +:+ Str.join "/" (parts p)
  else match parts p with
       | [] => "."
       | _ => Str.join "/" (parts p)
       end.

(** [p.name]: the last component, or the empty string. *)
Definition path_name (p : Path) : string := List.last (parts p) EmptyString.

Fixpoint strip_prefix (pre l : list string) : option (list string) :=
  match pre, l with
  | [], _ => Some l
  | a :: pre', b :: l' => if decide (a = b) then strip_prefix pre' l' else None
  | _ :: _, [] => None
  end.

(** [p.relative_to(base)]: [ValueError] when [p] is not below [base]. *)
Definition relative_to (p base : Path) : result Path :=
  if decide (absolute p = absolute base) then
    match strip_prefix (parts base) (parts p) with
    | Some rest => Ok (mkPath false rest)
    | None => Raise ValueError
    end
  else Raise ValueError.

(** ** [fnmatch.fnmatch] on a POSIX host

    Shell wildcards: [*] matches any run of characters (slashes too),
    [?] one character, a bracket expression one character of a set (or,
    after [!], outside it); the whole name must match. *)

Module Glob.

Inductive item : Type :=
  | One (c : ascii)
  | Range (lo hi : ascii).

Inductive tok : Type :=
  | Star
  | Any
  | Set_ (negated : bool) (items : list item)
  | Lit (c : ascii).

Definition in_item (c : ascii) (i : item) : bool :=
  match i with
  | One a => bool_decide (a = c)
  | Range lo hi =>
      (nat_of_ascii lo <=? nat_of_ascii c)%nat && (nat_of_ascii c <=? nat_of_ascii hi)%nat
  end.

(** The members of a bracket expression: [a-z] is a range, any other
    character stands for itself. *)
Fixpoint items_of (l : list ascii) : list item :=
  match l with
  | [] => []
  | lo :: rest =>
      match rest with
      | dash :: hi :: rest' =>
          if decide (dash = "-"%char) then Range lo hi :: items_of rest'
          else One lo :: items_of rest
      | _ => One lo :: items_of rest
      end
  end.

(** Cut a list at its first closing bracket. *)
Fixpoint find_close (l : list ascii) : option (list ascii * list ascii) :=
  match l with
  | [] => None
  | c :: l' =>
      if decide (c = "]"%char) then Some ([], l')
      else match find_close l' with
           | Some (before, after) => Some (c :: before, after)
           | None => None
           end
  end.

(** What follows an opening bracket: the set and the rest of the pattern,
    or nothing when the bracket is never closed.  A closing bracket that
    comes first (after the optional [!]) is a member of the set. *)
Definition bracket (l : list ascii) : option (tok * list ascii) :=
  let '(neg, body) :=
    match l with
    | c :: l' => if decide (c = "!"%char) then (true, l') else (false, l)
    | [] => (false, l)
    end in
  match body with
  | c :: body' =>
      if decide (c = "]"%char) then
        match find_close body' with
        | Some (stuff, after) => Some (Set_ neg (items_of (c :: stuff)), after)
        | None => None
        end
      else
        match find_close body with
        | Some (stuff, after) => Some (Set_ neg (items_of stuff), after)
        | None => None
        end
  | [] => None
  end.

Fixpoint tokenize (fuel : nat) (p : list ascii) : list tok :=
  match fuel, p with
  | S fuel', c :: p' =>
      if decide (c = "*"%char) then Star :: tokenize fuel' p'
      else if decide (c = "?"%char) then Any :: tokenize fuel' p'
      else if decide (c = "["%char) then
        match bracket p' with
        | Some (t, after) => t :: tokenize fuel' after
        | None => Lit c :: tokenize fuel' p'
        end
      else Lit c :: tokenize fuel' p'
  | _, _ => []
  end.

Definition translate (pat : string) : list tok :=
  let p := list_ascii_of_string pat in tokenize (length p) p.

Fixpoint matches (ts : list tok) (s : list ascii) {struct ts} : bool :=
  match ts with
  | [] => match s with [] => true | _ => false end
  | Star :: ts' =>
      (fix star (s : list ascii) : bool :=
         matches ts' s || match s with [] => false | _ :: s' => star s' end) s
  | Any :: ts' =>
      match s with [] => false | _ :: s' => matches ts' s' end
  | Set_ neg items :: ts' =>
      match s with
      | [] => false
      | c :: s' => xorb neg (existsb (in_item c) items) && matches ts' s'
      end
  | Lit a :: ts' =>
      match s with
      | [] => false
      | c :: s' => bool_decide (a = c) && matches ts' s'
      end
  end.

End Glob.

(** [fnmatch.fnmatch(name, pat)] where [os.path.normcase] is the identity. *)
Definition fnmatch_posix (name pat : string) : bool :=
  Glob.matches (Glob.translate pat) (list_ascii_of_string name).


(** ** The engine's data *)

(** The fields of [ZenS3Sync] the engine reads. *)
Record ZenS3Sync : Type := {
  prefix : string;                    (* config['aws']['prefix'] *)
  zen_roaming_path : Path;
  zen_local_path : Path;
  sync_cache_data : bool;             (* config['sync']['sync_cache_data'] *)
  exclude_patterns : list string;     (* config['sync']['exclude_patterns'] *)
  include_patterns : list string      (* config['sync']['include_important'] *)
}.

(** The two dictionaries [_get_file_info] builds:
    [{'exists': False}] and [{'size', 'mtime', 'hash', 'exists': True}]. *)
Inductive LocalInfo : Type :=
  | info_missing
  | info_file (size mtime : Z) (hash : string).

Definition local_exists (l : LocalInfo) : bool :=
  match l with info_missing => false | info_file _ _ _ => true end.

(** [local_info['size']], [local_info['mtime']]: a missing key raises. *)
Definition local_size (l : LocalInfo) : result Z :=
  match l with
  | info_file size _ _ => Ok size
  | info_missing => Raise (KeyError "size")
  end.

Definition local_mtime (l : LocalInfo) : result Z :=
  match l with
  | info_file _ mtime _ => Ok mtime
  | info_missing => Raise (KeyError "mtime")
  end.

(** The dictionary [_list_s3_objects] builds for one object. *)
Record S3Info : Type := {
  s3_size : Z;
  s3_mtime : Z;
  s3_etag : string;
  s3_exists : bool;
  s3_key : string;
  s3_hash : option string             (* [None] or the stored digest *)
}.

(** Truth value of [d.get('hash')]: a non-empty string. *)
Definition truthy (h : option string) : bool :=
  match h with
  | Some (String _ _) => true
  | _ => false
  end.

(** A directory as [os.walk] reports it: the file names, then the
    sub-directories by name. *)
#[local] Set Warnings "-register-all".
Inductive Tree : Type :=
  | Dir (filenames : list string) (dirs : list (string * Tree)).

(** [root_path / name] for a directory entry [name]. *)
Definition child (p : Path) (name : string) : Path :=
  mkPath (absolute p) (parts p ++ [name]).

(** The local disk as the engine observes it. *)
Record FileSystem : Type := {
  dir_tree : Path -> option Tree;     (* [None]: the path does not exist *)
  stat : Path -> option (Z * Z);      (* [st_size], [int(st_mtime)] *)
  file_hash : Path -> string          (* [calculate_file_hash]: digest, or empty *)
}.

(** One scanned file: [(file_path, base_path, path_type)]. *)
Definition LocalFile : Type := Path * Path * string.

(** Entries of the action lists. *)
Definition UploadItem : Type := Path * string * Z * string.      (* path, s3 key, size, path type *)
Definition DownloadItem : Type := Path * string * Z * string.    (* path, s3 key, size, relative key *)
Definition SkipItem : Type := Path * string * Z.                 (* push and pull *)
Definition DeleteS3Item : Type := string * string * Z.           (* relative key, s3 key, size *)
Definition DeleteLocalItem : Type := Path * string * Z.          (* path, relative key, size *)
Definition BidiSkipItem : Type := string * option string * Z.    (* relative key, None, size *)

(** An entry of [local_lookup] in bidirectional mode. *)
Record LocalEntry : Type := {
  le_path : Path;
  le_info : LocalInfo;
  le_path_type : string
}.

(** ** Namespace mapper, identity comparator, pattern classifier *)

Section Engine.

(** [fnmatch.fnmatch name pattern]. *)
Variable fnmatch : string -> string -> bool.

Variable self : ZenS3Sync.

Definition is_role (path_type : string) : bool :=
  bool_decide (path_type = "roaming" \/ path_type = "local").

Definition _get_s3_key (file_path base_path : Path) (path_type : string) : result string :=
  relative_path ← relative_to file_path base_path;
  if is_role path_type then
    Ok (Str.replace Str.backslash Str.slash
          (prefix self +:+ path_type +:+ "/" +:+ path_str relative_path))
  else
    Ok (Str.replace Str.backslash Str.slash (prefix self +:+ path_str relative_path)).

Definition _get_relative_s3_key (file_path base_path : Path) (path_type : string) : result string :=
  relative_path ← relative_to file_path base_path;
  if is_role path_type then
    Ok (Str.replace Str.backslash Str.slash (path_type +:+ "/" +:+ path_str relative_path))
  else
    Ok (Str.replace Str.backslash Str.slash (path_str relative_path)).

(** A [Path] object is always true, so the tests [if self.zen_roaming_path]
    and [self.zen_local_path and ...] only depend on the cache flag. *)
Definition _get_download_path (relative_path : string) : option Path :=
  if Str.startswith "roaming/" relative_path then
    Some (joinpath (zen_roaming_path self) (Str.drop 8 relative_path))
  else if Str.startswith "local/" relative_path then
    if sync_cache_data self then
      Some (joinpath (zen_local_path self) (Str.drop 6 relative_path))
    else None
  else Some (joinpath (zen_roaming_path self) relative_path).

Definition _get_file_info (fs : FileSystem) (file_path : Path) : LocalInfo :=
  match stat fs file_path with
  | Some (size, mtime) => info_file size mtime (file_hash fs file_path)
  | None => info_missing
  end.

Definition _files_are_different (local_info : LocalInfo) (s3_info : S3Info) : bool :=
  match local_info with
  | info_missing => true
  | info_file size _ hash =>
      if negb (s3_exists s3_info) then true
      else if truthy (Some hash) && truthy (s3_hash s3_info) then
        negb (bool_decide (Some hash = s3_hash s3_info))
      else if negb (bool_decide (size = s3_size s3_info)) then true
      else false
  end.

(** One pattern against the relative path and against the bare name. *)
Definition pattern_hits (str_path name pattern : string) : bool :=
  fnmatch str_path pattern || fnmatch name pattern.

Definition should_include_file (file_path base_path : Path) : result bool :=
  relative_path ← relative_to file_path base_path;
  let str_path := Str.replace Str.backslash Str.slash (path_str relative_path) in
  if existsb (pattern_hits str_path (path_name file_path)) (exclude_patterns self) then
    Ok false
  else if existsb (pattern_hits str_path (path_name file_path)) (include_patterns self) then
    Ok true
  else Ok true.

(** The inner loops of [_scan_directory]: does some pattern with a slash
    have a first segment that matches the directory name? *)
Definition dir_pattern_hits (d : string) (patterns : list string) : bool :=
  existsb (fun pattern =>
             Str.has_char Str.slash pattern &&
             fnmatch d (hd EmptyString (Str.split Str.slash pattern)))
          patterns.

Definition skips_dir (d : string) : bool :=
  let should_skip := dir_pattern_hits d (exclude_patterns self) in
  let has_important_files :=
    if should_skip then dir_pattern_hits d (include_patterns self) else false in
  should_skip && negb has_important_files.

Definition dirs_to_skip (dirs : list string) : list string :=
  filter (fun d => skips_dir d = true) dirs.

(** [dirs.remove(d)]: the first occurrence goes. *)
Fixpoint list_remove (d : string) (dirs : list string) : list string :=
  match dirs with
  | [] => []
  | x :: dirs' => if decide (x = d) then dirs' else x :: list_remove d dirs'
  end.

(** The names [os.walk] still descends into. *)
Definition pruned_dirs (dirs : list string) : list string :=
  fold_left (fun ds d => list_remove d ds) (dirs_to_skip dirs) dirs.

Definition scan_files (base_path : Path) (path_type : string) (root_path : Path)
    (filenames : list string) : result (list LocalFile) :=
  for_each (fun filename files =>
              let file_path := child root_path filename in
              keep ← should_include_file file_path base_path;
              Ok (if keep : bool then files ++ [(file_path, base_path, path_type)] else files))
           filenames [].

(** [os.walk] top-down: the files of a directory, then each
    sub-directory that was not removed from [dirs], that is, each one
    whose name [skips_dir] lets pass ([pruned_dirs] spells the removal
    out on the names). *)
Fixpoint walk (base_path : Path) (path_type : string) (root_path : Path) (t : Tree)
    : result (list LocalFile) :=
  match t with
  | Dir filenames dirs =>
      here ← scan_files base_path path_type root_path filenames;
      below ← (fix walk_dirs (ds : list (string * Tree)) : result (list LocalFile) :=
                 match ds with
                 | [] => Ok []
                 | (d, sub) :: ds' =>
                     if skips_dir d then walk_dirs ds'
                     else
                       first ← walk base_path path_type (child root_path d) sub;
                       rest ← walk_dirs ds';
                       Ok (first ++ rest)
                 end) dirs;
      Ok (here ++ below)
  end.

Definition _scan_directory (fs : FileSystem) (base_path : Path) (path_type : string)
    : result (list LocalFile) :=
  match dir_tree fs base_path with
  | Some t => walk base_path path_type base_path t
  | None => Ok []
  end.

End Engine.

(** ** The remote store, the log and the mutable world *)

(** One object of the bucket. *)
Record S3Object : Type := {
  obj_size : Z;
  obj_last_modified : Z;
  obj_etag : string;
  obj_metadata : gmap string string   (* user metadata, possibly empty *)
}.

(** The calls made to the store client; the world decides which of them
    fail, and with which message. *)
Inductive s3_call : Type :=
  | ListObjects
  | HeadObject (key : string)
  | PutObject (key : string) (with_metadata : bool)
  | GetObject (key : string)
  | DeleteObject (key : string).

(** Records of this module's logger at level WARNING and above. *)
Inductive log_record : Type :=
  | RoamingDirectoryNotFound
  | NoFilesFoundToUpload
  | NoObjectsFound (pre : string)
  | ErrorListingS3Objects (msg : string)
  | ErrorProcessing (action : string) (e : exn)
  | ErrorDuringDownload (e : exn)
  | MetadataErrorRetrying (name : string).

Inductive level : Type := WARNING | ERROR.

Definition levelname (r : log_record) : level :=
  match r with
  | NoFilesFoundToUpload | NoObjectsFound _ | MetadataErrorRetrying _ => WARNING
  | _ => ERROR
  end.

(** What the executor does to the local disk and to the configuration
    file.  These writes are recorded, not replayed: every mode reads the
    disk before it writes to it. *)
Inductive local_effect : Type :=
  | Mkdir (p : Path)
  | WriteFile (p : Path) (key : string)
  | Utime (p : Path) (t : Z)
  | Unlink (p : Path)
  | Rmdir (p : Path)
  | SaveConfig.

Record World : Type := mkWorld {
  fs : FileSystem;
  bucket : gmap string S3Object;
  s3_fault : s3_call -> option string;
  clock : Z;                          (* the store's time stamp for a write *)
  disable_metadata : bool;            (* config['aws']['disable_metadata'] *)
  log : list log_record;
  effects : list local_effect
}.

Definition set_bucket (b : gmap string S3Object) (w : World) : World :=
  mkWorld (fs w) b (s3_fault w) (clock w) (disable_metadata w) (log w) (effects w).
Definition set_disable_metadata (d : bool) (w : World) : World :=
  mkWorld (fs w) (bucket w) (s3_fault w) (clock w) d (log w) (effects w).
Definition add_log (r : log_record) (w : World) : World :=
  mkWorld (fs w) (bucket w) (s3_fault w) (clock w) (disable_metadata w) (log w ++ [r]) (effects w).
Definition add_effect (e : local_effect) (w : World) : World :=
  mkWorld (fs w) (bucket w) (s3_fault w) (clock w) (disable_metadata w) (log w) (effects w ++ [e]).

(** Code that reads and writes the world and may raise; the world reached
    when an exception leaves is kept. *)
Definition M (A : Type) : Type := World -> result A * World.

Definition m_ret {A} (a : A) : M A := fun w => (Ok a, w).
Definition m_bind {A B} (m : M A) (k : A -> M B) : M B :=
  fun w => match m w with
           | (Ok a, w') => k a w'
           | (Raise e, w') => (Raise e, w')
           end.
Global Instance M_bind : MBind M := fun _ _ k m => m_bind m k.
Global Instance M_ret : MRet M := fun _ a => m_ret a.

Definition lift {A} (r : result A) : M A := fun w => (r, w).
Definition ask : M World := fun w => (Ok w, w).
Definition modify (f : World -> World) : M unit := fun w => (Ok tt, f w).
Definition raise {A} (e : exn) : M A := fun w => (Raise e, w).

(** [try: m except Exception as e: h e]. *)
Definition try_except {A} (m : M A) (h : exn -> M A) : M A :=
  fun w => match m w with
           | (Ok a, w') => (Ok a, w')
           | (Raise e, w') => h e w'
           end.

(** [int(s)] for a decimal numeral with an optional sign; [None] where
    [int] raises [ValueError]. *)
Definition digit (c : ascii) : option Z :=
  let n := nat_of_ascii c in
  if (48 <=? n)%nat && (n <=? 57)%nat then Some (Z.of_nat n - 48) else None.

Fixpoint digits (acc : Z) (s : string) : option Z :=
  match s with
  | EmptyString => Some acc
  | String c s' =>
      match digit c with
      | Some d => digits (10 * acc + d) s'
      | None => None
      end
  end.

Definition parse_int (s : string) : option Z :=
  match s with
  | EmptyString => None
  | String c s' =>
      if decide (c = "-"%char) then
        match s' with EmptyString => None | _ => Z.opp <$> digits 0 s' end
      else if decide (c = "+"%char) then
        match s' with EmptyString => None | _ => digits 0 s' end
      else digits 0 s
  end.

(** [p.parent]. *)
Definition parent (p : Path) : Path :=
  mkPath (absolute p) (removelast (parts p)).

(** [s.strip(c)] for a one-character set. *)
Fixpoint lstrip (c : ascii) (s : string) : string :=
  match s with
  | String a s' => if decide (a = c) then lstrip c s' else s
  | EmptyString => EmptyString
  end.

Definition strip (c : ascii) (s : string) : string :=
  String.rev (lstrip c (String.rev (lstrip c s))).

Definition double_quote : ascii := ascii_of_nat 34.

(** A list comprehension whose element expression may raise. *)
Fixpoint map_result {A B} (f : A -> result B) (l : list A) : result (list B) :=
  match l with
  | [] => Ok []
  | a :: l' => b ← f a; bs ← map_result f l'; Ok (b :: bs)
  end.

(** ** The analyzers *)

Section Analyzers.

Variable fnmatch : string -> string -> bool.
Variable self : ZenS3Sync.

(** The hash [_list_s3_objects] recovers for one object: none when
    [head_object] fails or metadata is disabled. *)
Definition listed_hash (w : World) (key : string) (obj : S3Object) : option string :=
  match s3_fault w (HeadObject key) with
  | Some _ => None
  | None =>
      if negb (disable_metadata w) then
        match obj_metadata obj !! "file-hash" with
        | Some h => Some h
        | None => obj_metadata obj !! "file_hash"
        end
      else None
  end.

Definition listed_info (w : World) (key : string) (obj : S3Object) : S3Info :=
  {| s3_size := obj_size obj;
     s3_mtime := obj_last_modified obj;
     s3_etag := strip double_quote (obj_etag obj);
     s3_exists := true;
     s3_key := key;
     s3_hash := listed_hash w key obj |}.

(** The listing is one page: a failing call leaves the dictionary empty. *)
Definition _list_s3_objects : M (gmap string S3Info) :=
  fun w =>
    match s3_fault w ListObjects with
    | Some msg => (Ok ∅, add_log (ErrorListingS3Objects msg) w)
    | None =>
        (Ok (map_fold
               (fun key obj (objects : gmap string S3Info) =>
                  if Str.startswith (prefix self) key then
                    <[Str.drop (String.length (prefix self)) key := listed_info w key obj]> objects
                  else objects)
               ∅ (bucket w)), w)
    end.

Definition upload_step (fs : FileSystem) (s3_objects : gmap string S3Info) (incremental : bool)
    (file : LocalFile) (acc : list UploadItem * list SkipItem)
    : result (list UploadItem * list SkipItem) :=
  let '(file_path, base_path, path_type) := file in
  let '(files_to_upload, files_to_skip) := acc in
  s3_key ← _get_s3_key self file_path base_path path_type;
  relative_s3_key ← _get_relative_s3_key file_path base_path path_type;
  let local_info := _get_file_info fs file_path in
  match (if incremental then s3_objects !! relative_s3_key else None) with
  | Some s3_info =>
      if negb (_files_are_different local_info s3_info) then
        size ← local_size local_info;
        Ok (files_to_upload, files_to_skip ++ [(file_path, s3_key, size)])
      else
        size ← local_size local_info;
        Ok (files_to_upload ++ [(file_path, s3_key, size, path_type)], files_to_skip)
  | None =>
      size ← local_size local_info;
      Ok (files_to_upload ++ [(file_path, s3_key, size, path_type)], files_to_skip)
  end.

Definition relative_key_of (file : LocalFile) : result string :=
  let '(file_path, base_path, path_type) := file in
  _get_relative_s3_key file_path base_path path_type.

Definition cleanup_deletions (files : list LocalFile) (s3_objects : gmap string S3Info)
    : result (list DeleteS3Item) :=
  keys ← map_result relative_key_of files;
  let local_s3_keys : gset string := list_to_set keys in
  Ok (omap (fun '(key, s3_info) =>
              if decide (key ∉ local_s3_keys)
              then Some (key, s3_key s3_info, s3_size s3_info)
              else None)
           (map_to_list s3_objects)).

Definition _analyze_upload_files (fs : FileSystem) (files : list LocalFile)
    (s3_objects : gmap string S3Info) (incremental cleanup : bool)
    : result (list UploadItem * list SkipItem * list DeleteS3Item) :=
  '(files_to_upload, files_to_skip) ←
     for_each (upload_step fs s3_objects incremental) files ([], []);
  files_to_delete ← (if cleanup then cleanup_deletions files s3_objects else Ok []);
  Ok (files_to_upload, files_to_skip, files_to_delete).

(** Keys on both sides, only locally, only remotely. *)
Definition both_sides (local_lookup : gmap string LocalEntry) (s3_objects : gmap string S3Info)
    : list (string * (LocalEntry * S3Info)) :=
  map_to_list (map_zip local_lookup s3_objects).

Definition only_local (local_lookup : gmap string LocalEntry) (s3_objects : gmap string S3Info)
    : list (string * LocalEntry) :=
  map_to_list (filter (fun kv => s3_objects !! kv.1 = None) local_lookup).

Definition only_remote (local_lookup : gmap string LocalEntry) (s3_objects : gmap string S3Info)
    : list (string * S3Info) :=
  map_to_list (filter (fun kv => local_lookup !! kv.1 = None) s3_objects).

Definition BidiLists : Type := list UploadItem * list DownloadItem * list BidiSkipItem.

Definition both_step (kv : string * (LocalEntry * S3Info)) (acc : BidiLists) : result BidiLists :=
  let '(relative_key, (local_data, s3_info)) := kv in
  let '(upload_files, download_files, skip_files) := acc in
  let local_info := le_info local_data in
  if negb (_files_are_different local_info s3_info) then
    size ← local_size local_info;
    Ok (upload_files, download_files, skip_files ++ [(relative_key, None, size)])
  else
    local_mt ← local_mtime local_info;
    if decide (local_mt > s3_mtime s3_info) then
      size ← local_size local_info;
      Ok (upload_files ++ [(le_path local_data, s3_key s3_info, size, le_path_type local_data)],
          download_files, skip_files)
    else
      Ok (upload_files,
          download_files ++ [(le_path local_data, s3_key s3_info, s3_size s3_info, relative_key)],
          skip_files).

Definition local_step (kv : string * LocalEntry) (acc : BidiLists) : result BidiLists :=
  let '(relative_key, local_data) := kv in
  let '(upload_files, download_files, skip_files) := acc in
  let file_path := le_path local_data in
  let path_type := le_path_type local_data in
  let base_path :=
    if decide (path_type = "roaming") then zen_roaming_path self else zen_local_path self in
  s3_key ← _get_s3_key self file_path base_path path_type;
  size ← local_size (le_info local_data);
  Ok (upload_files ++ [(file_path, s3_key, size, path_type)], download_files, skip_files).

Definition remote_step (kv : string * S3Info) (acc : BidiLists) : result BidiLists :=
  let '(relative_key, s3_info) := kv in
  let '(upload_files, download_files, skip_files) := acc in
  match _get_download_path self relative_key with
  | Some local_path =>
      Ok (upload_files,
          download_files ++ [(local_path, s3_key s3_info, s3_size s3_info, relative_key)],
          skip_files)
  | None => Ok acc
  end.

Definition _analyze_bidirectional_sync (local_lookup : gmap string LocalEntry)
    (s3_objects : gmap string S3Info) : result BidiLists :=
  acc ← for_each both_step (both_sides local_lookup s3_objects) ([], [], []);
  acc ← for_each local_step (only_local local_lookup s3_objects) acc;
  for_each remote_step (only_remote local_lookup s3_objects) acc.

Definition download_step (fs : FileSystem) (incremental : bool) (kv : string * S3Info)
    (acc : list DownloadItem * list SkipItem) : list DownloadItem * list SkipItem :=
  let '(relative_s3_key, s3_info) := kv in
  let '(files_to_download, files_to_skip) := acc in
  match _get_download_path self relative_s3_key with
  | None => acc
  | Some local_path =>
      let local_info := _get_file_info fs local_path in
      if incremental && local_exists local_info && negb (_files_are_different local_info s3_info)
      then (files_to_download, files_to_skip ++ [(local_path, s3_key s3_info, s3_size s3_info)])
      else (files_to_download ++ [(local_path, s3_key s3_info, s3_size s3_info, relative_s3_key)],
            files_to_skip)
  end.

(** A root that exists but is not a directory is a tree without entries. *)
Definition get_local_files : M (list LocalFile) :=
  w ← ask;
  match dir_tree (fs w) (zen_roaming_path self) with
  | Some _ =>
      roaming_files ← lift (_scan_directory fnmatch self (fs w) (zen_roaming_path self) "roaming");
      match dir_tree (fs w) (zen_local_path self) with
      | Some _ =>
          if sync_cache_data self then
            local_files ← lift (_scan_directory fnmatch self (fs w) (zen_local_path self) "local");
            mret (roaming_files ++ local_files)
          else mret roaming_files
      | None => mret roaming_files
      end
  | None =>
      modify (add_log RoamingDirectoryNotFound);; mret []
  end.

Definition local_deletion_step (fs : FileSystem) (s3_objects : gmap string S3Info)
    (file : LocalFile) (files_to_delete : list DeleteLocalItem) : result (list DeleteLocalItem) :=
  let '(file_path, base_path, path_type) := file in
  relative_s3_key ← _get_relative_s3_key file_path base_path path_type;
  match s3_objects !! relative_s3_key with
  | Some _ => Ok files_to_delete
  | None =>
      match _get_file_info fs file_path with
      | info_file size _ _ => Ok (files_to_delete ++ [(file_path, relative_s3_key, size)])
      | info_missing => Ok files_to_delete
      end
  end.

Definition _analyze_download_files (s3_objects : gmap string S3Info) (incremental cleanup : bool)
    : M (list DownloadItem * list SkipItem * list DeleteLocalItem) :=
  w ← ask;
  let '(files_to_download, files_to_skip) :=
    fold_left (fun acc kv => download_step (fs w) incremental kv acc)
              (map_to_list s3_objects) ([], []) in
  if cleanup then
    local_files ← get_local_files;
    files_to_delete ← lift (for_each (local_deletion_step (fs w) s3_objects) local_files []);
    mret (files_to_download, files_to_skip, files_to_delete)
  else mret (files_to_download, files_to_skip, []).

End Analyzers.

(** ** The executor and the three modes *)

Section Modes.

Variable fnmatch : string -> string -> bool.
Variable self : ZenS3Sync.

(** [open(file_path, 'rb')]: a missing file raises. *)
Definition open_file (file_path : Path) : M unit :=
  w ← ask;
  match stat (fs w) file_path with
  | Some _ => mret tt
  | None => raise OSError
  end.

(** [s3_client.put_object]: the object takes the size of the file and
    the store's time stamp. *)
Definition put_object (s3_key : string) (file_path : Path)
    (metadata : option (gmap string string)) : M unit :=
  fun w =>
    match s3_fault w (PutObject s3_key (bool_decide (is_Some metadata))) with
    | Some msg => (Raise (ClientError msg), w)
    | None =>
        let obj := {| obj_size := default 0 (fst <$> stat (fs w) file_path);
                      obj_last_modified := clock w;
                      obj_etag := file_hash (fs w) file_path;
                      obj_metadata := default ∅ metadata |} in
        (Ok tt, set_bucket (<[s3_key := obj]> (bucket w)) w)
    end.

Definition is_metadata_error (error_msg : string) : bool :=
  Str.contains "AccessDenied" error_msg || Str.contains "headers" (Str.lower error_msg) ||
  Str.contains "not signed" error_msg || Str.contains "signature" (Str.lower error_msg).

Definition _upload_file (file_path : Path) (s3_key path_type : string) : M unit :=
  w ← ask;
  if negb (disable_metadata w) then
    let file_hash := file_hash (fs w) file_path in
    match stat (fs w) file_path with
    | None => raise OSError
    | Some (_, mtime) =>
        let metadata : gmap string string :=
          <["path-type" := path_type]>
            (<["original-mtime" := pretty mtime]> (<["file-hash" := file_hash]> ∅)) in
        try_except
          (open_file file_path;; put_object s3_key file_path (Some metadata))
          (fun e =>
             match e with
             | ClientError error_msg =>
                 if is_metadata_error error_msg then
                   modify (add_log (MetadataErrorRetrying (path_name file_path)));;
                   open_file file_path;;
                   put_object s3_key file_path None;;
                   w' ← ask;
                   if negb (disable_metadata w') then
                     modify (set_disable_metadata true);;
                     modify (add_effect SaveConfig)
                   else mret tt
                 else raise e
             | _ => raise e
             end)
    end
  else
    open_file file_path;; put_object s3_key file_path None.

(** The time to restore: [original-mtime], else [original_mtime]; a
    value [int] rejects raises inside the guarded block. *)
Definition original_mtime (metadata : gmap string string) : result (option Z) :=
  match metadata !! "original-mtime" with
  | Some s => match parse_int s with Some t => Ok (Some t) | None => Raise ValueError end
  | None =>
      match metadata !! "original_mtime" with
      | Some s => match parse_int s with Some t => Ok (Some t) | None => Raise ValueError end
      | None => Ok None
      end
  end.

Definition restore_mtime (s3_key : string) (local_path : Path) : M unit :=
  w ← ask;
  match s3_fault w (HeadObject s3_key), bucket w !! s3_key with
  | None, Some obj =>
      if negb (disable_metadata w) then
        t ← lift (original_mtime (obj_metadata obj));
        match t with
        | Some t => if decide (t = 0) then mret tt else modify (add_effect (Utime local_path t))
        | None => mret tt
        end
      else mret tt
  | Some msg, _ => raise (ClientError msg)
  | None, None => raise (ClientError "404")
  end.

Definition _download_file (s3_key : string) (local_path : Path) : M unit :=
  modify (add_effect (Mkdir (parent local_path)));;
  w ← ask;
  match s3_fault w (GetObject s3_key), bucket w !! s3_key with
  | None, Some _ =>
      modify (add_effect (WriteFile local_path s3_key));;
      try_except (restore_mtime s3_key local_path) (fun _ => mret tt)
  | Some msg, _ => raise (ClientError msg)
  | None, None => raise (ClientError "404")
  end.

Definition _upload_file_wrapper (args : UploadItem) : M unit :=
  let '(file_path, s3_key, size, path_type) := args in
  _upload_file file_path s3_key path_type.

Definition _download_file_wrapper (args : DownloadItem) : M unit :=
  let '(local_path, s3_key, size, relative_key) := args in
  _download_file s3_key local_path.

Definition _delete_s3_file (args : DeleteS3Item) : M unit :=
  let '(relative_key, s3_key, size) := args in
  fun w =>
    match s3_fault w (DeleteObject s3_key) with
    | Some msg => (Raise (ClientError msg), w)
    | None => (Ok tt, set_bucket (delete s3_key (bucket w)) w)
    end.

(** [file_path.unlink()]: a missing file raises. *)
Definition unlink (file_path : Path) : M unit :=
  w ← ask;
  match stat (fs w) file_path with
  | Some _ => modify (add_effect (Unlink file_path))
  | None => raise OSError
  end.

(** The parent is removed when it is empty; the attempt is recorded. *)
Definition _delete_local_file (args : DeleteLocalItem) : M unit :=
  let '(file_path, relative_key, size) := args in
  unlink file_path;;
  modify (add_effect (Rmdir (parent file_path))).

(** The loop of [_process_files]: the number of failures. *)
Fixpoint process_loop {A} (action : string) (dry_run : bool) (processor_func : A -> M unit)
    (files : list A) (error_count : nat) : M nat :=
  match files with
  | [] => mret error_count
  | file_args :: rest =>
      if dry_run then process_loop action dry_run processor_func rest error_count
      else
        fun w =>
          match processor_func file_args w with
          | (Ok _, w') => process_loop action dry_run processor_func rest error_count w'
          | (Raise e, w') =>
              process_loop action dry_run processor_func rest (S error_count)
                (add_log (ErrorProcessing action e) w')
          end
  end.

Definition _process_files {A} (files : list A) (action : string) (dry_run : bool)
    (processor_func : A -> M unit) : M bool :=
  match files with
  | [] => mret true
  | _ =>
      error_count ← process_loop action dry_run processor_func files 0%nat;
      mret (bool_decide (error_count = 0%nat))
  end.

Definition is_nil {A} (l : list A) : bool :=
  match l with [] => true | _ => false end.

Definition upload_to_s3 (dry_run incremental cleanup : bool) : M bool :=
  files ← get_local_files fnmatch self;
  if is_nil files then
    modify (add_log NoFilesFoundToUpload);; mret false
  else
    s3_objects ← (if incremental || cleanup then _list_s3_objects self else mret ∅);
    w ← ask;
    '(files_to_upload, files_to_skip, files_to_delete) ←
      lift (_analyze_upload_files self (fs w) files s3_objects incremental cleanup);
    if is_nil files_to_upload && is_nil files_to_delete then mret true
    else
      upload_success ← _process_files files_to_upload "uploading" dry_run _upload_file_wrapper;
      delete_success ←
        (if cleanup && negb (is_nil files_to_delete)
         then _process_files files_to_delete "deleting" dry_run _delete_s3_file
         else mret true);
      mret (upload_success && delete_success).

Definition download_from_s3 (dry_run incremental cleanup : bool) : M bool :=
  try_except
    (s3_objects ← _list_s3_objects self;
     if bool_decide (s3_objects = ∅) then
       modify (add_log (NoObjectsFound (prefix self)));; mret false
     else
       '(files_to_download, files_to_skip, files_to_delete) ←
         _analyze_download_files fnmatch self s3_objects incremental cleanup;
       if is_nil files_to_download && is_nil files_to_delete then mret true
       else
         download_success ←
           _process_files files_to_download "downloading" dry_run _download_file_wrapper;
         delete_success ←
           (if cleanup && negb (is_nil files_to_delete)
            then _process_files files_to_delete "deleting local" dry_run _delete_local_file
            else mret true);
         mret (download_success && delete_success))
    (fun e => modify (add_log (ErrorDuringDownload e));; mret false).

Definition lookup_step (fs : FileSystem) (file : LocalFile)
    (local_lookup : gmap string LocalEntry) : result (gmap string LocalEntry) :=
  let '(file_path, base_path, path_type) := file in
  relative_s3_key ← _get_relative_s3_key file_path base_path path_type;
  Ok (<[relative_s3_key := {| le_path := file_path;
                              le_info := _get_file_info fs file_path;
                              le_path_type := path_type |}]> local_lookup).

(** [cleanup] is a parameter of the method; its body never reads it. *)
Definition sync_bidirectional (dry_run cleanup : bool) : M bool :=
  local_files ← get_local_files fnmatch self;
  s3_objects ← _list_s3_objects self;
  w ← ask;
  local_lookup ← lift (for_each (lookup_step (fs w)) local_files ∅);
  '(upload_files, download_files, skip_files) ←
    lift (_analyze_bidirectional_sync self local_lookup s3_objects);
  if is_nil upload_files && is_nil download_files then mret true
  else
    upload_success ← _process_files upload_files "uploading" dry_run _upload_file_wrapper;
    download_success ←
      _process_files download_files "downloading" dry_run _download_file_wrapper;
    mret (upload_success && download_success).

End Modes.

(** ** Reference definitions, in the words of the specification *)

(** [includeFile]: false when the relative path or the bare name matches
    an exclude glob, true otherwise. *)
Definition includeFile_ref (fnmatch : string -> string -> bool) (exclude : list string)
    (str_path name : string) : bool :=
  negb (existsb (fun glob => fnmatch str_path glob || fnmatch name glob) exclude).

(** [areDifferent]: a missing side is different; two non-empty hashes
    decide; otherwise the sizes decide. *)
Definition areDifferent_ref (l : LocalInfo) (r : S3Info) : bool :=
  match l with
  | info_missing => true
  | info_file size _ hash =>
      if s3_exists r then
        match hash, s3_hash r with
        | String _ _, Some (String _ _ as remote_hash) => negb (String.eqb hash remote_hash)
        | _, _ => negb (size =? s3_size r)
        end
      else true
  end.

(** The path [rel] below the root [r]. *)
Definition under (r : Path) (rel : list string) : Path :=
  mkPath (absolute r) (parts r ++ rel).

(** A path component that survives the trip through a remote key: not
    empty, not [.], without slash and without backslash. *)
Definition plain_component (seg : string) : Prop :=
  seg <> EmptyString /\ seg <> "."%string /\
  Str.has_char Str.slash seg = false /\ Str.has_char Str.backslash seg = false.

(** [toLocalPath(strip(toRemoteKey(p, r, role)))]. *)
Definition round_trip (self : ZenS3Sync) (p r : Path) (role : string) : result (option Path) :=
  full_key ← _get_s3_key self p r role;
  Ok (_get_download_path self (Str.drop (String.length (prefix self)) full_key)).

(** Every file of a tree, as the list of components below the root. *)
Fixpoint tree_files (t : Tree) : list (list string) :=
  match t with
  | Dir filenames dirs =>
      map (fun f => [f]) filenames ++
      (dirs ≫= fun ds => map (cons ds.1) (tree_files ds.2))
  end.

(** The verdict of [should_include_file] on the file with components [rel]
    below the root. *)
Definition keeps (fnmatch : string -> string -> bool) (self : ZenS3Sync) (rel : list string) : bool :=
  includeFile_ref fnmatch (exclude_patterns self)
    (Str.replace Str.backslash Str.slash (path_str (mkPath false rel)))
    (List.last rel EmptyString).

(** The files the walk reaches and keeps, in the order of the walk: [pre]
    are the components of the directory the walk stands in. *)
Fixpoint reached (fnmatch : string -> string -> bool) (self : ZenS3Sync)
    (pre : list string) (t : Tree) : list (list string) :=
  match t with
  | Dir filenames dirs =>
      map (fun f => pre ++ [f]) (filter (fun f => keeps fnmatch self (pre ++ [f]) = true) filenames) ++
      (dirs ≫= fun ds =>
         if skips_dir fnmatch self ds.1 then []
         else reached fnmatch self (pre ++ [ds.1]) ds.2)
  end.

(** The entry of the scan for the file with components [rel]. *)
Definition entry (base : Path) (path_type : string) (rel : list string) : LocalFile :=
  (under base rel, base, path_type).

(** No directory on the way to the file [rel] is skipped by the walk. *)
Definition unpruned (fnmatch : string -> string -> bool) (self : ZenS3Sync) (rel : list string) : Prop :=
  Forall (fun d => skips_dir fnmatch self d = false) (removelast rel).

(** What one key contributes to the three lists of the bidirectional
    analysis, read off the loop bodies. *)
Definition both_upload (kv : string * (LocalEntry * S3Info)) : option UploadItem :=
  match le_info kv.2.1 with
  | info_file size mtime _ =>
      if _files_are_different (le_info kv.2.1) kv.2.2 && bool_decide (mtime > s3_mtime kv.2.2)
      then Some (le_path kv.2.1, s3_key kv.2.2, size, le_path_type kv.2.1)
      else None
  | info_missing => None
  end.

Definition both_download (kv : string * (LocalEntry * S3Info)) : option DownloadItem :=
  match le_info kv.2.1 with
  | info_file _ mtime _ =>
      if _files_are_different (le_info kv.2.1) kv.2.2 && negb (bool_decide (mtime > s3_mtime kv.2.2))
      then Some (le_path kv.2.1, s3_key kv.2.2, s3_size kv.2.2, kv.1)
      else None
  | info_missing => None
  end.

Definition both_skip (kv : string * (LocalEntry * S3Info)) : option BidiSkipItem :=
  match le_info kv.2.1 with
  | info_file size _ _ =>
      if _files_are_different (le_info kv.2.1) kv.2.2 then None else Some (kv.1, None, size)
  | info_missing => None
  end.

(** The root a local entry is rebased on when it exists on one side only. *)
Definition base_of (self : ZenS3Sync) (path_type : string) : Path :=
  if decide (path_type = "roaming") then zen_roaming_path self else zen_local_path self.

Definition local_upload (self : ZenS3Sync) (kv : string * LocalEntry) : option UploadItem :=
  match _get_s3_key self (le_path kv.2) (base_of self (le_path_type kv.2)) (le_path_type kv.2),
        le_info kv.2 with
  | Ok key, info_file size _ _ => Some (le_path kv.2, key, size, le_path_type kv.2)
  | _, _ => None
  end.

Definition remote_download (self : ZenS3Sync) (kv : string * S3Info) : option DownloadItem :=
  match _get_download_path self kv.1 with
  | Some local_path => Some (local_path, s3_key kv.2, s3_size kv.2, kv.1)
  | None => None
  end.

(** Every file of the listing lies below the root it was scanned from. *)
Definition rooted (file : LocalFile) : Prop :=
  exists rel, relative_to file.1.1 file.1.2 = Ok rel.

(** Every entry of the lookup lies below the root of its path type. *)
Definition entry_rooted (self : ZenS3Sync) (e : LocalEntry) : Prop :=
  exists rel, relative_to (le_path e) (base_of self (le_path_type e)) = Ok rel.


(** The effects that remove something from the local disk. *)
Definition is_deletion (e : local_effect) : bool :=
  match e with
  | Unlink _ | Rmdir _ => true
  | _ => false
  end.

(** From [w] to [w'] nothing was deleted: every object of the bucket is
    still there, and the local effects added remove nothing. *)
Definition nothing_deleted (w w' : World) : Prop :=
  (forall key, is_Some (bucket w !! key) -> is_Some (bucket w' !! key)) /\
  exists added, effects w' = effects w ++ added /\ Forall (fun e => is_deletion e = false) added.

(** A computation that deletes nothing, whatever its outcome. *)
Definition deletes_nothing {A} (m : M A) : Prop :=
  forall w, nothing_deleted w (m w).2.

(** From [w] to [w'] only log records were added. *)
Definition only_logged (w w' : World) : Prop :=
  exists added,
    w' = mkWorld (fs w) (bucket w) (s3_fault w) (clock w) (disable_metadata w)
                 (log w ++ added) (effects w).

(** [sys.exit(0 if success else 1)] in [cli.run_cli]. *)
Definition exit_status (success : bool) : Z := if success then 0 else 1.

(** The incremental push analysis finds the file unchanged: its relative
    key is listed and the comparator sees no difference. *)
Definition up_to_date (d : FileSystem) (s3_objects : gmap string S3Info) (file : LocalFile) : bool :=
  match relative_key_of file with
  | Ok relative_s3_key =>
      match s3_objects !! relative_s3_key with
      | Some s3_info => negb (_files_are_different (_get_file_info d file.1.1) s3_info)
      | None => false
      end
  | Raise _ => false
  end.

(** What incremental push queues for one file. *)
Definition upload_of (self : ZenS3Sync) (d : FileSystem) (s3_objects : gmap string S3Info)
    (file : LocalFile) : option UploadItem :=
  if up_to_date d s3_objects file then None
  else
    match _get_s3_key self file.1.1 file.1.2 file.2, stat d file.1.1 with
    | Ok key, Some (size, _) => Some (file.1.1, key, size, file.2)
    | _, _ => None
    end.

(** What incremental push skips for one file. *)
Definition skip_of (self : ZenS3Sync) (d : FileSystem) (s3_objects : gmap string S3Info)
    (file : LocalFile) : option SkipItem :=
  if up_to_date d s3_objects file then
    match _get_s3_key self file.1.1 file.1.2 file.2, stat d file.1.1 with
    | Ok key, Some (size, _) => Some (file.1.1, key, size)
    | _, _ => None
    end
  else None.

(** The object is an upload of the file: it has the size of the file, and
    its metadata is empty or carries the digest of the file. *)
Definition mirrors (d : FileSystem) (file_path : Path) (obj : S3Object) : Prop :=
  exists size mtime,
    stat d file_path = Some (size, mtime) /\ obj_size obj = size /\
    (obj_metadata obj = ∅ \/ obj_metadata obj !! "file-hash" = Some (file_hash d file_path)).

(** The s3 key of an upload entry. *)
Definition item_key (item : UploadItem) : string := item.1.1.2.

(** ** Concrete inputs *)

Module Examples.

Definition roaming_root : Path := mkPath true ["home"; "u"; ".zen"].
Definition local_root : Path := mkPath true ["home"; "u"; ".cache"; "zen"].

Definition sync_with (exclude include : list string) (cache : bool) : ZenS3Sync :=
  {| prefix := "zen-profiles/";
     zen_roaming_path := roaming_root;
     zen_local_path := local_root;
     sync_cache_data := cache;
     exclude_patterns := exclude;
     include_patterns := include |}.

(** A disk given by the files that exist, each with size, time and digest. *)
Fixpoint file_at (files : list (Path * (Z * Z * string))) (p : Path) : option (Z * Z * string) :=
  match files with
  | [] => None
  | (q, data) :: files' => if decide (q = p) then Some data else file_at files' p
  end.

Definition disk (roaming : option Tree) (files : list (Path * (Z * Z * string))) : FileSystem :=
  {| dir_tree := fun p => if decide (p = roaming_root) then roaming else None;
     stat := fun p =>
       match file_at files p with
       | Some (size, mtime, _) => Some (size, mtime)
       | None => None
       end;
     file_hash := fun p =>
       match file_at files p with
       | Some (_, _, digest) => digest
       | None => EmptyString
       end |}.

Definition world (d : FileSystem) (objects : gmap string S3Object) : World :=
  {| fs := d; bucket := objects; s3_fault := fun _ => None; clock := 1700000000;
     disable_metadata := false; log := []; effects := [] |}.

(** Profiles/abc/cache2/data.db below the roaming root. *)
Definition nested_cache : Tree :=
  Dir [] [("Profiles", Dir [] [("abc", Dir ["prefs.js"] [("cache2", Dir ["data.db"] [])])])].

Definition cache2_sync : ZenS3Sync := sync_with ["cache2/*"] [] false.

Definition data_db : Path :=
  under roaming_root ["Profiles"; "abc"; "cache2"; "data.db"].

(** The roaming root holds prefs.js and cache2/data.db; the bucket holds
    an object for the latter. *)
Definition flat_cache : Tree := Dir ["prefs.js"] [("cache2", Dir ["data.db"] [])].

Definition cached_db : Path := under roaming_root ["cache2"; "data.db"].
Definition prefs_js : Path := under roaming_root ["prefs.js"].

Definition flat_disk : FileSystem :=
  disk (Some flat_cache) [(prefs_js, (100, 1000, "h-prefs")); (cached_db, (4096, 1000, "h-db"))].

Definition remote_db : S3Info :=
  {| s3_size := 4096; s3_mtime := 900; s3_etag := "e-db"; s3_exists := true;
     s3_key := "zen-profiles/roaming/cache2/data.db"; s3_hash := Some "h-db" |}.

Definition listing_db : gmap string S3Info := {["roaming/cache2/data.db" := remote_db]}.

(** prefs.js on both sides, same time stamp, different digests. *)
Definition local_prefs : LocalEntry :=
  {| le_path := prefs_js; le_info := info_file 100 1000 "h-local"; le_path_type := "roaming" |}.

Definition remote_prefs : S3Info :=
  {| s3_size := 120; s3_mtime := 1000; s3_etag := "e-prefs"; s3_exists := true;
     s3_key := "zen-profiles/roaming/prefs.js"; s3_hash := Some "h-remote" |}.

Definition lookup_prefs : gmap string LocalEntry := {["roaming/prefs.js" := local_prefs]}.
Definition listing_prefs : gmap string S3Info := {["roaming/prefs.js" := remote_prefs]}.

(** A disk on which nothing can be found any more. *)
Definition empty_disk : FileSystem := disk None [].

(** A roaming root without any file, and an empty bucket. *)
Definition bare_world : World := world (disk (Some (Dir [] [])) []) ∅.

(** One file to push into an empty bucket. *)
Definition prefs_tree : Tree := Dir ["prefs.js"] [].
Definition prefs_disk : FileSystem := disk (Some prefs_tree) [(prefs_js, (100, 1000, "h-prefs"))].
Definition plain_sync : ZenS3Sync := sync_with [] [] false.
Definition prefs_world : World := world prefs_disk ∅.

(** The same push under a prefix written with a backslash. *)
Definition backslash_sync : ZenS3Sync :=
  {| prefix := "backup\";
     zen_roaming_path := roaming_root;
     zen_local_path := local_root;
     sync_cache_data := false;
     exclude_patterns := [];
     include_patterns := [] |}.

(** A file named [a\b] next to the file [b] of the directory [a]. *)
Definition clash_tree : Tree := Dir ["a\b"] [("a", Dir ["b"] [])].
Definition clash_disk : FileSystem :=
  disk (Some clash_tree)
    [(under roaming_root ["a\b"], (10, 1000, "h-one"));
     (under roaming_root ["a"; "b"], (20, 1000, "h-two"))].
Definition clash_world : World := world clash_disk ∅.

(** prefs.js is listed by the scan and gone when it is to be read. *)
Definition vanished_world (objects : gmap string S3Object) : World :=
  world (disk (Some prefs_tree) []) objects.

Definition stored_prefs : gmap string S3Object :=
  {["zen-profiles/roaming/prefs.js" :=
      {| obj_size := 120; obj_last_modified := 900; obj_etag := "e-prefs";
         obj_metadata := ∅ |}]}.

End Examples.

(** ** What a run writes *)

(** The single changes code can make to the world. *)
Inductive write : Type :=
  | WLog (r : log_record)
  | WEffect (e : local_effect)
  | WInsert (key : string) (obj : S3Object)
  | WDelete (key : string)
  | WDisable.

Definition apply_write (x : write) (w : World) : World :=
  match x with
  | WLog r => add_log r w
  | WEffect e => add_effect e w
  | WInsert key obj => set_bucket (<[key := obj]> (bucket w)) w
  | WDelete key => set_bucket (delete key (bucket w)) w
  | WDisable => set_disable_metadata true w
  end.

Definition apply_writes (xs : list write) (w : World) : World :=
  fold_left (fun w x => apply_write x w) xs w.

(** Run from [w], the computation changes the world by writes that all
    satisfy [P], whatever its outcome. *)
Definition writes_from {A} (P : write -> Prop) (m : M A) (w : World) : Prop :=
  exists xs, Forall P xs /\ (m w).2 = apply_writes xs w.

(** The writes of one upload. *)
Definition upload_write (s3_key : string) (x : write) : Prop :=
  match x with
  | WLog _ => True
  | WEffect e => e = SaveConfig
  | WInsert key _ => key = s3_key
  | WDelete _ => False
  | WDisable => True
  end.

(** The writes of one download. *)
Definition download_write (x : write) : Prop :=
  match x with
  | WEffect (Mkdir _) | WEffect (WriteFile _ _) | WEffect (Utime _ _) => True
  | _ => False
  end.

(** The writes of a push: uploads go under the prefix as the key builder
    spells it, deletions need [cleanup] and a listing that succeeded, and
    a dry run only logs. *)
Definition push_write (self : ZenS3Sync) (dry_run cleanup listed : bool) (x : write) : Prop :=
  match x with
  | WLog _ => True
  | WEffect e => dry_run = false /\ e = SaveConfig
  | WInsert key _ =>
      dry_run = false /\
      Str.startswith (Str.replace Str.backslash Str.slash (prefix self)) key = true
  | WDelete key =>
      dry_run = false /\ cleanup = true /\ listed = true /\
      Str.startswith (prefix self) key = true
  | WDisable => dry_run = false
  end.

(** The writes of a pull: nothing goes to the bucket, and local files are
    removed under [cleanup] only. *)
Definition pull_write (dry_run cleanup : bool) (x : write) : Prop :=
  match x with
  | WLog _ => True
  | WEffect e =>
      dry_run = false /\
      match e with
      | Mkdir _ | WriteFile _ _ | Utime _ _ => True
      | Unlink _ | Rmdir _ => cleanup = true
      | SaveConfig => False
      end
  | _ => False
  end.

(** The writes of a bidirectional run. *)
Definition sync_write (dry_run : bool) (x : write) : Prop :=
  match x with
  | WLog _ => True
  | WEffect e => dry_run = false /\ is_deletion e = false
  | WInsert _ _ => dry_run = false
  | WDelete _ => False
  | WDisable => dry_run = false
  end.

(** Did the listing call of this world succeed? *)
Definition listing_succeeds (w : World) : bool :=
  match s3_fault w ListObjects with
  | None => true
  | Some _ => false
  end.

(** The local effects added all satisfy [Q]. *)
Definition effects_added (Q : local_effect -> Prop) (w w' : World) : Prop :=
  exists added, effects w' = effects w ++ added /\ Forall Q added.

(** ** More concrete inputs *)

Module Cases.

(** A world whose store rejects the listing call, with metadata already
    switched off. *)
Definition offline_world : World :=
  {| fs := Examples.prefs_disk; bucket := Examples.stored_prefs;
     s3_fault := fun call => match call with ListObjects => Some "timeout"%string | _ => None end;
     clock := 1700000000; disable_metadata := true; log := []; effects := [] |}.

End Cases.

(** ** What the pull analysis plans for one key or file, read off its loops *)

(** The incremental test of the pull analysis finds the local file
    present and equal to the object. *)
Definition pull_unchanged (d : FileSystem) (incremental : bool) (local_path : Path)
    (s3_info : S3Info) : bool :=
  incremental && local_exists (_get_file_info d local_path)
  && negb (_files_are_different (_get_file_info d local_path) s3_info).

Definition pull_download (self : ZenS3Sync) (d : FileSystem) (incremental : bool)
    (kv : string * S3Info) : option DownloadItem :=
  match _get_download_path self kv.1 with
  | Some local_path =>
      if pull_unchanged d incremental local_path kv.2 then None
      else Some (local_path, s3_key kv.2, s3_size kv.2, kv.1)
  | None => None
  end.

Definition pull_skip (self : ZenS3Sync) (d : FileSystem) (incremental : bool)
    (kv : string * S3Info) : option SkipItem :=
  match _get_download_path self kv.1 with
  | Some local_path =>
      if pull_unchanged d incremental local_path kv.2
      then Some (local_path, s3_key kv.2, s3_size kv.2)
      else None
  | None => None
  end.

Definition local_deletion (d : FileSystem) (s3_objects : gmap string S3Info)
    (file : LocalFile) : option DeleteLocalItem :=
  match relative_key_of file with
  | Ok relative_s3_key =>
      match s3_objects !! relative_s3_key, _get_file_info d file.1.1 with
      | None, info_file size _ _ => Some (file.1.1, relative_s3_key, size)
      | _, _ => None
      end
  | Raise _ => None
  end.

(** The files the scan of the root of [path_type] returns. *)
Definition scanned (fnmatch : string -> string -> bool) (self : ZenS3Sync)
    (d : FileSystem) (path_type : string) : list LocalFile :=
  match dir_tree d (base_of self path_type) with
  | Some t => map (entry (base_of self path_type) path_type) (reached fnmatch self [] t)
  | None => []
  end.


(** ** [config.ZenSyncConfig]: the configuration file *)

Module Config.

(** A JSON value as [json.load] returns it.  An object keeps the order
    of its keys, as a Python dictionary does; numbers are not looked
    into, so integers stand for them. *)
Inductive json : Type :=
  | JNull
  | JBool (b : bool)
  | JNum (n : Z)
  | JStr (s : string)
  | JList (l : list json)
  | JDict (d : list (string * json)).

Fixpoint dict_get (d : list (string * json)) (key : string) : option json :=
  match d with
  | [] => None
  | (k, v) :: d' => if decide (k = key) then Some v else dict_get d' key
  end.

(** An existing key keeps its place; a new key goes to the end. *)
Fixpoint dict_set (d : list (string * json)) (key : string) (v : json)
    : list (string * json) :=
  match d with
  | [] => [(key, v)]
  | (k, x) :: d' => if decide (k = key) then (k, v) :: d' else (k, x) :: dict_set d' key v
  end.

(** [key in c] for a string [key]: membership in a dictionary, equality
    with an element of a list, occurrence in a string; [None] where
    Python raises [TypeError]. *)
Definition contains (c : json) (key : string) : option bool :=
  match c with
  | JDict d => Some (bool_decide (is_Some (dict_get d key)))
  | JList l =>
      Some (existsb (fun x => match x with JStr s => bool_decide (s = key) | _ => false end) l)
  | JStr s => Some (Str.contains key s)
  | _ => None
  end.

(** [c[key]] for a string [key]: [None] where Python raises [KeyError]
    or [TypeError]. *)
Definition getitem (c : json) (key : string) : option json :=
  match c with
  | JDict d => dict_get d key
  | _ => None
  end.

(** [c[key] = v]: [None] where Python raises [TypeError]. *)
Definition setitem (c : json) (key : string) (v : json) : option json :=
  match c with
  | JDict d => Some (JDict (dict_set d key v))
  | _ => None
  end.

(** [c[key][subkey]]. *)
Definition getitem2 (c : json) (key subkey : string) : option json :=
  section ← getitem c key; getitem section subkey.

(** [c[key][subkey] = v]: the inner dictionary is changed in place. *)
Definition setitem2 (c : json) (key subkey : string) (v : json) : option json :=
  section ← getitem c key;
  section' ← setitem section subkey v;
  setitem c key section'.

Definition default_config : list (string * json) :=
  [("aws",
    JDict [("region", JStr "us-east-1");
           ("bucket", JStr "");
           ("prefix", JStr "zen-profiles/");
           ("endpoint_url", JStr "");
           ("disable_metadata", JBool false);
           ("signature_version", JStr "s3v4");
           ("access_key_id", JStr "");
           ("secret_access_key", JStr "");
           ("profile", JStr "")]);
   ("sync",
    JDict [("zen_roaming_path", JStr "");
           ("zen_local_path", JStr "");
           ("sync_cache_data", JBool false);
           ("exclude_patterns",
            JList (map JStr
              ["*.lock"; "*.lck"; "*-wal"; "*-shm"; "*-journal";
               "parent.lock"; "cookies.sqlite*"; "webappsstore.sqlite*";
               "storage/temporary/*"; "storage/default/*/ls/*"; "storage/permanent/*/ls/*";
               "cache2/*"; "jumpListCache/*"; "offlineCache/*"; "thumbnails/*";
               "crashes/*"; "minidumps/*"; "shader-cache/*"; "startupCache/*";
               "safebrowsing/*"; "logs/*"; "sessionstore-backups/previous.jsonlz4";
               "sessionstore-backups/upgrade.jsonlz4-*";
               "Profile Groups/*.sqlite-shm"; "Profile Groups/*.sqlite-wal"]));
           ("include_important",
            JList (map JStr
              ["*.ini"; "prefs.js"; "user.js"; "userChrome.css"; "userContent.css";
               "bookmarks.html"; "places.sqlite"; "favicons.sqlite"; "key4.db";
               "cert9.db"; "extensions.json"; "extension-settings.json";
               "extension-preferences.json"; "search.json.mozlz4"; "handlers.json";
               "containers.json"; "zen-*.json"; "zen-*.css"; "chrome/**/*";
               "profiles.ini"; "installs.ini"; "Profile Groups/*.sqlite";
               "zen-keyboard-shortcuts.json"; "zen-themes.json"; "sessionstore.jsonlz4";
               "sessionCheckpoints.json"; "logins.json"; "compatibility.ini"]))])].

(** A loop whose body may raise. *)
Fixpoint for_each_item {A S} (body : A -> S -> option S) (l : list A) (s : S) : option S :=
  match l with
  | [] => Some s
  | a :: l' => s' ← body a s; for_each_item body l' s'
  end.

(** The inner loop of the merge, for one [subkey] of the default section. *)
Definition merge_subkey (default_section : json) (key : string) (sub : string * json)
    (config : json) : option json :=
  section ← getitem config key;
  present ← contains section sub.1;
  if negb present then
    v ← getitem default_section sub.1;
    section' ← setitem section sub.1 v;
    setitem config key section'
  else Some config.

(** The outer loop of the merge, for one [key] of the defaults. *)
Definition merge_key (kv : string * json) (config : json) : option json :=
  present ← contains config kv.1;
  if negb present then setitem config kv.1 kv.2
  else
    match kv.2 with
    | JDict subs => for_each_item (merge_subkey kv.2 kv.1) subs config
    | _ => Some config
    end.

(** What is found at the path of the configuration file. *)
Inductive config_file : Type :=
  | Missing                      (* [os.path.exists] is false *)
  | Unreadable                   (* [open] or [json.load] raises *)
  | Parsed (config : json).

(** Any exception of the merge leads to the defaults. *)
Definition load_config (file : config_file) : json :=
  match file with
  | Parsed config =>
      match for_each_item merge_key default_config config with
      | Some merged => merged
      | None => JDict default_config
      end
  | _ => JDict default_config
  end.

(** The file gives the section as a dictionary, or not at all. *)
Definition section_ok (d : list (string * json)) (key : string) : bool :=
  match dict_get d key with
  | None | Some (JDict _) => true
  | Some _ => false
  end.

(** A value that supports neither [in] nor item assignment. *)
Definition scalar (v : json) : bool :=
  match v with
  | JNull | JBool _ | JNum _ => true
  | _ => false
  end.

(** Truth value of a JSON value. *)
Definition truth (v : json) : bool :=
  match v with
  | JNull => false
  | JBool b => b
  | JNum n => negb (bool_decide (n = 0))
  | JStr s => negb (bool_decide (s = EmptyString))
  | JList l => negb (is_nil l)
  | JDict d => negb (is_nil d)
  end.

End Config.

(** ** [cli]: the command line *)

Module Cli.
Import Config.

(** The three commands that talk to the store, and the others. *)
Inductive transfer : Type := upload | download | sync.

Inductive command : Type :=
  | transfer_command (t : transfer)
  | list_profiles
  | profile_info
  | configure.

(** The namespace [parse_args] returns, as far as [run_cli] and
    [handle_configure] read it.  An option with a value is [None] when it
    was not given or when the command does not define it; a flag is
    [false] then. *)
Record Namespace : Type := {
  args_roaming_path : option string;
  args_local_path : option string;
  args_command : option command;
  args_bucket : option string;
  args_prefix : option string;          (* [--prefix] as given on the command line *)
  args_dry_run : bool;
  args_no_cache : bool;
  args_force_full : bool;
  args_cleanup : bool;
  args_region : option string;
  args_endpoint_url : option string;
  args_access_key : option string;
  args_secret_key : option string;
  args_profile : option string;
  args_auto_detect : bool;
  args_enable_cache_sync : bool;
  args_disable_cache_sync : bool;
  args_disable_metadata : bool;
  args_enable_metadata : bool;
  args_signature_version : option string
}.

(** [args.prefix] on upload, download and sync: [create_parser] declares
    [default='zen-profiles/'] for it. *)
Definition prefix_attribute (args : Namespace) : string :=
  default "zen-profiles/"%string (args_prefix args).

(** The value of an option that passed its truth test. *)
Definition given (o : option string) : json := JStr (default EmptyString o).

(** [if cond: config.config[key][subkey] = v]. *)
Definition assign (cond : bool) (key subkey : string) (v : json) (config : json)
    : option json :=
  if cond then setitem2 config key subkey v else Some config.

(** [handle_configure]: the configuration that is saved and the one
    that is printed; [None] where an exception escapes.  [auto_paths] is
    what [auto_detect_zen_paths] returns. *)
Definition handle_configure (args : Namespace) (auto_paths : string * string)
    (config : json) : option (json * json) :=
  config ← assign (truthy (args_bucket args)) "aws" "bucket" (given (args_bucket args)) config;
  config ← assign (truthy (args_region args)) "aws" "region" (given (args_region args)) config;
  config ← assign (truthy (args_endpoint_url args)) "aws" "endpoint_url"
             (given (args_endpoint_url args)) config;
  config ← assign (truthy (args_access_key args)) "aws" "access_key_id"
             (given (args_access_key args)) config;
  config ← assign (truthy (args_secret_key args)) "aws" "secret_access_key"
             (given (args_secret_key args)) config;
  config ← assign (truthy (args_profile args)) "aws" "profile" (given (args_profile args)) config;
  config ← assign (truthy (args_profile args)) "aws" "access_key_id" (JStr "") config;
  config ← assign (truthy (args_profile args)) "aws" "secret_access_key" (JStr "") config;
  config ← assign (truthy (args_roaming_path args)) "sync" "zen_roaming_path"
             (given (args_roaming_path args)) config;
  config ← assign (truthy (args_local_path args)) "sync" "zen_local_path"
             (given (args_local_path args)) config;
  config ← assign (args_auto_detect args && truthy (Some auto_paths.1)) "sync" "zen_roaming_path"
             (JStr auto_paths.1) config;
  config ← assign (args_auto_detect args && truthy (Some auto_paths.2)) "sync" "zen_local_path"
             (JStr auto_paths.2) config;
  config ← assign (args_enable_cache_sync args) "sync" "sync_cache_data" (JBool true) config;
  config ← assign (args_disable_cache_sync args) "sync" "sync_cache_data" (JBool false) config;
  config ← assign (args_disable_metadata args) "aws" "disable_metadata" (JBool true) config;
  config ← assign (args_enable_metadata args) "aws" "disable_metadata" (JBool false) config;
  config ← assign (truthy (args_signature_version args)) "aws" "signature_version"
             (given (args_signature_version args)) config;
  aws ← getitem config "aws";
  match aws with
  | JDict d =>
      display_config ← assign (truth (default JNull (dict_get d "secret_access_key")))
                         "aws" "secret_access_key" (JStr "***HIDDEN***") config;
      Some (config, display_config)
  | _ => None
  end.

(** [run_cli] up to the [try]: the configuration the command runs with.
    It is never saved by this block. *)
Definition run_cli_config (args : Namespace) (config : json) : option json :=
  config ← assign (truthy (args_roaming_path args)) "sync" "zen_roaming_path"
             (given (args_roaming_path args)) config;
  config ← assign (truthy (args_local_path args)) "sync" "zen_local_path"
             (given (args_local_path args)) config;
  match args_command args with
  | Some (transfer_command _) =>
      config ← assign (truthy (args_bucket args)) "aws" "bucket" (given (args_bucket args)) config;
      config ← assign (truthy (Some (prefix_attribute args))) "aws" "prefix"
                 (JStr (prefix_attribute args)) config;
      assign (args_no_cache args) "sync" "sync_cache_data" (JBool false) config
  | _ => Some config
  end.

(** The status of the process after a mode has run: [sys.exit(0 if
    success else 1)], and [sys.exit(1)] in the handler of [run_cli] when
    the mode raised. *)
Definition status_of (r : result bool) : Z :=
  match r with
  | Ok success => exit_status success
  | Raise _ => 1
  end.

(** The call [run_cli] makes for the command: [--force-full] switches
    incremental mode off; sync takes no such option. *)
Definition run_mode (fnmatch : string -> string -> bool) (t : transfer) (args : Namespace)
    (self : ZenS3Sync) : M bool :=
  let incremental := negb (args_force_full args) in
  let cleanup := args_cleanup args in
  match t with
  | upload => upload_to_s3 fnmatch self (args_dry_run args) incremental cleanup
  | download => download_from_s3 fnmatch self (args_dry_run args) incremental cleanup
  | sync => sync_bidirectional fnmatch self (args_dry_run args) cleanup
  end.

(** [run_cli] from the [try] on, for upload, download and sync.  [self]
    is the engine built from the configuration and [bucket] the bucket it
    names; [connected] tells whether [_init_s3_client] reached the
    bucket.  An empty bucket name raises [ValueError] in the constructor,
    which the handler turns into status 1; a failed connection exits with
    status 1 at once. *)
Definition run_cli_transfer (fnmatch : string -> string -> bool) (t : transfer)
    (args : Namespace) (bucket : string) (connected : bool) (self : ZenS3Sync) (w : World)
    : Z * World :=
  if bool_decide (bucket = EmptyString) then (1, w)
  else if negb connected then (1, w)
  else
    let '(r, w') := run_mode fnmatch t args self w in
    (status_of r, w').

(** Both sections of the configuration are dictionaries. *)
Definition sections (config : json) : Prop :=
  exists d a s, config = JDict d /\
                dict_get d "aws" = Some (JDict a) /\ dict_get d "sync" = Some (JDict s).

End Cli.

(** ** Concrete inputs for the modes, the configuration and the command line *)

Module Runs.

Definition prefs_file : LocalFile := (Examples.prefs_js, Examples.roaming_root, "roaming"%string).

Definition prefs_upload : UploadItem :=
  (Examples.prefs_js, "zen-profiles/roaming/prefs.js"%string, 100, "roaming"%string).

Definition prefs_download : DownloadItem :=
  (Examples.prefs_js, "zen-profiles/roaming/prefs.js"%string, 120, "roaming/prefs.js"%string).

(** The bucket holds nothing but an object of the cache. *)
Definition remote_cache : S3Info :=
  {| s3_size := 512; s3_mtime := 900; s3_etag := "e-cache"; s3_exists := true;
     s3_key := "zen-profiles/local/cache.db"; s3_hash := None |}.

Definition listing_cache : gmap string S3Info := {["local/cache.db"%string := remote_cache]}.

Definition cache_deletion : DeleteS3Item :=
  ("local/cache.db"%string, "zen-profiles/local/cache.db"%string, 512).

Definition prefs_deletion : DeleteLocalItem :=
  (Examples.prefs_js, "roaming/prefs.js"%string, 100).

(** A key whose part after [roaming/] is an absolute path. *)
Definition remote_job : S3Info :=
  {| s3_size := 64; s3_mtime := 900; s3_etag := "e-job"; s3_exists := true;
     s3_key := "zen-profiles/roaming//etc/cron.d/job"; s3_hash := None |}.

Definition listing_job : gmap string S3Info :=
  {["roaming//etc/cron.d/job"%string := remote_job]}.

Definition job_download : DownloadItem :=
  (mkPath true ["etc"; "cron.d"; "job"]%string, "zen-profiles/roaming//etc/cron.d/job"%string,
   64, "roaming//etc/cron.d/job"%string).




(** A configuration file that names a bucket and a theme, and nothing else. *)
Definition partial_file : list (string * Config.json) :=
  [("aws"%string, Config.JDict [("bucket"%string, Config.JStr "my-backups")]);
   ("theme"%string, Config.JStr "dark")].

(** A configuration with a prefix and a bucket of its own, and cache data on. *)
Definition file_config : Config.json :=
  Config.JDict
    [("aws"%string,
      Config.JDict [("bucket"%string, Config.JStr "my-backups");
                    ("prefix"%string, Config.JStr "laptop/");
                    ("access_key_id"%string, Config.JStr "AKIAOLD");
                    ("secret_access_key"%string, Config.JStr "old-secret")]);
     ("sync"%string, Config.JDict [("sync_cache_data"%string, Config.JBool true)])].

Definition no_options (c : option Cli.command) : Cli.Namespace :=
  {| Cli.args_roaming_path := None; Cli.args_local_path := None; Cli.args_command := c;
     Cli.args_bucket := None; Cli.args_prefix := None; Cli.args_dry_run := false;
     Cli.args_no_cache := false; Cli.args_force_full := false; Cli.args_cleanup := false;
     Cli.args_region := None; Cli.args_endpoint_url := None; Cli.args_access_key := None;
     Cli.args_secret_key := None; Cli.args_profile := None; Cli.args_auto_detect := false;
     Cli.args_enable_cache_sync := false; Cli.args_disable_cache_sync := false;
     Cli.args_disable_metadata := false; Cli.args_enable_metadata := false;
     Cli.args_signature_version := None |}.

(** [zensync upload], with no option. *)
Definition plain_upload : Cli.Namespace :=
  no_options (Some (Cli.transfer_command Cli.upload)).

(** [zensync configure --profile work --access-key AKIANEW --secret-key new-secret
    --enable-cache-sync --disable-cache-sync --disable-metadata --enable-metadata]. *)
Definition reconfigure : Cli.Namespace :=
  {| Cli.args_roaming_path := None; Cli.args_local_path := None;
     Cli.args_command := Some Cli.configure;
     Cli.args_bucket := None; Cli.args_prefix := None; Cli.args_dry_run := false;
     Cli.args_no_cache := false; Cli.args_force_full := false; Cli.args_cleanup := false;
     Cli.args_region := None; Cli.args_endpoint_url := None;
     Cli.args_access_key := Some "AKIANEW"%string;
     Cli.args_secret_key := Some "new-secret"%string;
     Cli.args_profile := Some "work"%string; Cli.args_auto_detect := false;
     Cli.args_enable_cache_sync := true; Cli.args_disable_cache_sync := true;
     Cli.args_disable_metadata := true; Cli.args_enable_metadata := true;
     Cli.args_signature_version := None |}.

End Runs.


(** ** A store whose objects are listed without hashes *)

Module Plain.

(** The bucket holds prefs.js, and metadata is switched off. *)
Definition world : World :=
  {| fs := Examples.prefs_disk; bucket := Examples.stored_prefs; s3_fault := fun _ => None;
     clock := 1700000000; disable_metadata := true; log := []; effects := [] |}.

Definition listed_prefs : S3Info :=
  {| s3_size := 120; s3_mtime := 900; s3_etag := "e-prefs"; s3_exists := true;
     s3_key := "zen-profiles/roaming/prefs.js"; s3_hash := None |}.

End Plain.

(** * Properties *)

(** ** Strings and paths *)

Section StringFacts.

Implicit Types (s t : string) (c a b : ascii).

Lemma replace_app a b s t :
  Str.replace a b (s +:+ t) = Str.replace a b s +:+ Str.replace a b t.
Proof. induction s as [|c s IH]; simpl; [done | by rewrite IH]. Qed.

Lemma replace_id a b s : Str.has_char a s = false -> Str.replace a b s = s.
Proof.
  induction s as [|c s IH]; simpl; [done |].
  destruct (decide (c = a)); [done | intros H; by rewrite IH].
Qed.

Lemma length_replace a b s : String.length (Str.replace a b s) = String.length s.
Proof. induction s as [|c s IH]; simpl; [done | by rewrite IH]. Qed.

Lemma drop_app_length s s' t :
  String.length s' = String.length s -> Str.drop (String.length s) (s' +:+ t) = t.
Proof.
  revert s'. induction s as [|c s IH]; intros [|c' s'] Hlen; simpl in *; try done.
  apply IH. congruence.
Qed.

Lemma has_char_app c s t : Str.has_char c (s +:+ t) = Str.has_char c s || Str.has_char c t.
Proof.
  induction s as [|a s IH]; simpl; [done |].
  by destruct (decide (a = c)).
Qed.

Lemma split_no_sep c s : Str.has_char c s = false -> Str.split c s = [s].
Proof.
  induction s as [|a s IH]; simpl; [done |].
  destruct (decide (a = c)); [done |]. intros H. by rewrite IH.
Qed.

Lemma split_app_sep c s t :
  Str.has_char c s = false -> Str.split c (s +:+ String c t) = s :: Str.split c t.
Proof.
  induction s as [|a s IH]; simpl.
  - intros _. by rewrite decide_True.
  - destruct (decide (a = c)); [done |]. intros H. by rewrite IH.
Qed.

Lemma split_join (l : list string) :
  l <> [] -> Forall (fun seg => Str.has_char Str.slash seg = false) l ->
  Str.split Str.slash (Str.join "/" l) = l.
Proof.
  induction l as [|x l IH]; [done |]. intros _ Hall.
  apply Forall_cons in Hall as [Hx Hl].
  destruct l as [|y l].
  - simpl. by apply split_no_sep.
  - change (Str.join "/" (x :: y :: l)) with (x +:+ String Str.slash (Str.join "/" (y :: l))).
    rewrite split_app_sep by done. f_equal. by apply IH.
Qed.

Lemma has_char_join c (l : list string) :
  c <> Str.slash -> Forall (fun seg => Str.has_char c seg = false) l ->
  Str.has_char c (Str.join "/" l) = false.
Proof.
  intros Hc. induction l as [|x l IH]; [done |]. intros Hall.
  apply Forall_cons in Hall as [Hx Hl].
  destruct l as [|y l]; [done |].
  change (Str.join "/" (x :: y :: l)) with (x +:+ String Str.slash (Str.join "/" (y :: l))).
  rewrite has_char_app, Hx. simpl. rewrite decide_False by done. by apply IH.
Qed.

Lemma plain_no_slash (rel : list string) :
  Forall plain_component rel -> Forall (fun seg => Str.has_char Str.slash seg = false) rel.
Proof. intros H. eapply Forall_impl; [exact H |]. by intros seg (_ & _ & ? & _). Qed.

Lemma plain_no_backslash (rel : list string) :
  Forall plain_component rel -> Forall (fun seg => Str.has_char Str.backslash seg = false) rel.
Proof. intros H. eapply Forall_impl; [exact H |]. by intros seg (_ & _ & _ & ?). Qed.

Lemma filter_all {A} (P : A -> Prop) `{!forall x, Decision (P x)} (l : list A) :
  Forall P l -> filter P l = l.
Proof.
  induction 1 as [|x l Hx _ IH]; [done |].
  rewrite filter_cons_True by done. by rewrite IH.
Qed.

(** The string of a relative path denotes the same components again. *)
Lemma segments_path_str (rel : list string) :
  Forall plain_component rel -> segments (path_str (mkPath false rel)) = rel.
Proof.
  intros Hall. unfold segments, path_str. simpl.
  destruct rel as [|x rel]; [done |].
  rewrite split_join by (done || by apply plain_no_slash).
  apply filter_all.
  eapply Forall_impl; [exact Hall |]. by intros seg (? & ? & _).
Qed.

Lemma path_str_relative (rel : list string) :
  Forall plain_component rel -> Str.startswith "/" (path_str (mkPath false rel)) = false.
Proof.
  intros Hall. unfold path_str. simpl.
  destruct rel as [|x rel]; [done |].
  apply Forall_cons in Hall as [(Hne & _ & Hslash & _) _].
  destruct x as [|c x]; [done |].
  assert (exists rest, Str.join "/" (String c x :: rel) = String c rest) as [rest ->].
  { destruct rel; simpl; eauto. }
  simpl in *. destruct (decide (c = Str.slash)) as [->|Hc]; [done |].
  rewrite decide_False; [done |]. intros Heq. apply Hc. by rewrite <- Heq.
Qed.

Lemma path_str_no_backslash (rel : list string) :
  Forall plain_component rel ->
  Str.has_char Str.backslash (path_str (mkPath false rel)) = false.
Proof.
  intros Hall. unfold path_str. simpl.
  destruct rel as [|x rel]; [done |].
  apply has_char_join; [done | by apply plain_no_backslash].
Qed.

Lemma strip_prefix_app (pre rel : list string) : strip_prefix pre (pre ++ rel) = Some rel.
Proof. induction pre as [|x pre IH]; simpl; [done |]. by rewrite decide_True. Qed.

Lemma relative_to_under (r : Path) (rel : list string) :
  relative_to (under r rel) r = Ok (mkPath false rel).
Proof.
  unfold relative_to, under. simpl.
  rewrite decide_True by done. by rewrite strip_prefix_app.
Qed.

(** Joining the string of a relative path gives the path below the root. *)
Lemma joinpath_path_str (r : Path) (rel : list string) :
  Forall plain_component rel -> joinpath r (path_str (mkPath false rel)) = under r rel.
Proof.
  intros Hall. unfold joinpath.
  rewrite path_str_relative by done. by rewrite segments_path_str.
Qed.

End StringFacts.

(** ** Pattern classifier and identity comparator *)

(** C7.  [should_include_file] is the reference [includeFile]: for a path
    below the root the answer is false exactly when the relative path (with
    forward slashes) or the bare name matches an exclude glob, whatever the
    include globs say; a path that is not below the root raises. *)
Theorem should_include_file_is_reference (fnmatch : string -> string -> bool)
    (self : ZenS3Sync) (file_path base_path : Path) :
  should_include_file fnmatch self file_path base_path =
  (relative_path ← relative_to file_path base_path;
   Ok (includeFile_ref fnmatch (exclude_patterns self)
         (Str.replace Str.backslash Str.slash (path_str relative_path))
         (path_name file_path))).
Proof.
  unfold should_include_file, includeFile_ref, pattern_hits.
  destruct (relative_to file_path base_path) as [rel|e]; simpl; [|done].
  destruct (existsb _ (exclude_patterns self)); simpl; [done |].
  by destruct (existsb _ (include_patterns self)).
Qed.

Lemma size_test (a b : Z) :
  (if negb (bool_decide (a = b)) then true else false) = negb (a =? b).
Proof.
  destruct (decide (a = b)) as [->|Hne].
  - rewrite bool_decide_true by done. by rewrite Z.eqb_refl.
  - rewrite bool_decide_false by done. apply Z.eqb_neq in Hne. by rewrite Hne.
Qed.

Lemma hash_test (h h' : string) :
  bool_decide (Some h = Some h') = String.eqb h h'.
Proof.
  destruct (String.eqb_spec h h') as [->|Hne].
  - by rewrite bool_decide_true.
  - rewrite bool_decide_false; [done | congruence].
Qed.

(** C5.  [_files_are_different] is the reference comparator: a side that
    does not exist makes the pair different; two non-empty hashes decide
    alone; otherwise the sizes decide. *)
Theorem files_are_different_is_reference (l : LocalInfo) (r : S3Info) :
  _files_are_different l r = areDifferent_ref l r.
Proof.
  destruct l as [|size mtime hash]; simpl; [done |].
  destruct (s3_exists r); simpl; [|done].
  destruct hash as [|c hash], (s3_hash r) as [[|c' remote]|]; simpl;
    rewrite ?size_test, ?hash_test; done.
Qed.

(** ** Namespace mapper *)

Lemma get_s3_key_under (self : ZenS3Sync) (r : Path) (rel : list string) (role : string) :
  is_role role = true ->
  _get_s3_key self (under r rel) r role =
  Ok (Str.replace Str.backslash Str.slash (prefix self) +:+
      Str.replace Str.backslash Str.slash (role +:+ "/" +:+ path_str (mkPath false rel))).
Proof.
  intros Hrole. unfold _get_s3_key. rewrite relative_to_under. simpl.
  rewrite Hrole. by rewrite replace_app.
Qed.

Lemma get_relative_s3_key_under (r : Path) (rel : list string) (role : string) :
  is_role role = true ->
  _get_relative_s3_key (under r rel) r role =
  Ok (Str.replace Str.backslash Str.slash (role +:+ "/" +:+ path_str (mkPath false rel))).
Proof.
  intros Hrole. unfold _get_relative_s3_key. rewrite relative_to_under. simpl.
  by rewrite Hrole.
Qed.

(** Cutting the prefix off the full key leaves the relative key. *)
Lemma strip_prefix_of_key (self : ZenS3Sync) (r : Path) (rel : list string) (role : string) :
  is_role role = true ->
  (full_key ← _get_s3_key self (under r rel) r role;
   Ok (Str.drop (String.length (prefix self)) full_key)) =
  _get_relative_s3_key (under r rel) r role.
Proof.
  intros Hrole. rewrite get_s3_key_under, get_relative_s3_key_under by done. simpl.
  f_equal. apply drop_app_length, length_replace.
Qed.

(** C4, as the code has it.  For a path below the roaming root, and for a
    path below the local root when cache data is synchronised, whose
    components below the root contain no backslash: cutting the prefix off
    the remote key and mapping the rest back gives the path again.  A
    relative key that starts with neither [roaming/] nor [local/] is joined
    to the roaming root. *)
Theorem namespace_round_trip (self : ZenS3Sync) (rel : list string) :
  Forall plain_component rel ->
  round_trip self (under (zen_roaming_path self) rel) (zen_roaming_path self) "roaming"
    = Ok (Some (under (zen_roaming_path self) rel)) /\
  (sync_cache_data self = true ->
   round_trip self (under (zen_local_path self) rel) (zen_local_path self) "local"
     = Ok (Some (under (zen_local_path self) rel))) /\
  (forall key, Str.startswith "roaming/" key = false -> Str.startswith "local/" key = false ->
     _get_download_path self key = Some (joinpath (zen_roaming_path self) key)).
Proof.
  intros Hrel.
  assert (Hstr := path_str_no_backslash rel Hrel).
  split; [|split].
  - unfold round_trip. rewrite get_s3_key_under by done.
    rewrite !replace_app, (replace_id _ _ (path_str _)) by done.
    remember (path_str (mkPath false rel)) as ps eqn:Hps. simpl.
    rewrite drop_app_length by apply length_replace.
    unfold _get_download_path. simpl. change ("" +:+ ps) with ps.
    subst ps. by rewrite joinpath_path_str.
  - intros Hcache. unfold round_trip. rewrite get_s3_key_under by done.
    rewrite !replace_app, (replace_id _ _ (path_str _)) by done.
    remember (path_str (mkPath false rel)) as ps eqn:Hps. simpl.
    rewrite drop_app_length by apply length_replace.
    unfold _get_download_path. simpl. rewrite Hcache. change ("" +:+ ps) with ps.
    subst ps. by rewrite joinpath_path_str.
  - intros key Hr Hl. unfold _get_download_path. by rewrite Hr, Hl.
Qed.

Lemma namespace_round_trip_witness :
  Forall plain_component ["Profiles"; "abc"; "prefs.js"] /\
  round_trip (Examples.sync_with [] [] true)
    (under Examples.roaming_root ["Profiles"; "abc"; "prefs.js"]) Examples.roaming_root "roaming"
    = Ok (Some (under Examples.roaming_root ["Profiles"; "abc"; "prefs.js"])).
Proof.
  assert (H : Forall plain_component ["Profiles"; "abc"; "prefs.js"]).
  { repeat constructor; done. }
  split; [exact H |].
  exact (proj1 (namespace_round_trip (Examples.sync_with [] [] true) _ H)).
Defined.

(** C4 as stated fails: on a POSIX disk the file name [a\b] is one
    component, the key turns its backslash into a slash, and the way back
    yields the two components [a] and [b]. *)
Lemma namespace_round_trip_backslash :
  round_trip Examples.cache2_sync (under Examples.roaming_root ["a\b"])
    Examples.roaming_root "roaming"
  = Ok (Some (under Examples.roaming_root ["a"; "b"])) /\
  round_trip Examples.cache2_sync (under Examples.roaming_root ["a\b"])
    Examples.roaming_root "roaming"
  <> Ok (Some (under Examples.roaming_root ["a\b"])).
Proof. split; [reflexivity | discriminate]. Qed.

(** ** Wildcards *)

Example fnmatch_star_crosses_slash :
  fnmatch_posix "cache2/sub/data.db" "cache2/*" = true.
Proof. reflexivity. Qed.

Example fnmatch_is_anchored :
  fnmatch_posix "Profiles/abc/cache2/data.db" "cache2/*" = false.
Proof. reflexivity. Qed.

Example fnmatch_sets :
  fnmatch_posix "key4.db" "key[0-9].d?" = true /\
  fnmatch_posix "keyx.db" "key[!0-9].db" = true /\
  fnmatch_posix "keyx.db" "key[0-9].db" = false /\
  fnmatch_posix "a[b" "a[b" = true.
Proof. repeat split; reflexivity. Qed.

(** ** Directory scan *)

Section Scan.

Variable fnmatch : string -> string -> bool.
Variable self : ZenS3Sync.

Lemma remove_keeps_head (a : string) (ds xs : list string) :
  a ∉ ds ->
  fold_left (fun l d => list_remove d l) ds (a :: xs)
  = a :: fold_left (fun l d => list_remove d l) ds xs.
Proof.
  revert xs. induction ds as [|d ds IH]; intros xs Hnot; [done |].
  apply not_elem_of_cons in Hnot as [Hne Hnot]. simpl.
  rewrite decide_False by done. by apply IH.
Qed.

(** Removing every skipped name with [dirs.remove] leaves the names
    that are not skipped, in their order. *)
Lemma pruned_dirs_filter (dirs : list string) :
  pruned_dirs fnmatch self dirs = filter (fun d => skips_dir fnmatch self d = false) dirs.
Proof.
  unfold pruned_dirs, dirs_to_skip. induction dirs as [|a dirs IH]; [done |].
  destruct (skips_dir fnmatch self a) eqn:Hskip.
  - rewrite filter_cons_True by done. rewrite filter_cons_False by (by rewrite Hskip).
    simpl. by rewrite decide_True.
  - rewrite filter_cons_False by (by rewrite Hskip). rewrite filter_cons_True by done.
    rewrite remove_keeps_head; [by rewrite IH |].
    intros [Hin _]%list_elem_of_filter. congruence.
Qed.

(** Induction on a tree, with the hypothesis for every sub-directory. *)
Lemma Tree_induction (P : Tree -> Prop) :
  (forall filenames dirs, Forall (fun ds => P ds.2) dirs -> P (Dir filenames dirs)) ->
  forall t, P t.
Proof.
  intros step. fix IH 1. intros [filenames dirs]. apply step.
  induction dirs as [|[d sub] dirs IHdirs]; constructor; [apply IH | exact IHdirs].
Qed.

Lemma child_under (base : Path) (pre : list string) (name : string) :
  child (under base pre) name = under base (pre ++ [name]).
Proof. unfold child, under. simpl. by rewrite app_assoc. Qed.

Lemma path_name_under (base : Path) (rel : list string) :
  rel <> [] -> path_name (under base rel) = List.last rel EmptyString.
Proof.
  intros Hne. unfold path_name, under. simpl.
  induction (parts base) as [|x l IH]; simpl; [done |].
  destruct (l ++ rel) eqn:E; [|done].
  apply app_eq_nil in E as [_ ?]. done.
Qed.

Lemma should_include_under (base : Path) (rel : list string) :
  rel <> [] ->
  should_include_file fnmatch self (under base rel) base = Ok (keeps fnmatch self rel).
Proof.
  intros Hne. unfold should_include_file, keeps, includeFile_ref, pattern_hits.
  rewrite relative_to_under, path_name_under by done. simpl.
  destruct (existsb _ (exclude_patterns self)); simpl; [done |].
  by destruct (existsb _ (include_patterns self)).
Qed.

Lemma scan_files_loop (base : Path) (path_type : string) (pre filenames : list string)
    (acc : list LocalFile) :
  for_each (fun filename files =>
              let file_path := child (under base pre) filename in
              keep ← should_include_file fnmatch self file_path base;
              Ok (if keep : bool then files ++ [(file_path, base, path_type)] else files))
           filenames acc
  = Ok (acc ++ map (entry base path_type)
                 (map (fun f => pre ++ [f])
                      (filter (fun f => keeps fnmatch self (pre ++ [f]) = true) filenames))).
Proof.
  revert acc. induction filenames as [|f filenames IH]; intros acc; simpl.
  - by rewrite app_nil_r.
  - rewrite child_under, should_include_under by (by destruct pre). simpl.
    rewrite IH. destruct (keeps fnmatch self (pre ++ [f])) eqn:Hk.
    + rewrite filter_cons_True by done. simpl. by rewrite <- app_assoc.
    + rewrite filter_cons_False by (by rewrite Hk). done.
Qed.

(** The walk never raises, and returns the reached files in order. *)
Lemma walk_reached (base : Path) (path_type : string) (t : Tree) :
  forall pre,
    walk fnmatch self base path_type (under base pre) t
    = Ok (map (entry base path_type) (reached fnmatch self pre t)).
Proof.
  induction t as [filenames dirs IH] using Tree_induction. intros pre. simpl.
  unfold scan_files. rewrite scan_files_loop. simpl.
  rewrite map_app. 
  match goal with |- context [mbind _ ?m] =>
    assert (m = Ok (map (entry base path_type)
                      (dirs ≫= fun ds =>
                         if skips_dir fnmatch self ds.1 then []
                         else reached fnmatch self (pre ++ [ds.1]) ds.2))) as ->
  end.
  { induction IH as [|[d sub] dirs Hsub _ IHdirs]; [done |].
    simpl. destruct (skips_dir fnmatch self d); [exact IHdirs |].
    rewrite child_under. simpl in Hsub. rewrite Hsub. simpl.
    rewrite IHdirs. simpl. by rewrite map_app. }
  done.
Qed.

Lemma tree_files_nonempty (t : Tree) (rel : list string) : rel ∈ tree_files t -> rel <> [].
Proof.
  destruct t as [filenames dirs]. simpl. rewrite elem_of_app.
  intros [H|H].
  - apply list_elem_of_fmap in H as (f & -> & _). done.
  - apply list_elem_of_bind in H as (ds & H & _).
    apply list_elem_of_fmap in H as (r & -> & _). done.
Qed.

(** What the walk reaches: the files of the tree that the file test
    keeps and that lie below no skipped directory. *)
Lemma reached_spec (t : Tree) :
  forall pre x,
    x ∈ reached fnmatch self pre t <->
    exists rel, x = pre ++ rel /\ rel ∈ tree_files t /\
                keeps fnmatch self (pre ++ rel) = true /\ unpruned fnmatch self rel.
Proof.
  induction t as [filenames dirs IH] using Tree_induction. intros pre x.
  simpl. rewrite elem_of_app, list_elem_of_fmap, list_elem_of_bind.
  setoid_rewrite list_elem_of_filter. split.
  - intros [(f & -> & Hk & Hf) | ([d sub] & Hx & Hin)].
    + exists [f]. repeat split; [|done|by constructor].
      apply elem_of_app. left. apply list_elem_of_fmap. eauto.
    + simpl in Hx. destruct (skips_dir fnmatch self d) eqn:Hskip.
      { by apply elem_of_nil in Hx. }
      rewrite Forall_forall in IH. apply (IH _ Hin) in Hx as (r & -> & Hr & Hk & Hun).
      exists (d :: r). rewrite <- app_assoc in *. repeat split; [|done|].
      * apply elem_of_app. right. apply list_elem_of_bind. exists (d, sub).
        split; [|done]. apply list_elem_of_fmap. eauto.
      * unfold unpruned. apply tree_files_nonempty in Hr.
        destruct r; [done |]. simpl. constructor; done.
  - intros (rel & -> & Hrel & Hk & Hun).
    apply elem_of_app in Hrel as [Hrel|Hrel].
    + apply list_elem_of_fmap in Hrel as (f & -> & Hf). left. eauto.
    + apply list_elem_of_bind in Hrel as ([d sub] & Hrel & Hin).
      apply list_elem_of_fmap in Hrel as (r & -> & Hr). simpl in *.
      right. exists (d, sub). split; [|done]. simpl.
      assert (r <> []) as Hne by (by eapply tree_files_nonempty).
      unfold unpruned in Hun. destruct r as [|y r]; [done |]. simpl in Hun.
      apply Forall_cons in Hun as [Hd Hun]. rewrite Hd.
      rewrite Forall_forall in IH. apply (IH _ Hin).
      exists (y :: r). rewrite <- app_assoc. repeat split; done.
Qed.

Lemma under_nil (base : Path) : under base [] = base.
Proof. destruct base. unfold under. simpl. by rewrite app_nil_r. Qed.

Lemma entry_inj (base : Path) (path_type : string) (rel rel' : list string) :
  entry base path_type rel = entry base path_type rel' -> rel = rel'.
Proof. unfold entry, under. intros [= H]. by apply app_inv_head in H. Qed.

Lemma scan_is_reached (d : FileSystem) (base : Path) (path_type : string) (t : Tree) :
  dir_tree d base = Some t ->
  _scan_directory fnmatch self d base path_type
  = Ok (map (entry base path_type) (reached fnmatch self [] t)).
Proof.
  intros Ht. unfold _scan_directory. rewrite Ht.
  rewrite <- (under_nil base) at 2. apply walk_reached.
Qed.

(** C1, as the code has it.  The scan of an existing root never raises.
    It returns a file of the tree exactly when the file test keeps it and
    no directory between the root and the file is skipped; and it returns
    nothing but files of the tree. *)
Theorem scan_keeps_unpruned_files (d : FileSystem) (base : Path) (path_type : string)
    (t : Tree) :
  dir_tree d base = Some t ->
  exists files,
    _scan_directory fnmatch self d base path_type = Ok files /\
    (forall rel, rel ∈ tree_files t ->
       (entry base path_type rel ∈ files <->
        should_include_file fnmatch self (under base rel) base = Ok true /\
        unpruned fnmatch self rel)) /\
    (forall file, file ∈ files ->
       exists rel, rel ∈ tree_files t /\ file = entry base path_type rel).
Proof.
  intros Ht. eexists. split; [by apply scan_is_reached |]. split.
  - intros rel Hrel.
    rewrite should_include_under by (by eapply tree_files_nonempty).
    rewrite list_elem_of_fmap. split.
    + intros (rel' & Heq & Hin). apply entry_inj in Heq as <-.
      apply reached_spec in Hin as (r & -> & _ & Hk & Hun). simpl in *.
      by rewrite Hk.
    + intros [[= Hk] Hun]. exists rel. split; [done |].
      apply reached_spec. exists rel. done.
  - intros file Hin. apply list_elem_of_fmap in Hin as (rel & -> & Hin).
    apply reached_spec in Hin as (r & -> & Hr & _). simpl. eauto.
Qed.

End Scan.

Lemma scan_keeps_unpruned_files_witness :
  dir_tree (Examples.disk (Some Examples.nested_cache) []) Examples.roaming_root
    = Some Examples.nested_cache /\
  exists files,
    _scan_directory fnmatch_posix Examples.cache2_sync
      (Examples.disk (Some Examples.nested_cache) []) Examples.roaming_root "roaming" = Ok files /\
    entry Examples.roaming_root "roaming" ["Profiles"; "abc"; "prefs.js"] ∈ files.
Proof.
  split; [reflexivity |].
  destruct (scan_keeps_unpruned_files fnmatch_posix Examples.cache2_sync
              (Examples.disk (Some Examples.nested_cache) []) Examples.roaming_root "roaming"
              Examples.nested_cache eq_refl) as (files & Hscan & Hiff & _).
  exists files. split; [exact Hscan |].
  apply Hiff.
  - apply list_elem_of_In. vm_compute. tauto.
  - split; [reflexivity |]. repeat constructor.
Defined.

(** C1 as stated fails: [cache2/*] makes the walk skip every directory
    named [cache2], while the file test matches the glob against the path
    from the root, so [Profiles/abc/cache2/data.db] is kept by the file
    test and never visited. *)
Lemma scan_prunes_a_kept_file :
  ["Profiles"; "abc"; "cache2"; "data.db"] ∈ tree_files Examples.nested_cache /\
  should_include_file fnmatch_posix Examples.cache2_sync Examples.data_db Examples.roaming_root
    = Ok true /\
  _scan_directory fnmatch_posix Examples.cache2_sync
    (Examples.disk (Some Examples.nested_cache) []) Examples.roaming_root "roaming"
    = Ok [entry Examples.roaming_root "roaming" ["Profiles"; "abc"; "prefs.js"]] /\
  (Examples.data_db, Examples.roaming_root, "roaming"%string)
    ∉ [entry Examples.roaming_root "roaming" ["Profiles"; "abc"; "prefs.js"]].
Proof.
  repeat split; try reflexivity.
  - apply list_elem_of_In. vm_compute. tauto.
  - intros H. apply list_elem_of_In in H. vm_compute in H.
    destruct H as [H|[]]. discriminate H.
Qed.

(** ** Push analysis *)

Section Push.

Variable self : ZenS3Sync.

Lemma map_result_Ok {A B} (f : A -> result B) (l : list A) (bs : list B) :
  map_result f l = Ok bs -> Forall2 (fun a b => f a = Ok b) l bs.
Proof.
  revert bs. induction l as [|a l IH]; intros bs; simpl.
  - intros [= <-]. constructor.
  - destruct (f a) as [b|e] eqn:Hb; simpl; [|done].
    destruct (map_result f l) as [bs'|e] eqn:Hbs; simpl; [|done].
    intros [= <-]. constructor; [done | by apply IH].
Qed.

Lemma map_result_elem {A B} (f : A -> result B) (l : list A) (bs : list B) (b : B) :
  map_result f l = Ok bs -> (b ∈ bs <-> exists a, a ∈ l /\ f a = Ok b).
Proof.
  intros H. apply map_result_Ok in H.
  induction H as [|a b' l bs Hab _ IH].
  - split; [by intros ?%elem_of_nil | by intros (? & ?%elem_of_nil & _)].
  - rewrite elem_of_cons, IH. split.
    + intros [->|(a' & Hin & Ha')]; [exists a | exists a']; rewrite elem_of_cons; eauto.
    + intros (a' & [->|Hin]%elem_of_cons & Ha'); [left; congruence | right; eauto].
Qed.

(** The deletions of push cleanup: the listed objects whose relative key
    belongs to no scanned file. *)
Lemma cleanup_deletions_spec (files : list LocalFile) (s3_objects : gmap string S3Info)
    (dels : list DeleteS3Item) :
  cleanup_deletions files s3_objects = Ok dels ->
  forall item,
    item ∈ dels <->
    exists key s3_info,
      item = (key, s3_key s3_info, s3_size s3_info) /\
      s3_objects !! key = Some s3_info /\
      ~ exists file, file ∈ files /\ relative_key_of file = Ok key.
Proof.
  unfold cleanup_deletions.
  destruct (map_result relative_key_of files) as [keys|e] eqn:Hkeys; simpl; [|done].
  intros [= <-] item. rewrite list_elem_of_omap. split.
  - intros ([key s3_info] & Hin & Hsome).
    apply elem_of_map_to_list in Hin.
    destruct (decide (key ∉ _)) as [Hnot|]; [|done].
    injection Hsome as <-. exists key, s3_info. repeat split; [done |].
    intros Hex. apply Hnot. apply elem_of_list_to_set.
    by apply (map_result_elem _ _ _ _ Hkeys).
  - intros (key & s3_info & -> & Hlook & Hnot).
    exists (key, s3_info). split; [by apply elem_of_map_to_list |].
    rewrite decide_True; [done |].
    rewrite elem_of_list_to_set. intros Hin. apply Hnot.
    by apply (map_result_elem _ _ _ _ Hkeys).
Qed.

(** C2, as the code has it.  With cleanup on, push queues for deletion
    exactly the listed objects whose relative key is the key of no file
    of the filtered local listing; with cleanup off it queues none.
    Whether a file behind such a key exists on disk is not looked at. *)
Theorem push_cleanup_compares_key_sets (d : FileSystem) (files : list LocalFile)
    (s3_objects : gmap string S3Info) (incremental cleanup : bool)
    (ups : list UploadItem) (skips : list SkipItem) (dels : list DeleteS3Item) :
  _analyze_upload_files self d files s3_objects incremental cleanup = Ok (ups, skips, dels) ->
  forall item,
    item ∈ dels <->
    cleanup = true /\
    exists key s3_info,
      item = (key, s3_key s3_info, s3_size s3_info) /\
      s3_objects !! key = Some s3_info /\
      ~ exists file, file ∈ files /\ relative_key_of file = Ok key.
Proof.
  unfold _analyze_upload_files.
  destruct (for_each _ files _) as [[ups' skips']|e]; simpl; [|done].
  destruct cleanup; simpl.
  - destruct (cleanup_deletions files s3_objects) as [dels'|e] eqn:Hdel; simpl; [|done].
    intros [= <- <- <-] item. rewrite (cleanup_deletions_spec _ _ _ Hdel).
    split; [intros H; split; [done | exact H] | intros [_ H]; exact H].
  - intros [= <- <- <-] item. split; [by intros ?%elem_of_nil | by intros [? _]].
Qed.

End Push.

Lemma push_cleanup_compares_key_sets_witness :
  _analyze_upload_files Examples.cache2_sync Examples.flat_disk
    [(Examples.prefs_js, Examples.roaming_root, "roaming")] Examples.listing_db true true
  = Ok ([(Examples.prefs_js, "zen-profiles/roaming/prefs.js", 100, "roaming")], [],
        [("roaming/cache2/data.db", "zen-profiles/roaming/cache2/data.db", 4096)]) /\
  (true = true /\
   exists key s3_info,
     ("roaming/cache2/data.db"%string, "zen-profiles/roaming/cache2/data.db"%string, 4096)
       = (key, s3_key s3_info, s3_size s3_info) /\
     Examples.listing_db !! key = Some s3_info /\
     ~ exists file, file ∈ [(Examples.prefs_js, Examples.roaming_root, "roaming"%string)] /\
                    relative_key_of file = Ok key).
Proof.
  assert (H : _analyze_upload_files Examples.cache2_sync Examples.flat_disk
                [(Examples.prefs_js, Examples.roaming_root, "roaming")] Examples.listing_db
                true true
              = Ok ([(Examples.prefs_js, "zen-profiles/roaming/prefs.js", 100, "roaming")], [],
                    [("roaming/cache2/data.db", "zen-profiles/roaming/cache2/data.db", 4096)])).
  { vm_compute. reflexivity. }
  split; [exact H |].
  apply (push_cleanup_compares_key_sets _ _ _ _ _ _ _ _ _ H).
  apply list_elem_of_singleton. reflexivity.
Defined.

(** C2 as stated fails: cache2/data.db exists on disk and is excluded by
    [cache2/*], so the scan does not list it, and push with cleanup queues
    its remote object for deletion and deletes it. *)
Lemma push_cleanup_deletes_filtered_counterpart :
  stat Examples.flat_disk Examples.cached_db = Some (4096, 1000) /\
  should_include_file fnmatch_posix Examples.cache2_sync Examples.cached_db Examples.roaming_root
    = Ok false /\
  (get_local_files fnmatch_posix Examples.cache2_sync
     (Examples.world Examples.flat_disk ∅)).1
    = Ok [(Examples.prefs_js, Examples.roaming_root, "roaming"%string)] /\
  _analyze_upload_files Examples.cache2_sync Examples.flat_disk
    [(Examples.prefs_js, Examples.roaming_root, "roaming")] Examples.listing_db true true
  = Ok ([(Examples.prefs_js, "zen-profiles/roaming/prefs.js", 100, "roaming")], [],
        [("roaming/cache2/data.db", "zen-profiles/roaming/cache2/data.db", 4096)]).
Proof. repeat split; vm_compute; reflexivity. Qed.

(** ** Loops that may raise *)

Section Loops.

Context {A S : Type}.
Implicit Types (body : A -> S -> result S) (l : list A).

Lemma for_each_total body l :
  (forall a s, a ∈ l -> exists s', body a s = Ok s') ->
  forall s, exists s', for_each body l s = Ok s'.
Proof.
  induction l as [|a l IH]; intros Hok s; simpl; [eauto |].
  destruct (Hok a s) as [s1 ->]; [by left |]. simpl.
  apply IH. intros a' s' Hin. apply Hok. by right.
Qed.

Lemma for_each_raises body l (e : exn) :
  (forall a s, a ∈ l -> (exists s', body a s = Ok s') \/ body a s = Raise e) ->
  (exists a, a ∈ l /\ forall s, body a s = Raise e) ->
  forall s, for_each body l s = Raise e.
Proof.
  induction l as [|a l IH]; intros Hstep (bad & Hin & Hbad) s.
  - by apply elem_of_nil in Hin.
  - simpl. destruct (Hstep a s) as [[s1 Hs1]| ->]; [by left | | done].
    rewrite Hs1. simpl. apply IH.
    + intros a' s' Hin'. apply Hstep. by right.
    + apply elem_of_cons in Hin as [->|Hin]; [|eauto].
      rewrite Hbad in Hs1. done.
Qed.

End Loops.

(** ** Bidirectional analysis *)

Section Bidirectional.

Variable self : ZenS3Sync.
Implicit Types (local_lookup : gmap string LocalEntry) (s3_objects : gmap string S3Info).

Lemma both_sides_elem local_lookup s3_objects k e r :
  (k, (e, r)) ∈ both_sides local_lookup s3_objects <->
  local_lookup !! k = Some e /\ s3_objects !! k = Some r.
Proof.
  unfold both_sides. rewrite elem_of_map_to_list. apply map_lookup_zip_Some.
Qed.

Lemma only_local_elem local_lookup s3_objects k e :
  (k, e) ∈ only_local local_lookup s3_objects <->
  local_lookup !! k = Some e /\ s3_objects !! k = None.
Proof.
  unfold only_local. rewrite elem_of_map_to_list. apply map_lookup_filter_Some.
Qed.

Lemma only_remote_elem local_lookup s3_objects k r :
  (k, r) ∈ only_remote local_lookup s3_objects <->
  s3_objects !! k = Some r /\ local_lookup !! k = None.
Proof.
  unfold only_remote. rewrite elem_of_map_to_list. apply map_lookup_filter_Some.
Qed.

Lemma both_step_spec (kv : string * (LocalEntry * S3Info)) (u : list UploadItem)
    (d : list DownloadItem) (s : list BidiSkipItem) :
  both_step kv (u, d, s) =
  match le_info kv.2.1 with
  | info_missing => Raise (KeyError "mtime")
  | info_file _ _ _ =>
      Ok (u ++ option_list (both_upload kv), d ++ option_list (both_download kv),
          s ++ option_list (both_skip kv))
  end.
Proof.
  destruct kv as [k [e r]]. unfold both_step, both_upload, both_download, both_skip. simpl.
  destruct (le_info e) as [|size mtime hash]; [done |].
  destruct (_files_are_different _ r); simpl.
  - destruct (decide (mtime > s3_mtime r)).
    + rewrite bool_decide_true by done. simpl. by rewrite !app_nil_r.
    + rewrite bool_decide_false by done. simpl. by rewrite !app_nil_r.
  - by rewrite !app_nil_r.
Qed.

Lemma local_step_spec (kv : string * LocalEntry) (u : list UploadItem)
    (d : list DownloadItem) (s : list BidiSkipItem) :
  local_step self kv (u, d, s) =
  match _get_s3_key self (le_path kv.2) (base_of self (le_path_type kv.2)) (le_path_type kv.2),
        le_info kv.2 with
  | Ok _, info_file _ _ _ => Ok (u ++ option_list (local_upload self kv), d, s)
  | Ok _, info_missing => Raise (KeyError "size")
  | Raise e, _ => Raise e
  end.
Proof.
  destruct kv as [k e]. unfold local_step, local_upload, base_of. simpl.
  destruct (_get_s3_key _ _ _ _) as [key|err]; simpl; [|done].
  by destruct (le_info e).
Qed.

Lemma remote_step_spec (kv : string * S3Info) (u : list UploadItem)
    (d : list DownloadItem) (s : list BidiSkipItem) :
  remote_step self kv (u, d, s) = Ok (u, d ++ option_list (remote_download self kv), s).
Proof.
  destruct kv as [k r]. unfold remote_step, remote_download. simpl.
  destruct (_get_download_path self k); simpl; [done | by rewrite app_nil_r].
Qed.

Lemma omap_cons_list {X Y} (f : X -> option Y) (x : X) (l : list X) :
  omap f (x :: l) = option_list (f x) ++ omap f l.
Proof. simpl. by destruct (f x). Qed.

Lemma both_loop (l : list (string * (LocalEntry * S3Info))) u d s u' d' s' :
  for_each both_step l (u, d, s) = Ok (u', d', s') ->
  u' = u ++ omap both_upload l /\ d' = d ++ omap both_download l /\
  s' = s ++ omap both_skip l.
Proof.
  revert u d s. induction l as [|kv l IH]; intros u d s.
  - simpl. intros [= <- <- <-]. by rewrite !app_nil_r.
  - rewrite !omap_cons_list. cbn [for_each].
    rewrite both_step_spec. destruct (le_info kv.2.1) eqn:Hinfo; [done |].
    cbn [rbind]. intros (-> & -> & ->)%IH. by rewrite <- !app_assoc.
Qed.

Lemma local_loop (l : list (string * LocalEntry)) u d s u' d' s' :
  for_each (local_step self) l (u, d, s) = Ok (u', d', s') ->
  u' = u ++ omap (local_upload self) l /\ d' = d /\ s' = s.
Proof.
  revert u. induction l as [|kv l IH]; intros u.
  - simpl. intros [= <- <- <-]. by rewrite !app_nil_r.
  - rewrite !omap_cons_list. cbn [for_each]. rewrite local_step_spec.
    destruct (_get_s3_key _ _ _ _) as [key|err]; [|done].
    destruct (le_info kv.2) eqn:Hinfo; [done |].
    cbn [rbind]. intros (-> & -> & ->)%IH. by rewrite <- !app_assoc.
Qed.

Lemma remote_loop (l : list (string * S3Info)) u d s :
  for_each (remote_step self) l (u, d, s) = Ok (u, d ++ omap (remote_download self) l, s).
Proof.
  revert d. induction l as [|kv l IH]; intros d.
  - simpl. by rewrite app_nil_r.
  - rewrite omap_cons_list. cbn [for_each]. rewrite remote_step_spec.
    cbn [rbind]. by rewrite IH, <- app_assoc.
Qed.

(** The three lists, when the analysis returns. *)
Lemma analysis_lists local_lookup s3_objects ups downs skips :
  _analyze_bidirectional_sync self local_lookup s3_objects = Ok (ups, downs, skips) ->
  ups = omap both_upload (both_sides local_lookup s3_objects) ++
        omap (local_upload self) (only_local local_lookup s3_objects) /\
  downs = omap both_download (both_sides local_lookup s3_objects) ++
          omap (remote_download self) (only_remote local_lookup s3_objects) /\
  skips = omap both_skip (both_sides local_lookup s3_objects).
Proof.
  unfold _analyze_bidirectional_sync.
  destruct (for_each both_step _ _) as [[[u1 d1] s1]|e] eqn:H1; simpl; [|done].
  apply both_loop in H1 as (-> & -> & ->).
  destruct (for_each (local_step self) _ _) as [[[u2 d2] s2]|e] eqn:H2; simpl; [|done].
  apply local_loop in H2 as (-> & -> & ->).
  rewrite remote_loop. intros [= <- <- <-]. done.
Qed.


Lemma both_download_Some k e r item :
  both_download (k, (e, r)) = Some item <->
  exists size mtime hash,
    le_info e = info_file size mtime hash /\ _files_are_different (le_info e) r = true /\
    mtime <= s3_mtime r /\ item = (le_path e, s3_key r, s3_size r, k).
Proof.
  unfold both_download. simpl. destruct (le_info e) as [|size mtime hash] eqn:Hinfo.
  { split; [done | by intros (? & ? & ? & ? & _)]. }
  destruct (_files_are_different _ r); simpl.
  - destruct (decide (mtime > s3_mtime r)).
    + rewrite bool_decide_true by done. split; [done |].
      intros (? & ? & ? & [= <- <- <-] & _ & ? & _). lia.
    + rewrite bool_decide_false by done. split.
      * intros [= <-]. exists size, mtime, hash. repeat split; done || lia.
      * by intros (? & ? & ? & [= <- <- <-] & _ & _ & ->).
  - split; [done | by intros (? & ? & ? & _ & ? & _)].
Qed.

Lemma both_skip_Some k e r item :
  both_skip (k, (e, r)) = Some item <->
  exists size mtime hash,
    le_info e = info_file size mtime hash /\ _files_are_different (le_info e) r = false /\
    item = (k, None, size).
Proof.
  unfold both_skip. simpl. destruct (le_info e) as [|size mtime hash] eqn:Hinfo.
  { split; [done | by intros (? & ? & ? & ? & _)]. }
  destruct (_files_are_different _ r); simpl.
  - split; [done | by intros (? & ? & ? & _ & ? & _)].
  - split.
    + intros [= <-]. by exists size, mtime, hash.
    + by intros (? & ? & ? & [= <- <- <-] & _ & ->).
Qed.


Lemma remote_download_key kv item :
  remote_download self kv = Some item -> item.2 = kv.1.
Proof.
  unfold remote_download. destruct (_get_download_path _ _); [|done]. by intros [= <-].
Qed.


End Bidirectional.

(** ** Vanished files *)

Section Vanished.

Variable self : ZenS3Sync.

Lemma get_file_info_missing (d : FileSystem) (p : Path) :
  _get_file_info d p = info_missing <-> stat d p = None.
Proof.
  unfold _get_file_info. destruct (stat d p) as [[size mtime]|]; split; done.
Qed.

Lemma rooted_keys (file : LocalFile) :
  rooted file ->
  (exists key, _get_s3_key self file.1.1 file.1.2 file.2 = Ok key) /\
  (exists key, relative_key_of file = Ok key).
Proof.
  destruct file as [[file_path base_path] path_type]. intros [rel Hrel]. simpl in *.
  unfold relative_key_of, _get_s3_key, _get_relative_s3_key. rewrite Hrel. simpl.
  destruct (is_role path_type); eauto.
Qed.

Lemma upload_step_exists (d : FileSystem) s3_objects incremental (file : LocalFile) acc :
  rooted file -> stat d file.1.1 <> None ->
  exists acc', upload_step self d s3_objects incremental file acc = Ok acc'.
Proof.
  intros Hroot Hstat. destruct (rooted_keys file Hroot) as [[key Hkey] [rkey Hrkey]].
  destruct file as [[file_path base_path] path_type], acc as [ups skips]. simpl in *.
  unfold relative_key_of in Hrkey. rewrite Hkey, Hrkey. simpl.
  unfold _get_file_info. destruct (stat d file_path) as [[size mtime]|]; [|done].
  destruct (if incremental then s3_objects !! rkey else None) as [s3_info|]; [|simpl; eauto].
  destruct (negb _); simpl; eauto.
Qed.

Lemma upload_step_missing (d : FileSystem) s3_objects incremental (file : LocalFile) acc :
  rooted file -> stat d file.1.1 = None ->
  upload_step self d s3_objects incremental file acc = Raise (KeyError "size").
Proof.
  intros Hroot Hstat. destruct (rooted_keys file Hroot) as [[key Hkey] [rkey Hrkey]].
  destruct file as [[file_path base_path] path_type], acc as [ups skips]. simpl in *.
  unfold relative_key_of in Hrkey. rewrite Hkey, Hrkey. simpl.
  unfold _get_file_info. rewrite Hstat.
  by destruct (if incremental then s3_objects !! rkey else None).
Qed.

Lemma map_result_total {A B} (f : A -> result B) (l : list A) :
  Forall (fun a => exists b, f a = Ok b) l -> exists bs, map_result f l = Ok bs.
Proof.
  induction 1 as [|a l [b Hb] _ [bs IH]]; simpl; [eauto |].
  rewrite Hb. simpl. rewrite IH. simpl. eauto.
Qed.

Lemma entry_rooted_key (e : LocalEntry) :
  entry_rooted self e ->
  exists key, _get_s3_key self (le_path e) (base_of self (le_path_type e)) (le_path_type e)
              = Ok key.
Proof.
  intros [rel Hrel]. unfold _get_s3_key. rewrite Hrel. simpl.
  destruct (is_role _); eauto.
Qed.

Lemma push_analysis_total (d : FileSystem) (files : list LocalFile)
    (s3_objects : gmap string S3Info) (incremental cleanup : bool) :
  Forall rooted files ->
  (forall file, file ∈ files -> stat d file.1.1 <> None) ->
  exists lists, _analyze_upload_files self d files s3_objects incremental cleanup = Ok lists.
Proof.
  intros Hfiles Hall. rewrite Forall_forall in Hfiles. unfold _analyze_upload_files.
  destruct (for_each_total (upload_step self d s3_objects incremental) files)
    with (s := ([], []) : list UploadItem * list SkipItem) as [[ups skips] ->].
  { intros file acc Hin. apply upload_step_exists; auto. }
  simpl. destruct cleanup; simpl; [|eauto].
  unfold cleanup_deletions.
  destruct (map_result_total relative_key_of files) as [keys ->]; simpl; [|eauto].
  apply Forall_forall. intros file Hin. by apply rooted_keys, Hfiles.
Qed.

(** C10.  A file without [stat] yields the record [{'exists': False}].
    For a listing whose files lie below their roots: push analysis
    returns when every file still exists, and raises [KeyError: 'size']
    as soon as one has vanished.  Bidirectional analysis raises
    [KeyError: 'mtime'] when a key on both sides has a vanished file;
    with entries below their roots it raises [KeyError: 'size'] when
    only keys without remote object have one, and returns when every
    record exists. *)
Theorem analyzers_need_existing_files (d : FileSystem) (files : list LocalFile)
    (s3_objects : gmap string S3Info) (incremental cleanup : bool)
    (local_lookup : gmap string LocalEntry) :
  Forall rooted files ->
  map_Forall (fun _ e => entry_rooted self e) local_lookup ->
  (forall p, stat d p = None -> _get_file_info d p = info_missing) /\
  ((forall file, file ∈ files -> stat d file.1.1 <> None) ->
   exists lists, _analyze_upload_files self d files s3_objects incremental cleanup = Ok lists) /\
  ((exists file, file ∈ files /\ stat d file.1.1 = None) ->
   _analyze_upload_files self d files s3_objects incremental cleanup
   = Raise (KeyError "size")) /\
  ((exists k e r, local_lookup !! k = Some e /\ s3_objects !! k = Some r /\
                  le_info e = info_missing) ->
   _analyze_bidirectional_sync self local_lookup s3_objects = Raise (KeyError "mtime")) /\
  ((forall k e, local_lookup !! k = Some e -> is_Some (s3_objects !! k) ->
                le_info e <> info_missing) ->
   (exists k e, local_lookup !! k = Some e /\ s3_objects !! k = None /\
                le_info e = info_missing) ->
   _analyze_bidirectional_sync self local_lookup s3_objects = Raise (KeyError "size")) /\
  ((forall k e, local_lookup !! k = Some e -> le_info e <> info_missing) ->
   exists lists, _analyze_bidirectional_sync self local_lookup s3_objects = Ok lists).
Proof.
  intros Hfiles Hentries.
  rewrite Forall_forall in Hfiles.
  assert (Hboth_total :
    (forall k e, local_lookup !! k = Some e -> is_Some (s3_objects !! k) ->
                 le_info e <> info_missing) ->
    forall acc, exists acc',
      for_each both_step (both_sides local_lookup s3_objects) acc = Ok acc').
  { intros Hex. apply for_each_total.
    intros [k [e r]] [[u dl] s] [He Hr]%both_sides_elem.
    rewrite both_step_spec. simpl.
    destruct (le_info e) eqn:Hinfo; [|eauto].
    exfalso. by apply (Hex k e He (mk_is_Some _ _ Hr)). }
  split; [|split; [|split; [|split; [|split]]]].
  - intros p. apply get_file_info_missing.
  - intros Hall. apply push_analysis_total; [by apply Forall_forall | done].
  - intros Hbad. unfold _analyze_upload_files.
    rewrite (for_each_raises (upload_step self d s3_objects incremental) files
               (KeyError "size")); [done | |].
    + intros file acc Hin. destruct (stat d file.1.1) eqn:Hstat.
      * left. apply upload_step_exists; [auto | congruence].
      * right. apply upload_step_missing; auto.
    + destruct Hbad as (file & Hin & Hstat). exists file. split; [done |].
      intros acc. apply upload_step_missing; auto.
  - intros (k & e & r & He & Hr & Hinfo). unfold _analyze_bidirectional_sync.
    rewrite (for_each_raises both_step _ (KeyError "mtime")); [done | |].
    + intros kv [[u dl] s] _. rewrite both_step_spec.
      destruct (le_info kv.2.1); eauto.
    + exists (k, (e, r)). split; [by apply both_sides_elem |].
      intros [[u dl] s]. rewrite both_step_spec. simpl. by rewrite Hinfo.
  - intros Hex (k & e & Hk & Hnone & Hinfo). unfold _analyze_bidirectional_sync.
    destruct (Hboth_total Hex ([], [], [])) as [acc ->]. simpl.
    rewrite (for_each_raises (local_step self) _ (KeyError "size")); [done | |].
    + intros [k' e'] [[u dl] s] [He' _]%only_local_elem.
      rewrite local_step_spec. simpl.
      destruct (entry_rooted_key e' (Hentries _ _ He')) as [key ->].
      destruct (le_info e'); eauto.
    + exists (k, e). split; [by apply only_local_elem |].
      intros [[u dl] s]. rewrite local_step_spec. simpl.
      destruct (entry_rooted_key e (Hentries _ _ Hk)) as [key ->]. by rewrite Hinfo.
  - intros Hex. unfold _analyze_bidirectional_sync.
    destruct (Hboth_total (fun k e He _ => Hex k e He) ([], [], [])) as [acc ->]. simpl.
    destruct (for_each_total (local_step self) (only_local local_lookup s3_objects))
      with (s := acc) as [[[u dl] s] ->].
    { intros [k e] [[u dl] s] [He _]%only_local_elem.
      rewrite local_step_spec. simpl.
      destruct (entry_rooted_key e (Hentries _ _ He)) as [key ->].
      destruct (le_info e) eqn:Hinfo; [|eauto].
      exfalso. by apply (Hex k e He). }
    simpl. rewrite remote_loop. eauto.
Qed.

End Vanished.


(** The exception of the analysis leaves push and bidirectional mode
    uncaught; nothing is transferred. *)
Example vanished_file_aborts_the_run :
  upload_to_s3 fnmatch_posix Examples.plain_sync false true false (Examples.vanished_world ∅)
    = (Raise (KeyError "size"), Examples.vanished_world ∅) /\
  sync_bidirectional fnmatch_posix Examples.plain_sync false false (Examples.vanished_world ∅)
    = (Raise (KeyError "size"), Examples.vanished_world ∅) /\
  sync_bidirectional fnmatch_posix Examples.plain_sync false false
    (Examples.vanished_world Examples.stored_prefs)
    = (Raise (KeyError "mtime"), Examples.vanished_world Examples.stored_prefs).
Proof. repeat split; reflexivity. Qed.

Lemma analyzers_need_existing_files_witness :
  Forall rooted [(Examples.prefs_js, Examples.roaming_root, "roaming"%string)] /\
  map_Forall (fun _ e => entry_rooted Examples.cache2_sync e) (∅ : gmap string LocalEntry) /\
  _analyze_upload_files Examples.cache2_sync Examples.empty_disk
    [(Examples.prefs_js, Examples.roaming_root, "roaming"%string)] ∅ true false
  = Raise (KeyError "size").
Proof.
  assert (Hfiles : Forall rooted [(Examples.prefs_js, Examples.roaming_root, "roaming"%string)]).
  { repeat constructor. eexists. reflexivity. }
  assert (Hlookup : map_Forall (fun _ e => entry_rooted Examples.cache2_sync e)
                      (∅ : gmap string LocalEntry)) by apply map_Forall_empty.
  split; [exact Hfiles |]. split; [exact Hlookup |].
  destruct (analyzers_need_existing_files Examples.cache2_sync Examples.empty_disk _ ∅ true false
              _ Hfiles Hlookup) as (_ & _ & Hraise & _).
  apply Hraise. eexists. split; [apply list_elem_of_singleton; reflexivity | reflexivity].
Defined.

(** ** Bidirectional mode deletes nothing *)

Section NoDeletion.

Lemma nothing_deleted_refl (w : World) : nothing_deleted w w.
Proof. split; [done |]. exists []. by rewrite app_nil_r. Qed.

Lemma nothing_deleted_trans (w1 w2 w3 : World) :
  nothing_deleted w1 w2 -> nothing_deleted w2 w3 -> nothing_deleted w1 w3.
Proof.
  intros [Hb1 (a1 & He1 & Ha1)] [Hb2 (a2 & He2 & Ha2)]. split; [auto |].
  exists (a1 ++ a2). rewrite He2, He1, <- app_assoc. split; [done |].
  by apply Forall_app.
Qed.

Lemma nothing_deleted_log (r : log_record) (w : World) : nothing_deleted w (add_log r w).
Proof. split; [done |]. exists []. simpl. by rewrite app_nil_r. Qed.

Lemma nothing_deleted_effect (e : local_effect) (w : World) :
  is_deletion e = false -> nothing_deleted w (add_effect e w).
Proof. intros He. split; [done |]. exists [e]. split; [done | by constructor]. Qed.

Lemma nothing_deleted_insert (key : string) (obj : S3Object) (w : World) :
  nothing_deleted w (set_bucket (<[key := obj]> (bucket w)) w).
Proof.
  split.
  - intros k Hk. simpl. destruct (decide (key = k)) as [->|Hne].
    + rewrite lookup_insert_eq. eauto.
    + by rewrite lookup_insert_ne.
  - exists []. simpl. by rewrite app_nil_r.
Qed.

Lemma nothing_deleted_flag (b : bool) (w : World) :
  nothing_deleted w (set_disable_metadata b w).
Proof. split; [done |]. exists []. simpl. by rewrite app_nil_r. Qed.

Context {A B : Type}.

Lemma deletes_nothing_ret (a : A) : deletes_nothing (mret a : M A).
Proof. intros w. apply nothing_deleted_refl. Qed.

Lemma deletes_nothing_lift (r : result A) : deletes_nothing (lift r).
Proof. intros w. apply nothing_deleted_refl. Qed.

Lemma deletes_nothing_raise (e : exn) : deletes_nothing (raise e : M A).
Proof. intros w. apply nothing_deleted_refl. Qed.

Lemma deletes_nothing_bind (m : M A) (k : A -> M B) :
  deletes_nothing m -> (forall a, deletes_nothing (k a)) -> deletes_nothing (m ≫= k).
Proof.
  intros Hm Hk w. unfold mbind, M_bind, m_bind.
  specialize (Hm w). destruct (m w) as [[a|e] w']; simpl in *; [|done].
  eapply nothing_deleted_trans; [exact Hm | apply Hk].
Qed.

Lemma deletes_nothing_try (m : M A) (h : exn -> M A) :
  deletes_nothing m -> (forall e, deletes_nothing (h e)) -> deletes_nothing (try_except m h).
Proof.
  intros Hm Hh w. unfold try_except.
  specialize (Hm w). destruct (m w) as [[a|e] w']; simpl in *; [done |].
  eapply nothing_deleted_trans; [exact Hm | apply Hh].
Qed.

End NoDeletion.

Lemma deletes_nothing_ask : deletes_nothing ask.
Proof. intros w. apply nothing_deleted_refl. Qed.

Lemma deletes_nothing_modify (f : World -> World) :
  (forall w, nothing_deleted w (f w)) -> deletes_nothing (modify f).
Proof. intros Hf w. apply Hf. Qed.

Create HintDb frame.

#[local] Hint Resolve deletes_nothing_ret deletes_nothing_lift deletes_nothing_raise
  deletes_nothing_ask nothing_deleted_log nothing_deleted_flag nothing_deleted_refl
  nothing_deleted_insert : frame.

(** One step through a computation: a bind, a handler, a write, or a case
    distinction on what the code tests. *)
Ltac frame_step :=
  lazymatch goal with
  | |- deletes_nothing (match ?x with _ => _ end) => destruct x
  | |- deletes_nothing (_ ≫= _) => apply deletes_nothing_bind; [|intros ?]
  | |- deletes_nothing (try_except _ _) => apply deletes_nothing_try; [|intros ?]
  | |- deletes_nothing (modify _) => apply deletes_nothing_modify; intros ?
  | |- nothing_deleted _ (add_effect _ _) => apply nothing_deleted_effect; reflexivity
  | |- _ => solve [eauto with frame]
  end.

Ltac frame := repeat frame_step.

Section NoDeletionModes.

Variable fnmatch : string -> string -> bool.
Variable self : ZenS3Sync.

Lemma get_local_files_deletes_nothing : deletes_nothing (get_local_files fnmatch self).
Proof. unfold get_local_files. frame. Qed.

Lemma list_s3_objects_deletes_nothing : deletes_nothing (_list_s3_objects self).
Proof.
  intros w. unfold _list_s3_objects. destruct (s3_fault w ListObjects); simpl; eauto with frame.
Qed.

Lemma open_file_deletes_nothing (p : Path) : deletes_nothing (open_file p).
Proof. unfold open_file. frame. Qed.

Lemma put_object_deletes_nothing key p metadata : deletes_nothing (put_object key p metadata).
Proof.
  intros w. unfold put_object. destruct (s3_fault w _); simpl; eauto with frame.
Qed.

Hint Resolve get_local_files_deletes_nothing list_s3_objects_deletes_nothing
  open_file_deletes_nothing put_object_deletes_nothing : frame.

Lemma upload_file_deletes_nothing p key path_type :
  deletes_nothing (_upload_file p key path_type).
Proof. unfold _upload_file. frame. Qed.

Lemma restore_mtime_deletes_nothing key p : deletes_nothing (restore_mtime key p).
Proof. unfold restore_mtime. frame. Qed.

Hint Resolve restore_mtime_deletes_nothing : frame.

Lemma download_file_deletes_nothing key p : deletes_nothing (_download_file key p).
Proof. unfold _download_file. frame. Qed.

Lemma process_loop_deletes_nothing {X} action dry_run (processor_func : X -> M unit)
    (files : list X) :
  (forall x, deletes_nothing (processor_func x)) ->
  forall n, deletes_nothing (process_loop action dry_run processor_func files n).
Proof.
  intros Hp. induction files as [|x files IH]; intros n; simpl; [frame |].
  destruct dry_run; [apply IH |].
  intros w. specialize (Hp x w). destruct (processor_func x w) as [[[]|e] w']; simpl in *.
  - eapply nothing_deleted_trans; [exact Hp | apply IH].
  - eapply nothing_deleted_trans; [exact Hp |].
    eapply nothing_deleted_trans; [apply nothing_deleted_log | apply IH].
Qed.

Lemma process_files_deletes_nothing {X} (files : list X) action dry_run
    (processor_func : X -> M unit) :
  (forall x, deletes_nothing (processor_func x)) ->
  deletes_nothing (_process_files files action dry_run processor_func).
Proof.
  intros Hp. unfold _process_files. destruct files; [frame |].
  apply deletes_nothing_bind; [by apply process_loop_deletes_nothing | intros ?; frame].
Qed.

(** C8.  Bidirectional mode with [cleanup] on is bidirectional mode with
    [cleanup] off: same outcome, same world.  And whatever the flag, the
    run deletes nothing: every object of the bucket is still there
    afterwards, and no local file or directory is removed. *)
Theorem bidirectional_cleanup_is_inert (dry_run : bool) (w : World) :
  sync_bidirectional fnmatch self dry_run true w
  = sync_bidirectional fnmatch self dry_run false w /\
  forall cleanup, nothing_deleted w (sync_bidirectional fnmatch self dry_run cleanup w).2.
Proof.
  split; [reflexivity |]. intros cleanup. revert w.
  change (deletes_nothing (sync_bidirectional fnmatch self dry_run cleanup)).
  assert (Hup : forall files, deletes_nothing
            (_process_files files "uploading" dry_run _upload_file_wrapper)).
  { intros files. apply process_files_deletes_nothing. intros [[[p key] size] ty].
    apply upload_file_deletes_nothing. }
  assert (Hdown : forall files, deletes_nothing
            (_process_files files "downloading" dry_run _download_file_wrapper)).
  { intros files. apply process_files_deletes_nothing. intros [[[p key] size] rk].
    apply download_file_deletes_nothing. }
  unfold sync_bidirectional. frame.
Qed.

End NoDeletionModes.

(** ** Empty listings *)

Section EmptyListings.

Variable fnmatch : string -> string -> bool.
Variable self : ZenS3Sync.

Lemma only_logged_refl (w : World) : only_logged w w.
Proof. exists []. rewrite app_nil_r. by destruct w. Qed.

Lemma only_logged_add (r : log_record) (w w' : World) :
  only_logged w w' -> only_logged w (add_log r w').
Proof.
  intros [added ->]. exists (added ++ [r]). unfold add_log. simpl. by rewrite app_assoc.
Qed.

Lemma get_local_files_only_logs (w : World) :
  only_logged w (get_local_files fnmatch self w).2.
Proof.
  unfold get_local_files, mbind, M_bind, m_bind, ask, lift, modify, mret, M_ret, m_ret.
  destruct (dir_tree (fs w) (zen_roaming_path self)); simpl.
  - destruct (_scan_directory _ _ _ (zen_roaming_path self) _); simpl;
      [|apply only_logged_refl].
    destruct (dir_tree (fs w) (zen_local_path self)); simpl; [|apply only_logged_refl].
    destruct (sync_cache_data self); simpl; [|apply only_logged_refl].
    destruct (_scan_directory _ _ _ (zen_local_path self) _); simpl; apply only_logged_refl.
  - apply only_logged_add, only_logged_refl.
Qed.

Lemma list_s3_objects_only_logs (w : World) :
  only_logged w (_list_s3_objects self w).2.
Proof.
  unfold _list_s3_objects. destruct (s3_fault w ListObjects); simpl.
  - apply only_logged_add, only_logged_refl.
  - apply only_logged_refl.
Qed.

(** C3, as the code has it.  A push whose filtered local listing is
    empty, and a pull whose remote listing is empty, end at once: the
    call returns [False], its last log record is a warning, and apart
    from log records the world is as before. *)
Theorem empty_listing_returns_false (dry_run incremental cleanup : bool) (w : World) :
  ((get_local_files fnmatch self w).1 = Ok [] ->
   exists w',
     upload_to_s3 fnmatch self dry_run incremental cleanup w
     = (Ok false, add_log NoFilesFoundToUpload w') /\
     only_logged w w' /\ levelname NoFilesFoundToUpload = WARNING) /\
  ((_list_s3_objects self w).1 = Ok ∅ ->
   exists w',
     download_from_s3 fnmatch self dry_run incremental cleanup w
     = (Ok false, add_log (NoObjectsFound (prefix self)) w') /\
     only_logged w w' /\ levelname (NoObjectsFound (prefix self)) = WARNING).
Proof.
  split.
  - intros Hfiles. exists (get_local_files fnmatch self w).2.
    split; [|split; [apply get_local_files_only_logs | done]].
    unfold upload_to_s3, mbind, M_bind, m_bind.
    destruct (get_local_files fnmatch self w) as [r w']. simpl in *. by rewrite Hfiles.
  - intros Hlist. exists (_list_s3_objects self w).2.
    split; [|split; [apply list_s3_objects_only_logs | done]].
    unfold download_from_s3, try_except, mbind, M_bind, m_bind.
    destruct (_list_s3_objects self w) as [r w']. simpl in *. rewrite Hlist.
    by rewrite bool_decide_true.
Qed.

End EmptyListings.

Lemma empty_listing_returns_false_witness :
  (get_local_files fnmatch_posix Examples.cache2_sync Examples.bare_world).1 = Ok [] /\
  exists w',
    upload_to_s3 fnmatch_posix Examples.cache2_sync false true false Examples.bare_world
    = (Ok false, add_log NoFilesFoundToUpload w').
Proof.
  assert (H : (get_local_files fnmatch_posix Examples.cache2_sync Examples.bare_world).1 = Ok [])
    by reflexivity.
  split; [exact H |].
  destruct (proj1 (empty_listing_returns_false fnmatch_posix Examples.cache2_sync false true false
                     Examples.bare_world) H) as (w' & Hrun & _).
  exists w'. exact Hrun.
Defined.

(** C3 as stated fails: with nothing to push, and with nothing to pull,
    the mode-level call returns [False], the outcome the command line
    turns into exit status 1. *)
Lemma empty_listing_is_reported_as_failure :
  (get_local_files fnmatch_posix Examples.cache2_sync Examples.bare_world).1 = Ok [] /\
  (upload_to_s3 fnmatch_posix Examples.cache2_sync false true false Examples.bare_world).1
    = Ok false /\
  (_list_s3_objects Examples.cache2_sync Examples.bare_world).1 = Ok ∅ /\
  (download_from_s3 fnmatch_posix Examples.cache2_sync false true false Examples.bare_world).1
    = Ok false /\
  exit_status false = 1.
Proof. repeat split; vm_compute; reflexivity. Qed.

(** ** Push twice *)

Section Listing.

Variable self : ZenS3Sync.

Lemma startswith_app (p s : string) : Str.startswith p (p +:+ s) = true.
Proof. induction p as [|c p IH]; simpl; [done |]. by rewrite decide_True. Qed.

Lemma startswith_drop (p s : string) :
  Str.startswith p s = true -> p +:+ Str.drop (String.length p) s = s.
Proof.
  revert s. induction p as [|c p IH]; intros s; [done |].
  destruct s as [|c' s]; [done |]. cbn.
  destruct (decide (c = c')) as [->|]; [|done]. intros H.
  change (String c' (p +:+ Str.drop (String.length p) s) = String c' s).
  f_equal. by apply IH.
Qed.

Lemma drop_app (p s : string) : Str.drop (String.length p) (p +:+ s) = s.
Proof. by apply drop_app_length. Qed.

(** The listing holds, under each relative key, the object stored under
    the prefixed key. *)
Lemma list_s3_objects_lookup (w : World) :
  s3_fault w ListObjects = None ->
  exists s3_objects,
    _list_s3_objects self w = (Ok s3_objects, w) /\
    forall rk, s3_objects !! rk
               = listed_info w (prefix self +:+ rk) <$> bucket w !! (prefix self +:+ rk).
Proof.
  intros Hlist. unfold _list_s3_objects. rewrite Hlist. eexists. split; [reflexivity |].
  apply (map_fold_weak_ind
           (fun (r : gmap string S3Info) (m : gmap string S3Object) =>
              forall rk, r !! rk
                         = listed_info w (prefix self +:+ rk) <$> m !! (prefix self +:+ rk))).
  - intros rk. by rewrite !lookup_empty.
  - intros key obj m r Hfresh IH rk.
    destruct (Str.startswith (prefix self) key) eqn:Hpre.
    + apply startswith_drop in Hpre.
      destruct (decide (Str.drop (String.length (prefix self)) key = rk)) as [<-|Hne].
      * rewrite Hpre, !lookup_insert_eq. done.
      * rewrite !lookup_insert_ne; [apply IH | | done].
        intros Heq. apply Hne. rewrite Heq. apply drop_app.
    + rewrite lookup_insert_ne; [apply IH |].
      intros ->. by rewrite startswith_app in Hpre.
Qed.

End Listing.

Section PushAnalysis.

Variable self : ZenS3Sync.
Implicit Types (d : FileSystem) (s3_objects : gmap string S3Info) (file : LocalFile).

Lemma get_s3_key_relative (file_path base_path : Path) (path_type key : string) :
  _get_s3_key self file_path base_path path_type = Ok key <->
  exists rk, _get_relative_s3_key file_path base_path path_type = Ok rk /\
             key = Str.replace Str.backslash Str.slash (prefix self) +:+ rk.
Proof.
  unfold _get_s3_key, _get_relative_s3_key.
  destruct (relative_to file_path base_path) as [rel|e]; simpl.
  - destruct (is_role path_type); rewrite replace_app; split.
    + intros [= <-]. eauto.
    + by intros (rk & [= <-] & ->).
    + intros [= <-]. eauto.
    + by intros (rk & [= <-] & ->).
  - split; [done | by intros (rk & ? & _)].
Qed.

(** One turn of the incremental push loop. *)
Lemma upload_step_incremental d s3_objects file ups skips acc :
  upload_step self d s3_objects true file (ups, skips) = Ok acc ->
  rooted file /\ stat d file.1.1 <> None /\
  acc = (ups ++ option_list (upload_of self d s3_objects file),
         skips ++ option_list (skip_of self d s3_objects file)).
Proof.
  destruct file as [[file_path base_path] path_type].
  unfold upload_step, upload_of, skip_of, up_to_date, relative_key_of, rooted. simpl.
  destruct (_get_s3_key self file_path base_path path_type) as [key|e] eqn:Hkey; [|done].
  apply get_s3_key_relative in Hkey as (rk & Hrk & ->). rewrite Hrk. simpl.
  assert (exists rel, relative_to file_path base_path = Ok rel) as Hroot.
  { unfold _get_relative_s3_key in Hrk.
    destruct (relative_to file_path base_path); [eauto | done]. }
  unfold _get_file_info.
  destruct (stat d file_path) as [[size mtime]|] eqn:Hstat.
  - destruct (s3_objects !! rk) as [s3_info|].
    + destruct (_files_are_different _ s3_info); simpl; intros [= <-];
        rewrite ?app_nil_r; done.
    + simpl. intros [= <-]. by rewrite ?app_nil_r.
  - by destruct (s3_objects !! rk).
Qed.

Lemma upload_loop_incremental d s3_objects (files : list LocalFile) ups skips ups' skips' :
  for_each (upload_step self d s3_objects true) files (ups, skips) = Ok (ups', skips') ->
  Forall rooted files /\ Forall (fun file => stat d file.1.1 <> None) files /\
  ups' = ups ++ omap (upload_of self d s3_objects) files /\
  skips' = skips ++ omap (skip_of self d s3_objects) files.
Proof.
  revert ups skips. induction files as [|file files IH]; intros ups skips.
  - simpl. intros [= <- <-]. by rewrite !app_nil_r.
  - rewrite !omap_cons_list. cbn [for_each].
    destruct (upload_step self d s3_objects true file (ups, skips)) as [acc|e] eqn:Hstep;
      [|done].
    apply upload_step_incremental in Hstep as (Hroot & Hstat & ->). cbn [rbind].
    intros (Hroots & Hstats & -> & ->)%IH. rewrite <- !app_assoc.
    repeat split; try done; by constructor.
Qed.

(** The lists of an incremental push without cleanup. *)
Lemma incremental_push_lists d s3_objects (files : list LocalFile) ups skips dels :
  _analyze_upload_files self d files s3_objects true false = Ok (ups, skips, dels) ->
  Forall rooted files /\ Forall (fun file => stat d file.1.1 <> None) files /\
  ups = omap (upload_of self d s3_objects) files /\
  skips = omap (skip_of self d s3_objects) files /\ dels = [].
Proof.
  unfold _analyze_upload_files.
  destruct (for_each _ files _) as [[ups' skips']|e] eqn:Hloop; simpl; [|done].
  apply upload_loop_incremental in Hloop as (? & ? & -> & ->).
  intros [= <- <- <-]. done.
Qed.

(** When every file is up to date, all of them are skipped. *)
Lemma all_up_to_date_all_skipped d s3_objects (files : list LocalFile) :
  Forall rooted files ->
  (forall file, file ∈ files ->
     stat d file.1.1 <> None /\ up_to_date d s3_objects file = true) ->
  exists skips,
    _analyze_upload_files self d files s3_objects true false = Ok ([], skips, []) /\
    length skips = length files.
Proof.
  intros Hroot Hall.
  destruct (push_analysis_total self d files s3_objects true false Hroot)
    as [[[ups skips] dels] Hrun]; [intros file Hin; by apply Hall |].
  pose proof (incremental_push_lists _ _ _ _ _ _ Hrun) as (_ & _ & -> & -> & ->).
  rewrite Hrun. clear Hrun.
  assert (omap (upload_of self d s3_objects) files = [] /\
          length (omap (skip_of self d s3_objects) files) = length files) as [-> Hlen].
  { rewrite Forall_forall in Hroot.
    induction files as [|file files IH]; [done |].
    rewrite !omap_cons_list.
    destruct (Hall file) as [Hstat Hup]; [by left |].
    destruct IH as [-> Hlen].
    { intros f Hin. apply Hroot. by right. }
    { intros f Hin. apply Hall. by right. }
    unfold upload_of, skip_of. rewrite Hup.
    destruct (rooted_keys self file) as [[key ->] _]; [apply Hroot; by left |].
    destruct (stat d file.1.1) as [[size mtime]|]; [|done].
    simpl. split; [done | by f_equal]. }
  eauto.
Qed.

End PushAnalysis.

(** Read the outcome and the world off a finished computation. *)
Ltac outcome :=
  let H := fresh in intros H; inversion H; subst; clear H; simpl.

Section PushExecution.

Lemma upload_file_outcome (file_path : Path) (key path_type : string) (w w' : World)
    (r : result unit) :
  _upload_file file_path key path_type w = (r, w') ->
  fs w' = fs w /\ s3_fault w' = s3_fault w /\
  match r with
  | Ok _ => exists obj, bucket w' = <[key := obj]> (bucket w) /\ mirrors (fs w) file_path obj
  | Raise _ => bucket w' = bucket w
  end.
Proof.
  unfold _upload_file, try_except, open_file, put_object, mirrors,
    mbind, M_bind, m_bind, ask, raise, modify, mret, M_ret, m_ret.
  destruct (disable_metadata w) eqn:Hflag; simpl.
  - destruct (stat (fs w) file_path) as [[size mtime]|] eqn:Hstat; simpl.
    + destruct (s3_fault w (PutObject key false)) as [msg|]; simpl; outcome; [done |].
      repeat split. eexists. split; [reflexivity |]. exists size, mtime.
      rewrite Hstat. simpl. auto.
    + by outcome.
  - destruct (stat (fs w) file_path) as [[size mtime]|] eqn:Hstat; simpl.
    + rewrite Hstat. simpl.
      destruct (s3_fault w (PutObject key true)) as [msg|] eqn:Hfault; simpl.
      * destruct (is_metadata_error msg); simpl; [|by outcome].
        rewrite Hstat. simpl.
        destruct (s3_fault w (PutObject key false)) as [msg'|]; simpl; [by outcome |].
        rewrite Hflag. simpl. outcome.
        repeat split. eexists. split; [reflexivity |]. exists size, mtime.
        rewrite Hstat. simpl. auto.
      * outcome.
        repeat split. eexists. split; [reflexivity |]. exists size, mtime.
        rewrite Hstat. simpl. split; [done |]. split; [done |]. right.
        rewrite lookup_insert_ne by done. rewrite lookup_insert_ne by done.
        by rewrite lookup_insert_eq.
    + by outcome.
Qed.

Lemma process_loop_count {X} action dry_run (processor_func : X -> M unit) (files : list X)
    (n : nat) (w w' : World) (r : result nat) :
  process_loop action dry_run processor_func files n w = (r, w') ->
  exists n', r = Ok n' /\ (n <= n')%nat.
Proof.
  revert n w. induction files as [|x files IH]; intros n w; simpl.
  - intros [= <- <-]. eauto.
  - destruct dry_run; [apply IH |].
    destruct (processor_func x w) as [[[]|e] w1].
    + apply IH.
    + intros (n' & -> & Hle)%IH. exists n'. split; [done | lia].
Qed.

(** Uploads that all succeed leave, under each of their keys, an object
    that mirrors the uploaded file, and touch no other key. *)
Lemma uploads_applied (items : list UploadItem) (n : nat) (w w' : World) :
  process_loop "uploading" false _upload_file_wrapper items n w = (Ok n, w') ->
  NoDup (map item_key items) ->
  fs w' = fs w /\ s3_fault w' = s3_fault w /\
  (forall item, item ∈ items ->
     exists obj, bucket w' !! item_key item = Some obj /\ mirrors (fs w) item.1.1.1 obj) /\
  (forall k, k ∉ map item_key items -> bucket w' !! k = bucket w !! k).
Proof.
  revert w. induction items as [|item items IH]; intros w; simpl.
  - outcome. intros _. repeat split; try done.
    intros item Hin. by apply elem_of_nil in Hin.
  - intros Hrun Hnodup. apply NoDup_cons in Hnodup as [Hfresh Hnodup].
    destruct (_upload_file_wrapper item w) as [[[]|e] w1] eqn:Hup.
    + destruct item as [[[file_path key] size] path_type]. unfold _upload_file_wrapper in Hup.
      apply upload_file_outcome in Hup as (Hfs & Hfault & obj & Hbucket & Hmirror).
      apply IH in Hrun as (Hfs' & Hfault' & Hin & Hout); [|done].
      unfold item_key in *. simpl in *.
      repeat split; [congruence | congruence | |].
      * intros item [->|Hitem]%elem_of_cons.
        -- exists obj. split; [|done]. simpl.
           rewrite Hout by done. rewrite Hbucket. apply lookup_insert_eq.
        -- destruct (Hin item Hitem) as (obj' & ? & ?). exists obj'. by rewrite <- Hfs.
      * intros k Hk. apply not_elem_of_cons in Hk as [Hne Hk].
        rewrite Hout by done. rewrite Hbucket. by apply lookup_insert_ne.
    + apply process_loop_count in Hrun as (n' & [= <-] & Hle). lia.
Qed.

Lemma push_uploads_applied (items : list UploadItem) (w w' : World) :
  _process_files items "uploading" false _upload_file_wrapper w = (Ok true, w') ->
  NoDup (map item_key items) ->
  fs w' = fs w /\ s3_fault w' = s3_fault w /\
  (forall item, item ∈ items ->
     exists obj, bucket w' !! item_key item = Some obj /\ mirrors (fs w) item.1.1.1 obj) /\
  (forall k, k ∉ map item_key items -> bucket w' !! k = bucket w !! k).
Proof.
  unfold _process_files. destruct items as [|item items].
  - outcome. intros _. repeat split; try done.
    intros item Hin. by apply elem_of_nil in Hin.
  - unfold mbind, M_bind, m_bind, mret, M_ret, m_ret.
    destruct (process_loop _ _ _ _ _ w) as [[n|e] w1] eqn:Hloop; [|done].
    intros [= Hn <-]. apply bool_decide_eq_true in Hn as ->.
    by apply (uploads_applied _ 0%nat).
Qed.

End PushExecution.

Section PushTwice.

Variable fnmatch : string -> string -> bool.
Variable self : ZenS3Sync.

(** An object that mirrors a file is never found different from it. *)
Lemma mirrors_not_different (d : FileSystem) (file_path : Path) (obj : S3Object)
    (w : World) (key : string) :
  mirrors d file_path obj ->
  _files_are_different (_get_file_info d file_path) (listed_info w key obj) = false.
Proof.
  intros (size & mtime & Hstat & Hsize & Hmeta).
  unfold _get_file_info. rewrite Hstat.
  unfold _files_are_different, listed_info, listed_hash. simpl.
  assert (Hsz : (if negb (bool_decide (size = obj_size obj)) then true else false) = false).
  { by rewrite bool_decide_true. }
  destruct (s3_fault w (HeadObject key)); simpl; [by rewrite andb_false_r |].
  destruct (disable_metadata w); simpl; [by rewrite andb_false_r |].
  destruct Hmeta as [-> | ->].
  - rewrite !lookup_empty. simpl. by rewrite andb_false_r.
  - destruct (file_hash d file_path) as [|c h]; simpl; [done |].
    by rewrite bool_decide_true.
Qed.

Lemma listed_info_same_config (w w' : World) (key : string) (obj : S3Object) :
  s3_fault w' = s3_fault w -> disable_metadata w' = disable_metadata w ->
  listed_info w' key obj = listed_info w key obj.
Proof. intros Hf Hd. unfold listed_info, listed_hash. by rewrite Hf, Hd. Qed.

(** Files with pairwise distinct keys are determined by their key. *)
Lemma keys_distinct (files : list LocalFile) (keys : list string) :
  map_result relative_key_of files = Ok keys -> NoDup keys ->
  forall f f' k, f ∈ files -> f' ∈ files ->
    relative_key_of f = Ok k -> relative_key_of f' = Ok k -> f = f'.
Proof.
  intros Hkeys. revert keys Hkeys.
  induction files as [|a files IH]; intros keys Hkeys Hnodup f f' k Hf Hf' Hk Hk'.
  - by apply elem_of_nil in Hf.
  - simpl in Hkeys. destruct (relative_key_of a) as [b|e] eqn:Ha; simpl in Hkeys; [|done].
    destruct (map_result relative_key_of files) as [keys'|e] eqn:Hrest; simpl in Hkeys; [|done].
    injection Hkeys as <-. apply NoDup_cons in Hnodup as [Hfresh Hnodup].
    assert (Hin : forall x, x ∈ files -> relative_key_of x = Ok b -> False).
    { intros x Hx Hxk. apply Hfresh. apply (map_result_elem _ _ _ _ Hrest). eauto. }
    apply elem_of_cons in Hf as [->|Hf]; apply elem_of_cons in Hf' as [->|Hf'].
    + done.
    + exfalso. apply (Hin f' Hf'). congruence.
    + exfalso. apply (Hin f Hf). congruence.
    + by apply (IH keys' eq_refl Hnodup f f' k).
Qed.

Lemma upload_of_Some (d : FileSystem) (s3_objects : gmap string S3Info) (file : LocalFile)
    (item : UploadItem) :
  upload_of self d s3_objects file = Some item ->
  exists rk,
    relative_key_of file = Ok rk /\
    item_key item = Str.replace Str.backslash Str.slash (prefix self) +:+ rk /\
    item.1.1.1 = file.1.1.
Proof.
  unfold upload_of. destruct (up_to_date d s3_objects file); [done |].
  destruct (_get_s3_key self file.1.1 file.1.2 file.2) as [key|e] eqn:Hkey; [|done].
  destruct (stat d file.1.1) as [[size mtime]|]; [|done].
  intros [= <-]. apply get_s3_key_relative in Hkey as (rk & Hrk & ->).
  exists rk. destruct file as [[fp bp] ty]. done.
Qed.

Lemma app_inv_prefix (p s t : string) : p +:+ s = p +:+ t -> s = t.
Proof. apply (inj (String.append p)). Qed.

Lemma upload_keys_NoDup (d : FileSystem) (s3_objects : gmap string S3Info)
    (files : list LocalFile) (keys : list string) :
  map_result relative_key_of files = Ok keys -> NoDup keys ->
  NoDup (map item_key (omap (upload_of self d s3_objects) files)).
Proof.
  revert keys. induction files as [|a files IH]; intros keys Hkeys Hnodup; [constructor |].
  simpl in Hkeys. destruct (relative_key_of a) as [b|e] eqn:Ha; simpl in Hkeys; [|done].
  destruct (map_result relative_key_of files) as [keys'|e] eqn:Hrest; simpl in Hkeys; [|done].
  injection Hkeys as <-. apply NoDup_cons in Hnodup as [Hfresh Hnodup].
  rewrite omap_cons_list, map_app. specialize (IH keys' eq_refl Hnodup).
  destruct (upload_of self d s3_objects a) as [item|] eqn:Hup; simpl; [|done].
  apply NoDup_cons. split; [|done].
  intros Hin. apply list_elem_of_fmap in Hin as (item' & Heq & Hin).
  apply list_elem_of_omap in Hin as (f' & Hf' & Hup').
  apply upload_of_Some in Hup as (rk & Hrk & Hkey & _).
  apply upload_of_Some in Hup' as (rk' & Hrk' & Hkey' & _).
  rewrite Hkey, Hkey' in Heq. apply app_inv_prefix in Heq as ->.
  apply Hfresh. apply (map_result_elem _ _ _ _ Hrest). exists f'.
  split; [done | congruence].
Qed.

(** The scan depends on the disk only, and leaves the world alone when
    the roaming root exists. *)
Lemma get_local_files_found (w : World) (files : list LocalFile) :
  (get_local_files fnmatch self w).1 = Ok files -> files <> [] ->
  forall w', fs w' = fs w -> get_local_files fnmatch self w' = (Ok files, w').
Proof.
  intros Hfiles Hne w' Hfs. revert Hfiles.
  unfold get_local_files, mbind, M_bind, m_bind, ask, lift, modify, mret, M_ret, m_ret.
  rewrite Hfs.
  destruct (dir_tree (fs w) (zen_roaming_path self)); simpl.
  - destruct (_scan_directory _ _ _ (zen_roaming_path self) _); simpl; [|done].
    destruct (dir_tree (fs w) (zen_local_path self)); simpl; [|congruence].
    destruct (sync_cache_data self); simpl; [|congruence].
    destruct (_scan_directory _ _ _ (zen_local_path self) _); simpl; congruence.
  - intros [= <-]. done.
Qed.

(** What a successful first run leaves behind. *)
Lemma first_push_outcome (w0 w1 : World) (files : list LocalFile) :
  upload_to_s3 fnmatch self false true false w0 = (Ok true, w1) ->
  (get_local_files fnmatch self w0).1 = Ok files ->
  s3_fault w0 ListObjects = None ->
  exists s3_objects ups skips,
    files <> [] /\
    _list_s3_objects self w0 = (Ok s3_objects, w0) /\
    _analyze_upload_files self (fs w0) files s3_objects true false = Ok (ups, skips, []) /\
    (ups = [] /\ w1 = w0 \/
     _process_files ups "uploading" false _upload_file_wrapper w0 = (Ok true, w1)).
Proof.
  intros Hrun Hfiles Hlist.
  destruct (list_s3_objects_lookup self w0 Hlist) as (s3_objects & Hlisting & _).
  destruct files as [|file files].
  { exfalso. revert Hrun. unfold upload_to_s3, mbind, M_bind, m_bind.
    destruct (get_local_files fnmatch self w0) as [r wa]. simpl in Hfiles. subst r.
    simpl. unfold modify, mret, M_ret, m_ret. simpl. congruence. }
  pose proof (get_local_files_found w0 _ Hfiles ltac:(done) w0 eq_refl) as Hscan.
  revert Hrun. unfold upload_to_s3, mbind, M_bind, m_bind. rewrite Hscan. simpl.
  rewrite Hlisting. unfold ask, lift. simpl.
  destruct (_analyze_upload_files self (fs w0) (file :: files) s3_objects true false)
    as [[[ups skips] dels]|e] eqn:Han; [|done].
  pose proof (incremental_push_lists _ _ _ _ _ _ _ Han) as (_ & _ & _ & _ & ->).
  intros Hrun. exists s3_objects, ups, skips. repeat split; [done.. |].
  destruct ups as [|item ups]; cbn [is_nil andb negb] in Hrun.
  - left. unfold mret, M_ret, m_ret in Hrun. split; congruence.
  - right. revert Hrun.
    destruct (_process_files (item :: ups) "uploading" false _upload_file_wrapper w0)
      as [[b|e] w'] eqn:Hproc; [|done].
    unfold mret, M_ret, m_ret. cbn [andb]. intros Hrun. injection Hrun as Hb <-.
    rewrite andb_true_r in Hb. by subst b.
Qed.

(** C9, as the code has it.  Let an incremental push without cleanup
    return [True], with the prefix free of backslashes, the scanned files
    under pairwise distinct relative keys, a listing call that succeeds
    and the metadata switch as it was before the run.  Then a second
    such push on the unchanged disk scans the same files, queues no
    upload and no deletion, skips every file, returns [True] and leaves
    the world as it is. *)
Theorem push_twice_skips_everything (w0 w1 : World) (files : list LocalFile)
    (keys : list string) :
  upload_to_s3 fnmatch self false true false w0 = (Ok true, w1) ->
  (get_local_files fnmatch self w0).1 = Ok files ->
  map_result relative_key_of files = Ok keys -> NoDup keys ->
  Str.has_char Str.backslash (prefix self) = false ->
  s3_fault w0 ListObjects = None ->
  disable_metadata w1 = disable_metadata w0 ->
  exists s3_objects skips,
    get_local_files fnmatch self w1 = (Ok files, w1) /\
    _list_s3_objects self w1 = (Ok s3_objects, w1) /\
    _analyze_upload_files self (fs w1) files s3_objects true false = Ok ([], skips, []) /\
    length skips = length files /\
    upload_to_s3 fnmatch self false true false w1 = (Ok true, w1).
Proof.
  intros Hrun Hfiles Hkeys Hnodup Hprefix Hlist Hflag.
  destruct (first_push_outcome w0 w1 files Hrun Hfiles Hlist)
    as (s3_0 & ups & skips0 & Hne & Hlisting0 & Han & Hexec).
  destruct (list_s3_objects_lookup self w0 Hlist) as (s3_0' & Hlisting0' & Hlook0).
  assert (s3_0' = s3_0) as -> by congruence.
  pose proof (incremental_push_lists _ _ _ _ _ _ _ Han) as (Hroot & Hstat & Hups & _ & _).
  (* the world after the first run *)
  assert (Hworld :
    fs w1 = fs w0 /\ s3_fault w1 = s3_fault w0 /\
    (forall item, item ∈ ups ->
       exists obj, bucket w1 !! item_key item = Some obj /\ mirrors (fs w0) item.1.1.1 obj) /\
    (forall k, k ∉ map item_key ups -> bucket w1 !! k = bucket w0 !! k)).
  { destruct Hexec as [[-> ->] | Hexec].
    - repeat split; try done. intros item Hin. by apply elem_of_nil in Hin.
    - apply push_uploads_applied in Hexec; [done |].
      rewrite Hups. by eapply upload_keys_NoDup. }
  destruct Hworld as (Hfs & Hfault & Hin & Hout).
  assert (Hlist1 : s3_fault w1 ListObjects = None) by (by rewrite Hfault).
  destruct (list_s3_objects_lookup self w1 Hlist1) as (s3_1 & Hlisting1 & Hlook1).
  pose proof (get_local_files_found w0 files Hfiles Hne w1 Hfs) as Hscan1.
  (* every file is up to date with respect to the second listing *)
  assert (Hdate : forall file, file ∈ files ->
            stat (fs w1) file.1.1 <> None /\ up_to_date (fs w1) s3_1 file = true).
  { intros file Hfile. rewrite Hfs.
    rewrite Forall_forall in Hroot, Hstat. split; [by apply Hstat |].
    destruct (rooted_keys self file (Hroot file Hfile)) as [[key Hkey] [rk Hrk]].
    assert (key = prefix self +:+ rk) as ->.
    { apply get_s3_key_relative in Hkey as (rk' & Hrk' & ->).
      unfold relative_key_of in Hrk. destruct file as [[fp bp] ty]. simpl in *.
      rewrite replace_id by done. congruence. }
    unfold up_to_date. rewrite Hrk, Hlook1.
    destruct (upload_of self (fs w0) s3_0 file) as [item|] eqn:Hup.
    - assert (Hitem : item ∈ ups).
      { rewrite Hups. apply list_elem_of_omap. eauto. }
      destruct (Hin item Hitem) as (obj & Hobj & Hmirror).
      apply upload_of_Some in Hup as (rk' & Hrk' & Hk & Hpath).
      rewrite replace_id in Hk by done.
      assert (rk' = rk) as -> by congruence.
      rewrite <- Hk, Hobj. simpl. rewrite <- Hpath.
      by rewrite mirrors_not_different.
    - assert (Hold : up_to_date (fs w0) s3_0 file = true).
      { revert Hup. unfold upload_of. destruct (up_to_date _ _ _); [done |].
        rewrite Hkey. specialize (Hstat file Hfile).
        by destruct (stat (fs w0) file.1.1) as [[size mtime]|]. }
      unfold up_to_date in Hold. rewrite Hrk, Hlook0 in Hold.
      destruct (bucket w0 !! (prefix self +:+ rk)) as [obj0|] eqn:Hobj0; [|done].
      simpl in Hold.
      rewrite Hout, Hobj0.
      + simpl. by rewrite (listed_info_same_config w0 w1).
      + intros Hk. apply list_elem_of_fmap in Hk as (item & Hk & Hitem).
        rewrite Hups in Hitem. apply list_elem_of_omap in Hitem as (f' & Hf' & Hup').
        pose proof Hup' as Hsome.
        apply upload_of_Some in Hup' as (rk' & Hrk' & Hk' & _).
        rewrite replace_id in Hk' by done. rewrite Hk' in Hk.
        apply app_inv_prefix in Hk as ->.
        assert (f' = file) as -> by (by eapply keys_distinct).
        congruence. }
  destruct (all_up_to_date_all_skipped self (fs w1) s3_1 files) as (skips & Han1 & Hlen);
    [done | done |].
  exists s3_1, skips. repeat split; try done.
  unfold upload_to_s3, mbind, M_bind, m_bind. rewrite Hscan1.
  destruct files as [|file files]; [done |]. simpl.
  rewrite Hlisting1. unfold ask, lift. simpl. rewrite Han1. done.
Qed.

End PushTwice.

Lemma push_twice_skips_everything_witness :
  (upload_to_s3 fnmatch_posix Examples.plain_sync false true false Examples.prefs_world).1
    = Ok true /\
  exists s3_objects skips,
    _analyze_upload_files Examples.plain_sync
      (fs (upload_to_s3 fnmatch_posix Examples.plain_sync false true false
             Examples.prefs_world).2)
      [(Examples.prefs_js, Examples.roaming_root, "roaming"%string)] s3_objects true false
    = Ok ([], skips, []) /\
    length skips = 1%nat.
Proof.
  set (run := upload_to_s3 fnmatch_posix Examples.plain_sync false true false
                Examples.prefs_world).
  assert (H1 : run.1 = Ok true) by (vm_compute; reflexivity).
  split; [exact H1 |].
  assert (Hrun : run = (Ok true, run.2)).
  { rewrite <- H1. apply surjective_pairing. }
  destruct (push_twice_skips_everything fnmatch_posix Examples.plain_sync Examples.prefs_world
              run.2 [(Examples.prefs_js, Examples.roaming_root, "roaming"%string)]
              ["roaming/prefs.js"%string] Hrun)
    as (s3_objects & skips & _ & _ & Han & Hlen & _).
  - vm_compute. reflexivity.
  - vm_compute. reflexivity.
  - apply NoDup_singleton.
  - reflexivity.
  - reflexivity.
  - vm_compute. reflexivity.
  - exists s3_objects, skips. split; [exact Han | exact Hlen].
Defined.

(** C9 as stated fails, in two ways that come from the same
    [.replace('\\', '/')] on the whole key.  Under the prefix [backup\]
    the object is stored under [backup/...], where a listing by the prefix
    does not find it, so the second run uploads prefs.js again.  And the
    files [a\b] and [a/b] share one key: the second run finds the object of
    [a/b] there and uploads [a\b] again.  Both first runs return [True]
    with metadata still enabled. *)
Lemma second_push_uploads_again :
  let run1 := upload_to_s3 fnmatch_posix Examples.backslash_sync false true false
                Examples.prefs_world in
  let run2 := upload_to_s3 fnmatch_posix Examples.plain_sync false true false
                Examples.clash_world in
  (run1.1 = Ok true /\ disable_metadata run1.2 = false /\
   (get_local_files fnmatch_posix Examples.backslash_sync run1.2).1
     = Ok [(Examples.prefs_js, Examples.roaming_root, "roaming"%string)] /\
   (s3_objects ← (_list_s3_objects Examples.backslash_sync run1.2).1;
    _analyze_upload_files Examples.backslash_sync (fs run1.2)
      [(Examples.prefs_js, Examples.roaming_root, "roaming"%string)] s3_objects true false)
   = Ok ([(Examples.prefs_js, "backup/roaming/prefs.js"%string, 100, "roaming"%string)],
         [], [])) /\
  (run2.1 = Ok true /\ disable_metadata run2.2 = false /\
   (get_local_files fnmatch_posix Examples.plain_sync run2.2).1
     = Ok [(under Examples.roaming_root ["a\b"], Examples.roaming_root, "roaming"%string);
           (under Examples.roaming_root ["a"; "b"], Examples.roaming_root, "roaming"%string)] /\
   (s3_objects ← (_list_s3_objects Examples.plain_sync run2.2).1;
    _analyze_upload_files Examples.plain_sync (fs run2.2)
      [(under Examples.roaming_root ["a\b"], Examples.roaming_root, "roaming"%string);
       (under Examples.roaming_root ["a"; "b"], Examples.roaming_root, "roaming"%string)]
      s3_objects true false)
   = Ok ([(under Examples.roaming_root ["a\b"], "zen-profiles/roaming/a/b"%string, 10,
           "roaming"%string)],
         [(under Examples.roaming_root ["a"; "b"], "zen-profiles/roaming/a/b"%string, 20)],
         [])).
Proof. repeat split; vm_compute; reflexivity. Qed.

(** * Further properties *)

(** ** What a run writes *)

Section Writes.

Context {A : Type}.
Implicit Types (P : write -> Prop) (m : M A) (w : World).

Lemma apply_writes_app (xs ys : list write) w :
  apply_writes (xs ++ ys) w = apply_writes ys (apply_writes xs w).
Proof. apply fold_left_app. Qed.

Lemma writes_none P m w : (m w).2 = w -> writes_from P m w.
Proof. intros H. exists []. by split. Qed.

Lemma writes_one P m w (x : write) :
  (m w).2 = apply_write x w -> P x -> writes_from P m w.
Proof. intros H Hx. exists [x]. split; [by constructor | done]. Qed.

Lemma writes_weaken P (Q : write -> Prop) m w :
  (forall x, P x -> Q x) -> writes_from P m w -> writes_from Q m w.
Proof.
  intros HPQ (xs & Hxs & Hw). exists xs. split; [|done].
  eapply Forall_impl; [exact Hxs | exact HPQ].
Qed.

Lemma writes_bind {B} P m (k : A -> M B) w :
  writes_from P m w ->
  (forall a, (m w).1 = Ok a -> writes_from P (k a) (m w).2) ->
  writes_from P (m ≫= k) w.
Proof.
  intros (xs & Hxs & Hw) Hk. unfold writes_from, mbind, M_bind, m_bind in *.
  destruct (m w) as [[a|e] w1] eqn:Hm; simpl in *.
  - destruct (Hk a eq_refl) as (ys & Hys & Hw'). exists (xs ++ ys).
    split; [by apply Forall_app |]. by rewrite apply_writes_app, <- Hw.
  - by exists xs.
Qed.

Lemma writes_try P m (h : exn -> M A) w :
  writes_from P m w ->
  (forall e, (m w).1 = Raise e -> writes_from P (h e) (m w).2) ->
  writes_from P (try_except m h) w.
Proof.
  intros (xs & Hxs & Hw) Hh. unfold writes_from, try_except in *.
  destruct (m w) as [[a|e] w1] eqn:Hm; simpl in *.
  - by exists xs.
  - destruct (Hh e eq_refl) as (ys & Hys & Hw'). exists (xs ++ ys).
    split; [by apply Forall_app |]. by rewrite apply_writes_app, <- Hw.
Qed.

End Writes.


(** A step through a computation for [writes_from]. *)
Ltac writes_step :=
  lazymatch goal with
  | |- writes_from _ (match ?x with _ => _ end) _ => destruct x eqn:?
  | |- writes_from _ (_ ≫= _) _ => apply writes_bind; [|intros ? ?]
  | |- writes_from _ (try_except _ _) _ => apply writes_try; [|intros ? ?]
  | |- writes_from _ (mret _) _ => by apply writes_none
  | |- writes_from _ (lift _) _ => by apply writes_none
  | |- writes_from _ (raise _) _ => by apply writes_none
  | |- writes_from _ ask _ => by apply writes_none
  | |- writes_from _ (modify (add_log ?r)) _ => apply (writes_one _ _ _ (WLog r)); [done |]
  | |- writes_from _ (modify (add_effect ?e)) _ => apply (writes_one _ _ _ (WEffect e)); [done |]
  | |- writes_from _ (modify (set_disable_metadata true)) _ =>
      apply (writes_one _ _ _ WDisable); [done |]
  end.

Section WritesOfTheExecutor.

Variable fnmatch : string -> string -> bool.
Variable self : ZenS3Sync.

Lemma get_local_files_writes (P : write -> Prop) (w : World) :
  (forall r, P (WLog r)) -> writes_from P (get_local_files fnmatch self) w.
Proof. intros HP. unfold get_local_files. repeat (writes_step; try apply HP). Qed.

Lemma list_s3_objects_writes (P : write -> Prop) (w : World) :
  (forall r, P (WLog r)) -> writes_from P (_list_s3_objects self) w.
Proof.
  intros HP. unfold _list_s3_objects. destruct (s3_fault w ListObjects) as [msg|] eqn:Hf.
  - apply (writes_one _ _ _ (WLog (ErrorListingS3Objects msg))); [|apply HP].
    simpl. by rewrite Hf.
  - apply writes_none. simpl. by rewrite Hf.
Qed.

Lemma open_file_writes (P : write -> Prop) (p : Path) (w : World) :
  writes_from P (open_file p) w.
Proof. unfold open_file. repeat writes_step. Qed.

Lemma put_object_writes (key : string) (p : Path) metadata (w : World) :
  writes_from (upload_write key) (put_object key p metadata) w.
Proof.
  unfold put_object.
  destruct (s3_fault w (PutObject key (bool_decide (is_Some metadata)))) eqn:Hf.
  - apply writes_none. simpl. by rewrite Hf.
  - eapply (writes_one _ _ _ (WInsert key _)); [|done]. simpl. by rewrite Hf.
Qed.

Lemma upload_file_writes (p : Path) (key path_type : string) (w : World) :
  writes_from (upload_write key) (_upload_file p key path_type) w.
Proof.
  unfold _upload_file.
  repeat first
    [ apply open_file_writes | apply put_object_writes | writes_step; try done ].
Qed.

Lemma restore_mtime_writes (key : string) (p : Path) (w : World) :
  writes_from download_write (restore_mtime key p) w.
Proof. unfold restore_mtime. repeat (writes_step; try done). Qed.

Lemma download_file_writes (key : string) (p : Path) (w : World) :
  writes_from download_write (_download_file key p) w.
Proof.
  unfold _download_file.
  repeat first [ apply restore_mtime_writes | writes_step; try done ].
Qed.

Lemma delete_s3_file_writes (item : DeleteS3Item) (w : World) :
  writes_from (fun x => x = WDelete item.1.2) (_delete_s3_file item) w.
Proof.
  destruct item as [[rk key] size]. unfold _delete_s3_file. simpl.
  destruct (s3_fault w (DeleteObject key)) eqn:Hf.
  - apply writes_none. simpl. by rewrite Hf.
  - apply (writes_one _ _ _ (WDelete key)); [|done]. simpl. by rewrite Hf.
Qed.

Lemma delete_local_file_writes (item : DeleteLocalItem) (w : World) :
  writes_from (fun x => exists p, x = WEffect (Unlink p) \/ x = WEffect (Rmdir p))
    (_delete_local_file item) w.
Proof.
  destruct item as [[p rk] size]. unfold _delete_local_file, unlink.
  repeat (writes_step; eauto).
Qed.

(** The loop of [_process_files] writes what its calls write, and one
    log record for each failure. *)
Lemma process_loop_writes {X} (P : write -> Prop) action (processor_func : X -> M unit)
    (files : list X) :
  (forall r, P (WLog r)) ->
  (forall x w, x ∈ files -> writes_from P (processor_func x) w) ->
  forall n w, writes_from P (process_loop action false processor_func files n) w.
Proof.
  intros Hlog. induction files as [|x files IH]; intros Hp n w.
  - by apply writes_none.
  - unfold writes_from in *. simpl. destruct (Hp x w) as (xs & Hxs & Hw); [by left |].
    destruct (processor_func x w) as [[[]|e] w1]; simpl in Hw; subst w1.
    + destruct (IH (fun y w' Hy => Hp y w' (list_elem_of_further _ _ _ Hy)) n
                  (apply_writes xs w)) as (ys & Hys & Hw).
      exists (xs ++ ys). split; [by apply Forall_app |]. by rewrite apply_writes_app.
    + destruct (IH (fun y w' Hy => Hp y w' (list_elem_of_further _ _ _ Hy)) (S n)
                  (add_log (ErrorProcessing action e) (apply_writes xs w)))
        as (ys & Hys & Hw).
      exists (xs ++ WLog (ErrorProcessing action e) :: ys).
      split; [apply Forall_app; split; [done | by constructor] |].
      by rewrite apply_writes_app.
Qed.

(** A dry run of [_process_files] calls nothing and reports success. *)
Lemma process_files_dry_run {X} (files : list X) action (processor_func : X -> M unit)
    (w : World) :
  _process_files files action true processor_func w = (Ok true, w).
Proof.
  unfold _process_files. destruct files as [|x files]; [done |].
  unfold mbind, M_bind, m_bind.
  assert (forall l n w', process_loop action true processor_func l n w' = (Ok n, w')) as ->.
  { induction l as [|y l IH]; intros n w'; [done | apply IH]. }
  done.
Qed.

Lemma process_files_writes {X} (P : write -> Prop) action dry_run
    (processor_func : X -> M unit) (files : list X) (w : World) :
  (forall r, P (WLog r)) ->
  (dry_run = false -> forall x w', x ∈ files -> writes_from P (processor_func x) w') ->
  writes_from P (_process_files files action dry_run processor_func) w.
Proof.
  intros Hlog Hp. destruct dry_run.
  - apply writes_none. by rewrite process_files_dry_run.
  - unfold _process_files. destruct files as [|x files]; [by apply writes_none |].
    apply writes_bind; [apply process_loop_writes; auto | intros; by apply writes_none].
Qed.

End WritesOfTheExecutor.

(** ** What the three modes write *)

Section WritesOfTheModes.

Variable fnmatch : string -> string -> bool.
Variable self : ZenS3Sync.

(** A property that holds at the start of a loop and that every step
    keeps holds at its end. *)
Lemma for_each_invariant {X S} (I : S -> Prop) (body : X -> S -> result S) (l : list X) :
  (forall a s s', a ∈ l -> I s -> body a s = Ok s' -> I s') ->
  forall s s', I s -> for_each body l s = Ok s' -> I s'.
Proof.
  induction l as [|a l IH]; intros Hstep s s' Hs; simpl.
  - by intros [= <-].
  - destruct (body a s) as [s1|e] eqn:Ha; simpl; [|done].
    apply IH; [|eapply Hstep; [by left | exact Hs | exact Ha]].
    intros a' t t' Hin. apply Hstep. by right.
Qed.

Lemma get_s3_key_prefixed (file_path base_path : Path) (path_type key : string) :
  _get_s3_key self file_path base_path path_type = Ok key ->
  Str.startswith (Str.replace Str.backslash Str.slash (prefix self)) key = true.
Proof.
  unfold _get_s3_key. destruct (relative_to file_path base_path); simpl; [|done].
  destruct (is_role path_type); intros [= <-]; rewrite replace_app; apply startswith_app.
Qed.

(** Every upload the push analysis plans goes to a key the key builder
    made; every deletion it plans is of a listed object and needs
    [cleanup]. *)
Lemma push_analysis_keys (d : FileSystem) (files : list LocalFile)
    (s3_objects : gmap string S3Info) (incremental cleanup : bool) ups skips dels :
  _analyze_upload_files self d files s3_objects incremental cleanup = Ok (ups, skips, dels) ->
  Forall (fun item =>
            Str.startswith (Str.replace Str.backslash Str.slash (prefix self)) (item_key item)
            = true) ups /\
  Forall (fun item : DeleteS3Item =>
            cleanup = true /\
            exists s3_info, s3_objects !! item.1.1 = Some s3_info /\ item.1.2 = s3_key s3_info)
         dels.
Proof.
  unfold _analyze_upload_files.
  destruct (for_each _ files ([], [])) as [[ups' skips']|e] eqn:Hloop; simpl; [|done].
  intros Hdel. split.
  - assert (ups' = ups) as <-.
    { destruct cleanup; [destruct (cleanup_deletions files s3_objects)|];
        simpl in Hdel; congruence. }
    refine (for_each_invariant
              (fun acc : list UploadItem * list SkipItem =>
                 Forall (fun item =>
                           Str.startswith (Str.replace Str.backslash Str.slash (prefix self))
                                          (item_key item) = true) acc.1)
              _ files _ ([], []) (ups', skips') _ Hloop); [|by constructor].
    intros [[file_path base_path] path_type] [u s] acc' _ Hacc. unfold upload_step.
    destruct (_get_s3_key self file_path base_path path_type) as [key|] eqn:Hkey; simpl; [|done].
    apply get_s3_key_prefixed in Hkey.
    destruct (_get_relative_s3_key file_path base_path path_type); simpl; [|done].
    destruct (local_size (_get_file_info d file_path)); simpl;
      repeat case_match; simpl; try done; intros [= <-]; simpl in *; try done;
      apply Forall_app; split; try done; by constructor.
  - destruct cleanup; simpl in Hdel.
    + destruct (cleanup_deletions files s3_objects) as [dels'|] eqn:Hc; simpl in Hdel; [|done].
      assert (dels' = dels) as -> by congruence.
      apply Forall_forall. intros item Hin.
      apply (cleanup_deletions_spec _ _ _ Hc) in Hin as (key & s3_info & -> & Hlook & _).
      split; [done |]. by exists s3_info.
    + assert (dels = []) as -> by congruence. constructor.
Qed.

(** Every entry of a listing sits in the bucket under the prefix followed
    by its relative key, and a listing call that fails lists nothing. *)
Lemma listing_entries (w : World) (s3_objects : gmap string S3Info) :
  (_list_s3_objects self w).1 = Ok s3_objects ->
  (forall rk s3_info,
     s3_objects !! rk = Some s3_info ->
     s3_key s3_info = prefix self +:+ rk /\ is_Some (bucket w !! (prefix self +:+ rk))) /\
  (listing_succeeds w = false -> s3_objects = ∅).
Proof.
  unfold listing_succeeds. destruct (s3_fault w ListObjects) as [msg|] eqn:Hf.
  - unfold _list_s3_objects. rewrite Hf. simpl. intros [= <-]. split; [|done].
    intros rk s3_info. by rewrite lookup_empty.
  - destruct (list_s3_objects_lookup self w Hf) as (objs & -> & Hlook). simpl.
    intros [= <-]. split; [|done]. intros rk s3_info. rewrite Hlook.
    destruct (bucket w !! (prefix self +:+ rk)); simpl; [|done].
    intros [= <-]. eauto.
Qed.

Lemma only_logged_frame (w w' : World) :
  only_logged w w' ->
  fs w' = fs w /\ bucket w' = bucket w /\ s3_fault w' = s3_fault w /\
  disable_metadata w' = disable_metadata w /\ effects w' = effects w.
Proof. by intros [added ->]. Qed.

(** What a push writes.  Log records always; and unless the run is dry:
    objects under the prefix as the key builder spells it, the metadata
    switch and the saved configuration, and, with [cleanup] and a listing
    call that succeeded, deletions of keys that start with the prefix. *)
Lemma push_writes (dry_run incremental cleanup : bool) (w : World) :
  writes_from (push_write self dry_run cleanup (listing_succeeds w))
    (upload_to_s3 fnmatch self dry_run incremental cleanup) w.
Proof.
  unfold upload_to_s3.
  apply writes_bind; [by apply get_local_files_writes |]. intros files _.
  destruct (only_logged_frame _ _ (get_local_files_only_logs fnmatch self w))
    as (_ & _ & Hfault & _).
  set (w1 := (get_local_files fnmatch self w).2) in *.
  destruct (is_nil files); [repeat (writes_step; try done) |].
  apply writes_bind.
  { destruct (incremental || cleanup); [by apply list_s3_objects_writes | writes_step]. }
  intros s3_objects Hlist.
  assert ((forall rk s3_info, s3_objects !! rk = Some s3_info ->
                              s3_key s3_info = prefix self +:+ rk) /\
          (listing_succeeds w = false -> s3_objects = ∅)) as [Hkeys Hnone].
  { destruct (incremental || cleanup).
    - apply listing_entries in Hlist as [Hk Hn]. split; [intros; by eapply Hk |].
      unfold listing_succeeds in *. by rewrite Hfault in Hn.
    - simpl in Hlist. injection Hlist as <-. split; [|done].
      intros rk s3_info. by rewrite lookup_empty. }
  apply writes_bind; [writes_step |]. intros w2 _.
  apply writes_bind; [writes_step |]. intros [[ups skips] dels] Han. simpl in Han.
  apply push_analysis_keys in Han as [Hups Hdels]. cbv beta iota.
  destruct (is_nil ups && is_nil dels); [writes_step |].
  apply writes_bind.
  { apply process_files_writes; [done |]. intros -> [[[file_path key] size] path_type] w' Hin.
    eapply writes_weaken; [|apply upload_file_writes].
    rewrite Forall_forall in Hups. specialize (Hups _ Hin). unfold item_key in Hups.
    simpl in Hups. intros [] Hx; simpl in *; subst; done. }
  intros upload_success _. apply writes_bind; [|intros; writes_step].
  destruct (cleanup && negb (is_nil dels)) eqn:Hc; [|writes_step].
  apply andb_prop in Hc as [-> _].
  apply process_files_writes; [done |]. intros -> item w' Hin.
  eapply writes_weaken; [|apply delete_s3_file_writes].
  rewrite Forall_forall in Hdels. destruct (Hdels _ Hin) as (_ & s3_info & Hlook & Hkey).
  intros x ->. simpl. repeat split.
  - destruct (listing_succeeds w); [done |]. rewrite Hnone in Hlook by done.
    by rewrite lookup_empty in Hlook.
  - rewrite Hkey, (Hkeys _ _ Hlook). apply startswith_app.
Qed.

(** What a pull writes.  Log records always; and unless the run is dry:
    directories, files and time stamps for the downloads, and, with
    [cleanup] only, removals of local files.  Nothing goes to the bucket. *)
Lemma pull_writes (dry_run incremental cleanup : bool) (w : World) :
  writes_from (pull_write dry_run cleanup)
    (download_from_s3 fnmatch self dry_run incremental cleanup) w.
Proof.
  unfold download_from_s3.
  apply writes_try; [|intros; repeat (writes_step; try done)].
  apply writes_bind; [by apply list_s3_objects_writes |]. intros s3_objects _.
  destruct (bool_decide (s3_objects = ∅)); [repeat (writes_step; try done) |].
  apply writes_bind.
  { unfold _analyze_download_files. apply writes_bind; [writes_step |]. intros w1 _.
    destruct (fold_left _ _ _) as [downs skips].
    destruct cleanup; [|writes_step].
    apply writes_bind; [by apply get_local_files_writes |]. intros.
    apply writes_bind; [writes_step | intros; writes_step]. }
  intros [[downs skips] dels] _. cbv beta iota.
  destruct (is_nil downs && is_nil dels); [writes_step |].
  apply writes_bind.
  { apply process_files_writes; [done |]. intros -> [[[local_path key] size] rk] w' _.
    eapply writes_weaken; [|apply download_file_writes].
    intros [| [] | | |] Hx; simpl in *; done. }
  intros. apply writes_bind; [|intros; writes_step].
  destruct (cleanup && negb (is_nil dels)) eqn:Hc; [|writes_step].
  apply andb_prop in Hc as [-> _].
  apply process_files_writes; [done |]. intros -> item w' _.
  eapply writes_weaken; [|apply delete_local_file_writes].
  by intros x (p & [-> | ->]).
Qed.

(** What a bidirectional run writes.  Log records always; and unless the
    run is dry: uploaded objects, the metadata switch and the saved
    configuration, and directories, files and time stamps for the
    downloads. *)
Lemma sync_writes (dry_run cleanup : bool) (w : World) :
  writes_from (sync_write dry_run) (sync_bidirectional fnmatch self dry_run cleanup) w.
Proof.
  unfold sync_bidirectional.
  apply writes_bind; [by apply get_local_files_writes |]. intros local_files _.
  apply writes_bind; [by apply list_s3_objects_writes |]. intros s3_objects _.
  apply writes_bind; [writes_step |]. intros w1 _.
  apply writes_bind; [writes_step |]. intros local_lookup _.
  apply writes_bind; [writes_step |]. intros [[ups downs] skips] _. cbv beta iota.
  destruct (is_nil ups && is_nil downs); [writes_step |].
  apply writes_bind.
  { apply process_files_writes; [done |]. intros -> [[[file_path key] size] path_type] w' _.
    eapply writes_weaken; [|apply upload_file_writes].
    intros [] Hx; simpl in *; subst; done. }
  intros. apply writes_bind; [|intros; writes_step].
  apply process_files_writes; [done |]. intros -> [[[local_path key] size] rk] w' _.
  eapply writes_weaken; [|apply download_file_writes].
  intros [| [] | | |] Hx; simpl in *; done.
Qed.

End WritesOfTheModes.

(** ** What the three modes leave alone *)

Section Footprints.

Variable fnmatch : string -> string -> bool.
Variable self : ZenS3Sync.

(** A relation between worlds that every single write respects holds
    between the ends of a sequence of writes. *)
Lemma apply_writes_relate (R : World -> World -> Prop) (P : write -> Prop)
    (xs : list write) (w : World) :
  (forall a, R a a) -> (forall a b c, R a b -> R b c -> R a c) ->
  (forall x a, P x -> R a (apply_write x a)) ->
  Forall P xs -> R w (apply_writes xs w).
Proof.
  intros Hrefl Htrans Hstep Hxs. revert w.
  induction Hxs as [|x xs Hx _ IH]; intros w; simpl; [apply Hrefl |].
  eapply Htrans; [by apply Hstep | apply IH].
Qed.

Lemma only_logged_trans (a b c : World) :
  only_logged a b -> only_logged b c -> only_logged a c.
Proof. intros [l1 ->] [l2 ->]. exists (l1 ++ l2). simpl. by rewrite app_assoc. Qed.

Lemma effects_added_none (Q : local_effect -> Prop) (w w' : World) :
  effects w' = effects w -> effects_added Q w w'.
Proof. intros H. exists []. by rewrite app_nil_r. Qed.

Lemma effects_added_refl (Q : local_effect -> Prop) (w : World) : effects_added Q w w.
Proof. by apply effects_added_none. Qed.

Lemma effects_added_trans (Q : local_effect -> Prop) (a b c : World) :
  effects_added Q a b -> effects_added Q b c -> effects_added Q a c.
Proof.
  intros (l1 & H1 & Hl1) (l2 & H2 & Hl2). exists (l1 ++ l2).
  split; [by rewrite H2, H1, app_assoc | by apply Forall_app].
Qed.

Lemma effects_added_one (Q : local_effect -> Prop) (e : local_effect) (w : World) :
  Q e -> effects_added Q w (add_effect e w).
Proof. intros He. exists [e]. split; [done | by constructor]. Qed.

(** X1.  A dry run of any of the three modes changes nothing but the log:
    the disk, the bucket, the metadata switch and the recorded local
    effects are as before. *)
Theorem dry_run_only_logs (incremental cleanup : bool) (w : World) :
  only_logged w (upload_to_s3 fnmatch self true incremental cleanup w).2 /\
  only_logged w (download_from_s3 fnmatch self true incremental cleanup w).2 /\
  only_logged w (sync_bidirectional fnmatch self true cleanup w).2.
Proof.
  assert (Hstep : forall (P : write -> Prop),
            (forall x, P x -> exists r, x = WLog r) ->
            forall xs, Forall P xs -> only_logged w (apply_writes xs w)).
  { intros P HP xs. apply apply_writes_relate.
    - apply only_logged_refl.
    - apply only_logged_trans.
    - intros x a (r & ->)%HP. apply only_logged_add, only_logged_refl. }
  repeat split.
  - destruct (push_writes fnmatch self true incremental cleanup w) as (xs & Hxs & ->).
    eapply Hstep; [|exact Hxs]. intros [] Hx; simpl in Hx; eauto; try done; by destruct Hx.
  - destruct (pull_writes fnmatch self true incremental cleanup w) as (xs & Hxs & ->).
    eapply Hstep; [|exact Hxs]. intros [] Hx; simpl in Hx; eauto; try done; by destruct Hx.
  - destruct (sync_writes fnmatch self true cleanup w) as (xs & Hxs & ->).
    eapply Hstep; [|exact Hxs]. intros [] Hx; simpl in Hx; eauto; try done; by destruct Hx.
Qed.

(** X2.  A pull never writes to the remote side: the bucket and the metadata
    switch are as before, the configuration is not saved, and local files
    and directories are removed only when [cleanup] is set. *)
Theorem pull_never_writes_to_the_bucket (dry_run incremental cleanup : bool) (w : World) :
  let w' := (download_from_s3 fnmatch self dry_run incremental cleanup w).2 in
  bucket w' = bucket w /\ disable_metadata w' = disable_metadata w /\
  effects_added (fun e => e <> SaveConfig /\ (cleanup = false -> is_deletion e = false)) w w'.
Proof.
  simpl. destruct (pull_writes fnmatch self dry_run incremental cleanup w) as (xs & Hxs & ->).
  revert Hxs.
  apply (apply_writes_relate
           (fun a b => bucket b = bucket a /\ disable_metadata b = disable_metadata a /\
                       effects_added _ a b)).
  - intros a. repeat split. apply effects_added_refl.
  - intros a b c (-> & -> & Hab) (-> & -> & Hbc). repeat split.
    by eapply effects_added_trans.
  - intros [r|e| | |] a Hx; simpl in Hx; try done.
    + repeat split. by apply effects_added_none.
    + repeat split. apply effects_added_one.
      destruct Hx as [_ Hx]. destruct e; simpl; split; try done; by intros ->.
Qed.

(** X3.  A push never touches the local disk: the only local effect it can
    have is to save the configuration file. *)
Theorem push_never_touches_the_disk (dry_run incremental cleanup : bool) (w : World) :
  effects_added (fun e => e = SaveConfig) w
    (upload_to_s3 fnmatch self dry_run incremental cleanup w).2.
Proof.
  destruct (push_writes fnmatch self dry_run incremental cleanup w) as (xs & Hxs & ->).
  revert Hxs. apply apply_writes_relate.
  - apply effects_added_refl.
  - apply effects_added_trans.
  - intros [r|e| | |] a Hx; simpl in Hx; try by apply effects_added_none.
    apply effects_added_one. by destruct Hx.
Qed.

(** X4.  A push changes the bucket under the prefix only: a key that starts
    neither with the prefix nor with the prefix after its backslashes are
    replaced holds after the run what it held before. *)
Theorem push_stays_under_the_prefix (dry_run incremental cleanup : bool) (w : World)
    (key : string) :
  Str.startswith (prefix self) key = false ->
  Str.startswith (Str.replace Str.backslash Str.slash (prefix self)) key = false ->
  bucket (upload_to_s3 fnmatch self dry_run incremental cleanup w).2 !! key = bucket w !! key.
Proof.
  intros Hraw Hnorm.
  destruct (push_writes fnmatch self dry_run incremental cleanup w) as (xs & Hxs & ->).
  revert Hxs.
  apply (apply_writes_relate (fun a b => bucket b !! key = bucket a !! key)).
  - done.
  - intros a b c Hab Hbc. by rewrite Hbc.
  - intros [r|e|k obj|k|] a Hx; simpl in *; try done.
    + apply lookup_insert_ne. intros ->. destruct Hx as [_ Hx]. congruence.
    + apply lookup_delete_ne. intros ->. destruct Hx as (_ & _ & _ & Hx). congruence.
Qed.


(** X6.  No run switches metadata back on: when it is disabled before a push,
    a pull or a bidirectional run, it is disabled after it. *)
Theorem metadata_switch_stays_off (dry_run incremental cleanup : bool) (w : World) :
  disable_metadata w = true ->
  disable_metadata (upload_to_s3 fnmatch self dry_run incremental cleanup w).2 = true /\
  disable_metadata (download_from_s3 fnmatch self dry_run incremental cleanup w).2 = true /\
  disable_metadata (sync_bidirectional fnmatch self dry_run cleanup w).2 = true.
Proof.
  intros Hoff.
  assert (Hstep : forall xs, disable_metadata (apply_writes xs w) = true).
  { intros xs.
    apply (apply_writes_relate
             (fun a b => disable_metadata a = true -> disable_metadata b = true)
             (fun _ => True)); auto.
    - by intros [] a _.
    - by apply Forall_true. }
  repeat split.
  - by destruct (push_writes fnmatch self dry_run incremental cleanup w) as (xs & _ & ->).
  - by destruct (pull_writes fnmatch self dry_run incremental cleanup w) as (xs & _ & ->).
  - by destruct (sync_writes fnmatch self dry_run cleanup w) as (xs & _ & ->).
Qed.

End Footprints.

Lemma push_stays_under_the_prefix_witness :
  bucket (upload_to_s3 fnmatch_posix Examples.plain_sync false true true
            (Examples.world Examples.prefs_disk Examples.stored_prefs)).2 !! "other/prefs.js"
  = bucket (Examples.world Examples.prefs_disk Examples.stored_prefs) !! "other/prefs.js".
Proof.
  apply (push_stays_under_the_prefix fnmatch_posix Examples.plain_sync false true true
           (Examples.world Examples.prefs_disk Examples.stored_prefs) "other/prefs.js");
    reflexivity.
Defined.


Lemma metadata_switch_stays_off_witness :
  disable_metadata
    (upload_to_s3 fnmatch_posix Examples.plain_sync false true true Cases.offline_world).2
  = true /\
  disable_metadata
    (download_from_s3 fnmatch_posix Examples.plain_sync false true true Cases.offline_world).2
  = true /\
  disable_metadata
    (sync_bidirectional fnmatch_posix Examples.plain_sync false true Cases.offline_world).2
  = true.
Proof.
  apply (metadata_switch_stays_off fnmatch_posix Examples.plain_sync false true true
           Cases.offline_world).
  reflexivity.
Defined.

(** ** The local listing *)

Section LocalListing.

Variable fnmatch : string -> string -> bool.
Variable self : ZenS3Sync.

Lemma scan_is_scanned (d : FileSystem) (path_type : string) :
  _scan_directory fnmatch self d (base_of self path_type) path_type
  = Ok (scanned fnmatch self d path_type).
Proof.
  unfold scanned. destruct (dir_tree d (base_of self path_type)) as [t|] eqn:Ht.
  - by apply scan_is_reached.
  - unfold _scan_directory. by rewrite Ht.
Qed.

(** The listing never raises.  Without a roaming root it is empty and an
    error is logged; otherwise it is the scan of the roaming root,
    followed by the scan of the local root when that root exists and
    cache data is synchronised. *)
Lemma get_local_files_scans (w : World) :
  get_local_files fnmatch self w =
  match dir_tree (fs w) (zen_roaming_path self) with
  | None => (Ok [], add_log RoamingDirectoryNotFound w)
  | Some _ =>
      (Ok (scanned fnmatch self (fs w) "roaming" ++
           match dir_tree (fs w) (zen_local_path self) with
           | Some _ => if sync_cache_data self then scanned fnmatch self (fs w) "local" else []
           | None => []
           end), w)
  end.
Proof.
  unfold get_local_files, mbind, M_bind, m_bind, ask, lift, modify, mret, M_ret, m_ret.
  destruct (dir_tree (fs w) (zen_roaming_path self)) as [t|] eqn:Ht; simpl; [|done].
  pose proof (scan_is_scanned (fs w) "roaming") as Hr.
  pose proof (scan_is_scanned (fs w) "local") as Hl.
  unfold base_of in Hr, Hl. simpl in Hr, Hl. rewrite Hr. simpl.
  destruct (dir_tree (fs w) (zen_local_path self)) as [t'|] eqn:Ht'; simpl;
    [|by rewrite app_nil_r].
  destruct (sync_cache_data self); simpl; [|by rewrite app_nil_r].
  by rewrite Hl.
Qed.

Lemma scanned_elem (d : FileSystem) (path_type : string) (file : LocalFile) :
  file ∈ scanned fnmatch self d path_type ->
  exists t rel,
    dir_tree d (base_of self path_type) = Some t /\
    file = (under (base_of self path_type) rel, base_of self path_type, path_type) /\
    rel ∈ tree_files t /\ keeps fnmatch self rel = true /\ unpruned fnmatch self rel.
Proof.
  unfold scanned. destruct (dir_tree d (base_of self path_type)) as [t|]; [|by intros ?%elem_of_nil].
  intros (rel & -> & Hin)%list_elem_of_fmap.
  apply reached_spec in Hin as (rel' & Hrel & ? & ? & ?). simpl in Hrel. subst rel'.
  by exists t, rel.
Qed.

Lemma get_local_files_elem (w : World) (files : list LocalFile) (file : LocalFile) :
  (get_local_files fnmatch self w).1 = Ok files -> file ∈ files ->
  exists path_type t rel,
    (path_type = "roaming"%string \/
     path_type = "local"%string /\ sync_cache_data self = true) /\
    dir_tree (fs w) (base_of self path_type) = Some t /\
    file = (under (base_of self path_type) rel, base_of self path_type, path_type) /\
    rel ∈ tree_files t /\ keeps fnmatch self rel = true /\ unpruned fnmatch self rel.
Proof.
  rewrite get_local_files_scans.
  destruct (dir_tree (fs w) (zen_roaming_path self)); simpl;
    [|intros [= <-]; by intros ?%elem_of_nil].
  intros [= <-]. intros [Hin|Hin]%elem_of_app.
  - apply scanned_elem in Hin as (tr & rel & ?). exists "roaming"%string, tr, rel. auto.
  - destruct (dir_tree (fs w) (zen_local_path self)); [|by apply elem_of_nil in Hin].
    destruct (sync_cache_data self) eqn:Hc; [|by apply elem_of_nil in Hin].
    apply scanned_elem in Hin as (tl & rel & ?). exists "local"%string, tl, rel. auto.
Qed.

(** X7.  The listing of local files never raises and never changes anything
    but the log.  Every file it returns lies in the tree of the roaming
    root or, when cache data is synchronised, of the local root; it
    passed the file test, and no directory on the way to it was skipped. *)
Theorem local_listing_is_total_and_filtered (w : World) :
  exists files w',
    get_local_files fnmatch self w = (Ok files, w') /\ only_logged w w' /\
    forall file, file ∈ files ->
      exists path_type t rel,
        (path_type = "roaming"%string \/
         path_type = "local"%string /\ sync_cache_data self = true) /\
        dir_tree (fs w) (base_of self path_type) = Some t /\
        file = (under (base_of self path_type) rel, base_of self path_type, path_type) /\
        rel ∈ tree_files t /\ keeps fnmatch self rel = true /\ unpruned fnmatch self rel.
Proof.
  destruct (get_local_files fnmatch self w) as [r w'] eqn:Hrun.
  assert (exists files, r = Ok files) as [files ->].
  { rewrite get_local_files_scans in Hrun.
    destruct (dir_tree (fs w) (zen_roaming_path self)); injection Hrun as <- <-; eauto. }
  exists files, w'. split; [done |]. split.
  - pose proof (get_local_files_only_logs fnmatch self w) as H. by rewrite Hrun in H.
  - intros file. apply get_local_files_elem. by rewrite Hrun.
Qed.

Lemma get_local_files_rooted (w : World) (files : list LocalFile) :
  (get_local_files fnmatch self w).1 = Ok files -> Forall rooted files.
Proof.
  intros Hrun. apply Forall_forall. intros file Hin.
  destruct (get_local_files_elem w files file Hrun Hin) as (ty & t & rel & _ & _ & -> & _).
  exists (mkPath false rel). apply relative_to_under.
Qed.

(** The relative key of a file of the listing starts with its role. *)
Lemma listed_relative_key (w : World) (files : list LocalFile) (file : LocalFile) (rk : string) :
  (get_local_files fnmatch self w).1 = Ok files -> file ∈ files ->
  relative_key_of file = Ok rk ->
  Str.startswith "roaming/" rk = true \/
  Str.startswith "local/" rk = true /\ sync_cache_data self = true.
Proof.
  intros Hrun Hin.
  destruct (get_local_files_elem w files file Hrun Hin)
    as (ty & t & rel & Hty & _ & -> & _).
  unfold relative_key_of. destruct Hty as [-> | [-> Hc]].
  - rewrite get_relative_s3_key_under by done. intros [= <-]. by left.
  - rewrite get_relative_s3_key_under by done. intros [= <-]. by right.
Qed.

(** X8.  With cache data left out, a push with cleanup plans the deletion of
    every listed object whose relative key does not start with
    [roaming/]: the objects under [local/] go. *)
Theorem push_cleanup_without_cache_drops_local_objects (w : World) (files : list LocalFile)
    (s3_objects : gmap string S3Info) (incremental : bool) ups skips dels
    (rk : string) (s3_info : S3Info) :
  sync_cache_data self = false ->
  (get_local_files fnmatch self w).1 = Ok files ->
  _analyze_upload_files self (fs w) files s3_objects incremental true = Ok (ups, skips, dels) ->
  s3_objects !! rk = Some s3_info ->
  Str.startswith "roaming/" rk = false ->
  (rk, s3_key s3_info, s3_size s3_info) ∈ dels.
Proof.
  intros Hcache Hfiles Hrun Hlook Hrk. unfold _analyze_upload_files in Hrun.
  destruct (for_each _ files ([], [])) as [[ups' skips']|e]; simpl in Hrun; [|done].
  destruct (cleanup_deletions files s3_objects) as [dels'|e] eqn:Hc; simpl in Hrun; [|done].
  assert (dels' = dels) as -> by congruence.
  apply (cleanup_deletions_spec _ _ _ Hc). exists rk, s3_info. repeat split; [done |].
  intros (file & Hin & Hkey).
  destruct (listed_relative_key w files file rk Hfiles Hin Hkey) as [H | [_ H]]; congruence.
Qed.

End LocalListing.

(** ** The pull analysis *)

Section PullAnalysis.

Variable fnmatch : string -> string -> bool.
Variable self : ZenS3Sync.

Lemma download_step_spec (d : FileSystem) (incremental : bool) (kv : string * S3Info)
    (downs : list DownloadItem) (skips : list SkipItem) :
  download_step self d incremental kv (downs, skips)
  = (downs ++ option_list (pull_download self d incremental kv),
     skips ++ option_list (pull_skip self d incremental kv)).
Proof.
  destruct kv as [rk s3_info]. unfold download_step, pull_download, pull_skip, pull_unchanged.
  simpl. destruct (_get_download_path self rk) as [p|]; simpl; [|by rewrite !app_nil_r].
  destruct (incremental && local_exists _ && negb _); simpl; by rewrite app_nil_r.
Qed.

Lemma download_loop (d : FileSystem) (incremental : bool) (l : list (string * S3Info))
    (downs : list DownloadItem) (skips : list SkipItem) :
  fold_left (fun acc kv => download_step self d incremental kv acc) l (downs, skips)
  = (downs ++ omap (pull_download self d incremental) l,
     skips ++ omap (pull_skip self d incremental) l).
Proof.
  revert downs skips. induction l as [|kv l IH]; intros downs skips.
  - simpl. by rewrite !app_nil_r.
  - rewrite !omap_cons_list. cbn [fold_left]. rewrite download_step_spec, IH.
    by rewrite <- !app_assoc.
Qed.

Lemma local_deletion_step_spec (d : FileSystem) (s3_objects : gmap string S3Info)
    (file : LocalFile) (dels : list DeleteLocalItem) :
  rooted file ->
  local_deletion_step d s3_objects file dels
  = Ok (dels ++ option_list (local_deletion d s3_objects file)).
Proof.
  intros Hroot. destruct (rooted_keys self file Hroot) as [_ [rk Hrk]].
  destruct file as [[file_path base_path] path_type].
  unfold local_deletion_step, local_deletion. rewrite Hrk.
  unfold relative_key_of in Hrk. rewrite Hrk. simpl.
  destruct (s3_objects !! rk); simpl; [by rewrite app_nil_r |].
  destruct (_get_file_info d file_path); simpl; by rewrite ?app_nil_r.
Qed.

Lemma local_deletion_loop (d : FileSystem) (s3_objects : gmap string S3Info)
    (files : list LocalFile) (dels : list DeleteLocalItem) :
  Forall rooted files ->
  for_each (local_deletion_step d s3_objects) files dels
  = Ok (dels ++ omap (local_deletion d s3_objects) files).
Proof.
  intros Hroot. revert dels. induction Hroot as [|file files Hfile _ IH]; intros dels.
  - simpl. by rewrite app_nil_r.
  - rewrite omap_cons_list. cbn [for_each]. rewrite local_deletion_step_spec by done.
    cbn [rbind]. by rewrite IH, <- app_assoc.
Qed.

Lemma get_local_files_total (w : World) :
  exists files w', get_local_files fnmatch self w = (Ok files, w').
Proof.
  rewrite get_local_files_scans. destruct (dir_tree (fs w) (zen_roaming_path self)); eauto.
Qed.

(** The analysis never raises: its three lists, and the world after it. *)
Lemma pull_analysis_runs (s3_objects : gmap string S3Info) (incremental cleanup : bool)
    (w : World) :
  exists files,
    (get_local_files fnmatch self w).1 = Ok files /\
    _analyze_download_files fnmatch self s3_objects incremental cleanup w
    = (Ok (omap (pull_download self (fs w) incremental) (map_to_list s3_objects),
           omap (pull_skip self (fs w) incremental) (map_to_list s3_objects),
           if cleanup then omap (local_deletion (fs w) s3_objects) files else []),
       if cleanup then (get_local_files fnmatch self w).2 else w).
Proof.
  destruct (get_local_files_total w) as (files & w' & Hrun).
  exists files. rewrite Hrun. split; [done |].
  unfold _analyze_download_files, mbind, M_bind, m_bind, ask, lift, mret, M_ret, m_ret.
  rewrite download_loop. simpl. destruct cleanup; [|done].
  rewrite Hrun. simpl. rewrite local_deletion_loop; [done |].
  apply (get_local_files_rooted fnmatch self w). by rewrite Hrun.
Qed.

(** X9.  What the pull analysis plans for a listed key.  A key the mapping
    rejects (a [local/] key while cache data is left out) is not
    downloaded.  Any other key is skipped when the run is incremental, the
    local file exists and the comparator finds no difference, and is
    downloaded otherwise: a missing local file is always downloaded, and
    a full run skips nothing.  Without [cleanup] no deletion is planned. *)
Theorem pull_analysis_plan (s3_objects : gmap string S3Info) (incremental cleanup : bool)
    (w : World) (downs : list DownloadItem) (skips : list SkipItem)
    (dels : list DeleteLocalItem) :
  (_analyze_download_files fnmatch self s3_objects incremental cleanup w).1
  = Ok (downs, skips, dels) ->
  (forall rk s3_info,
     s3_objects !! rk = Some s3_info ->
     match _get_download_path self rk with
     | None => forall item : DownloadItem, item ∈ downs -> item.2 <> rk
     | Some local_path =>
         let local_info := _get_file_info (fs w) local_path in
         let download : DownloadItem := (local_path, s3_key s3_info, s3_size s3_info, rk) in
         let skip : SkipItem := (local_path, s3_key s3_info, s3_size s3_info) in
         if incremental && local_exists local_info
            && negb (_files_are_different local_info s3_info)
         then skip ∈ skips /\ (download ∉ downs)
         else download ∈ downs
     end) /\
  (forall item : DownloadItem, item ∈ downs ->
     exists s3_info, s3_objects !! item.2 = Some s3_info /\
                     _get_download_path self item.2 = Some item.1.1.1) /\
  (incremental = false -> skips = []) /\
  (cleanup = false -> dels = []).
Proof.
  destruct (pull_analysis_runs s3_objects incremental cleanup w) as (files & _ & ->).
  simpl. intros [= <- <- <-].
  assert (Hdown : forall item rk s3_info,
            s3_objects !! rk = Some s3_info -> item.2 = rk ->
            item ∈ omap (pull_download self (fs w) incremental) (map_to_list s3_objects) ->
            pull_download self (fs w) incremental (rk, s3_info) = Some item).
  { intros item rk s3_info Hlook Hrk ([rk' info'] & Hin & Hsome)%list_elem_of_omap.
    assert (rk' = rk) as ->.
    { revert Hsome. unfold pull_download. simpl.
      destruct (_get_download_path self rk'); [|done].
      destruct (pull_unchanged _ _ _ _); [done |]. intros [= <-]. by simpl in Hrk. }
    apply elem_of_map_to_list in Hin. by assert (info' = s3_info) as -> by congruence. }
  repeat split.
  - intros rk s3_info Hlook.
    assert (Hin : (rk, s3_info) ∈ map_to_list s3_objects) by (by apply elem_of_map_to_list).
    destruct (_get_download_path self rk) as [p|] eqn:Hpath.
    + simpl. destruct (incremental && _ && negb _) eqn:Hsame.
      * split.
        -- apply list_elem_of_omap. exists (rk, s3_info). split; [done |].
           unfold pull_skip, pull_unchanged. simpl. by rewrite Hpath, Hsame.
        -- intros Hd. apply (Hdown (p, s3_key s3_info, s3_size s3_info, rk) rk s3_info Hlook eq_refl) in Hd.
           revert Hd.
           unfold pull_download, pull_unchanged. simpl. by rewrite Hpath, Hsame.
      * apply list_elem_of_omap. exists (rk, s3_info). split; [done |].
        unfold pull_download, pull_unchanged. simpl. by rewrite Hpath, Hsame.
    + intros item Hd Hrk. apply (Hdown _ rk s3_info Hlook Hrk) in Hd. revert Hd.
      unfold pull_download. simpl. by rewrite Hpath.
  - intros item ([rk s3_info] & Hin & Hsome)%list_elem_of_omap.
    apply elem_of_map_to_list in Hin. revert Hsome. unfold pull_download. simpl.
    destruct (_get_download_path self rk) as [p|] eqn:Hpath; [|done].
    destruct (pull_unchanged _ _ _ _); [done |]. intros [= <-]. simpl. eauto.
  - intros ->. clear Hdown. induction (map_to_list s3_objects) as [|kv l IH]; [done |].
    rewrite omap_cons_list, IH. unfold pull_skip, pull_unchanged. simpl.
    by destruct (_get_download_path self kv.1).
  - by intros ->.
Qed.

(** X10.  What pull cleanup plans to delete: exactly the files of the local
    listing that still exist and whose relative key is not listed.  So
    a file the listing filters out is never deleted, and neither is a file
    whose key is listed. *)
Theorem pull_cleanup_plan (s3_objects : gmap string S3Info) (incremental : bool)
    (w : World) (downs : list DownloadItem) (skips : list SkipItem)
    (dels : list DeleteLocalItem) :
  (_analyze_download_files fnmatch self s3_objects incremental true w).1
  = Ok (downs, skips, dels) ->
  exists files,
    (get_local_files fnmatch self w).1 = Ok files /\
    forall item : DeleteLocalItem,
      item ∈ dels <->
      exists base_path path_type mtime,
        (item.1.1, base_path, path_type) ∈ files /\
        _get_relative_s3_key item.1.1 base_path path_type = Ok item.1.2 /\
        s3_objects !! item.1.2 = None /\
        stat (fs w) item.1.1 = Some (item.2, mtime).
Proof.
  destruct (pull_analysis_runs s3_objects incremental true w) as (files & Hfiles & ->).
  simpl. intros [= <- <- <-]. exists files. split; [done |].
  intros [[file_path rk] size]. rewrite list_elem_of_omap. simpl. split.
  - intros ([[p base_path] path_type] & Hin & Hsome). revert Hsome.
    unfold local_deletion, relative_key_of, _get_file_info. simpl.
    destruct (_get_relative_s3_key p base_path path_type) as [rk'|] eqn:Hkey; [|done].
    destruct (s3_objects !! rk') eqn:Hlook; [done |].
    destruct (stat (fs w) p) as [[size' mtime]|] eqn:Hstat; [|done].
    intros [= <- <- <-]. by exists base_path, path_type, mtime.
  - intros (base_path & path_type & mtime & Hin & Hkey & Hlook & Hstat).
    exists (file_path, base_path, path_type). split; [done |].
    unfold local_deletion, relative_key_of, _get_file_info. simpl.
    by rewrite Hkey, Hlook, Hstat.
Qed.

End PullAnalysis.

(** ** Keys on one side only, and the full push *)

Section OneSided.

Variable self : ZenS3Sync.

(** Every step of a loop that returned had returned. *)
Lemma for_each_steps {X S} (body : X -> S -> result S) (l : list X) (s s' : S) :
  for_each body l s = Ok s' ->
  forall a, a ∈ l -> exists s1 s2, body a s1 = Ok s2.
Proof.
  revert s. induction l as [|x l IH]; intros s Hrun a Hin; [by apply elem_of_nil in Hin |].
  simpl in Hrun. destruct (body x s) as [s1|e] eqn:Hx; simpl in Hrun; [|done].
  apply elem_of_cons in Hin as [->|Hin]; [eauto | by eapply IH].
Qed.

(** X11.  What the bidirectional analysis plans for a key found on one side
    only.  A file without remote object is uploaded, under the key the
    key builder gives it from the root of its path type.  An object
    without local file is downloaded to the path the mapping gives for
    its key; when the mapping rejects the key (a [local/] key while cache
    data is left out) it is not downloaded.  Such keys are never skipped. *)
Theorem bidirectional_one_sided_keys (local_lookup : gmap string LocalEntry)
    (s3_objects : gmap string S3Info)
    (ups : list UploadItem) (downs : list DownloadItem) (skips : list BidiSkipItem) :
  _analyze_bidirectional_sync self local_lookup s3_objects = Ok (ups, downs, skips) ->
  (forall k e,
     local_lookup !! k = Some e -> s3_objects !! k = None ->
     exists key size mtime hash,
       _get_s3_key self (le_path e) (base_of self (le_path_type e)) (le_path_type e) = Ok key /\
       le_info e = info_file size mtime hash /\
       (le_path e, key, size, le_path_type e) ∈ ups) /\
  (forall k r,
     s3_objects !! k = Some r -> local_lookup !! k = None ->
     match _get_download_path self k with
     | Some local_path => (local_path, s3_key r, s3_size r, k) ∈ downs
     | None => forall item : DownloadItem, item ∈ downs -> item.2 <> k
     end) /\
  (forall item : BidiSkipItem, item ∈ skips ->
     is_Some (local_lookup !! item.1.1) /\ is_Some (s3_objects !! item.1.1)).
Proof.
  intros Hrun. pose proof (analysis_lists self _ _ _ _ _ Hrun) as (-> & -> & ->).
  split; [|split].
  - intros k e He Hr.
    assert (Hin : (k, e) ∈ only_local local_lookup s3_objects) by (by apply only_local_elem).
    unfold _analyze_bidirectional_sync in Hrun.
    destruct (for_each both_step _ _) as [acc1|] eqn:H1; simpl in Hrun; [|done].
    destruct (for_each (local_step self) _ acc1) as [acc2|] eqn:H2; simpl in Hrun; [|done].
    destruct (for_each_steps _ _ _ _ H2 _ Hin) as ([[u d] s] & s2 & Hstep).
    rewrite local_step_spec in Hstep. simpl in Hstep.
    destruct (_get_s3_key self (le_path e) _ _) as [key|] eqn:Hkey; [|done].
    destruct (le_info e) as [|size mtime hash] eqn:Hinfo; [done |].
    exists key, size, mtime, hash. split; [done |]. split; [done |].
    apply elem_of_app. right. apply list_elem_of_omap. exists (k, e). split; [done |].
    unfold local_upload. simpl. by rewrite Hkey, Hinfo.
  - intros k r Hr He.
    assert (Hin : (k, r) ∈ only_remote local_lookup s3_objects) by (by apply only_remote_elem).
    destruct (_get_download_path self k) as [p|] eqn:Hpath.
    + apply elem_of_app. right. apply list_elem_of_omap. exists (k, r). split; [done |].
      unfold remote_download. simpl. by rewrite Hpath.
    + intros item [Hd|Hd]%elem_of_app Hk.
      * apply list_elem_of_omap in Hd as ([k' [e' r']] & [He' _]%both_sides_elem & Hsome).
        destruct item as [[[p key] size] rk]. simpl in Hk. subst rk.
        apply both_download_Some in Hsome as (? & ? & ? & _ & _ & _ & [= _ _ _ ->]).
        congruence.
      * apply list_elem_of_omap in Hd as ([k' r'] & _ & Hsome).
        pose proof (remote_download_key self _ _ Hsome) as Hk'. simpl in Hk'.
        revert Hsome. unfold remote_download. simpl.
        assert (k' = k) as -> by congruence. by rewrite Hpath.
  - intros item ([k [e r]] & [He Hr]%both_sides_elem & Hsome)%list_elem_of_omap.
    apply both_skip_Some in Hsome as (? & ? & ? & _ & _ & ->). simpl. eauto.
Qed.

(** X12.  A full push (not incremental) skips nothing, whatever the bucket
    holds: it plans one upload for every file of the listing, in the
    order of the listing, under the key the key builder gives the file and
    with the size of the file. *)
Theorem full_push_uploads_every_file (d : FileSystem) (files : list LocalFile)
    (s3_objects : gmap string S3Info) (cleanup : bool) ups skips dels :
  _analyze_upload_files self d files s3_objects false cleanup = Ok (ups, skips, dels) ->
  skips = [] /\
  Forall2 (fun (file : LocalFile) (item : UploadItem) =>
             exists key mtime,
               _get_s3_key self file.1.1 file.1.2 file.2 = Ok key /\
               stat d file.1.1 = Some (item.1.2, mtime) /\
               item = (file.1.1, key, item.1.2, file.2))
          files ups.
Proof.
  unfold _analyze_upload_files.
  destruct (for_each _ files ([], [])) as [[ups' skips']|e] eqn:Hloop; simpl; [|done].
  intros Hdel.
  assert (ups' = ups /\ skips' = skips) as [-> ->].
  { destruct cleanup; [destruct (cleanup_deletions files s3_objects)|];
      simpl in Hdel; split; congruence. }
  clear Hdel.
  assert (Hgen : forall (u : list UploadItem) (s : list SkipItem) u' s',
            for_each (upload_step self d s3_objects false) files (u, s) = Ok (u', s') ->
            s' = s /\ exists new, u' = u ++ new /\
              Forall2 (fun (file : LocalFile) (item : UploadItem) =>
                         exists key mtime,
                           _get_s3_key self file.1.1 file.1.2 file.2 = Ok key /\
                           stat d file.1.1 = Some (item.1.2, mtime) /\
                           item = (file.1.1, key, item.1.2, file.2))
                      files new).
  { clear Hloop. induction files as [|[[file_path base_path] path_type] files IH];
      intros u s u' s'.
    - simpl. intros [= <- <-]. split; [done |]. exists []. by rewrite app_nil_r.
    - cbn [for_each]. unfold upload_step at 1.
      destruct (_get_s3_key self file_path base_path path_type) as [key|] eqn:Hkey;
        simpl; [|done].
      destruct (_get_relative_s3_key file_path base_path path_type); simpl; [|done].
      unfold _get_file_info.
      destruct (stat d file_path) as [[size mtime]|] eqn:Hstat; simpl; [|done].
      intros (-> & new & -> & Hnew)%IH. split; [done |].
      exists ((file_path, key, size, path_type) :: new). rewrite <- app_assoc.
      split; [done |]. constructor; [|done]. simpl. by exists key, mtime. }
  apply Hgen in Hloop as (-> & new & -> & Hnew). by split.
Qed.

End OneSided.

(** ** Numerals *)






(** ** One upload, one download *)

Section Transfers.


(** X14.  With metadata switched off an upload stores the object without
    metadata, logs nothing and saves nothing; when it fails the world is
    as before. *)
Theorem switched_off_uploads_carry_no_metadata (file_path : Path) (s3_key path_type : string)
    (w : World) :
  disable_metadata w = true ->
  match _upload_file file_path s3_key path_type w with
  | (Ok _, w') =>
      exists obj, obj_metadata obj = ∅ /\ w' = set_bucket (<[s3_key := obj]> (bucket w)) w
  | (Raise _, w') => w' = w
  end.
Proof.
  intros Hflag.
  unfold _upload_file, open_file, put_object,
    mbind, M_bind, m_bind, ask, raise, modify, mret, M_ret, m_ret.
  rewrite Hflag. simpl.
  destruct (stat (fs w) file_path) as [[size mtime]|]; simpl; [|done].
  destruct (s3_fault w (PutObject s3_key false)); simpl; [done |].
  eexists. split; [|reflexivity]. done.
Qed.



End Transfers.

(** ** Keys that name an absolute path *)

Section AbsoluteKeys.

Variable fnmatch : string -> string -> bool.
Variable self : ZenS3Sync.

Lemma get_download_path_absolute (s : string) :
  Str.startswith "/" s = true ->
  _get_download_path self ("roaming/" +:+ s) = Some (parse_path s).
Proof.
  intros Hs. unfold _get_download_path.
  change (Str.startswith "roaming/" ("roaming/" +:+ s)) with true. cbv iota.
  change (Str.drop 8 ("roaming/" +:+ s)) with s. unfold joinpath. by rewrite Hs.
Qed.

(** X16.  The mapping from keys to local paths does not confine a download to
    the profile roots.  When the part of a listed key after [roaming/]
    starts with a slash, a full pull plans to download the object to the
    absolute path that this part names. *)
Theorem pull_follows_absolute_keys (s3_objects : gmap string S3Info) (cleanup : bool)
    (w : World) (downs : list DownloadItem) (skips : list SkipItem)
    (dels : list DeleteLocalItem) (s : string) (s3_info : S3Info) :
  (_analyze_download_files fnmatch self s3_objects false cleanup w).1
  = Ok (downs, skips, dels) ->
  s3_objects !! ("roaming/" +:+ s) = Some s3_info ->
  Str.startswith "/" s = true ->
  (parse_path s, s3_key s3_info, s3_size s3_info, "roaming/" +:+ s) ∈ downs /\
  absolute (parse_path s) = true.
Proof.
  intros Hrun Hlook Hs.
  destruct (pull_analysis_runs fnmatch self s3_objects false cleanup w) as (files & _ & Heq).
  rewrite Heq in Hrun. simpl in Hrun. injection Hrun as <- _ _.
  split; [|done].
  apply list_elem_of_omap. exists ("roaming/" +:+ s, s3_info).
  split; [by apply elem_of_map_to_list |].
  unfold pull_download, pull_unchanged. cbn [fst snd].
  by rewrite get_download_path_absolute.
Qed.

End AbsoluteKeys.

(** ** Batches *)

Section Batches.






End Batches.

(** ** The configuration file *)

Module ConfigFacts.
Import Config.

Lemma dict_get_set (d : list (string * json)) (key key' : string) (v : json) :
  dict_get (dict_set d key v) key'
  = if decide (key = key') then Some v else dict_get d key'.
Proof.
  induction d as [|[k x] d IH]; simpl.
  - by destruct (decide (key = key')).
  - destruct (decide (k = key)) as [->|Hne]; simpl.
    + by destruct (decide (key = key')).
    + destruct (decide (k = key')) as [->|]; [by rewrite decide_False by done | done].
Qed.

Lemma dict_get_set_eq (d : list (string * json)) (key : string) (v : json) :
  dict_get (dict_set d key v) key = Some v.
Proof. by rewrite dict_get_set, decide_True. Qed.

Lemma dict_get_set_ne (d : list (string * json)) (key key' : string) (v : json) :
  key <> key' -> dict_get (dict_set d key v) key' = dict_get d key'.
Proof. intros. by rewrite dict_get_set, decide_False. Qed.

Lemma merge_subkey_step (default_section : json) (key : string) (sub : string * json)
    (d s : list (string * json)) :
  dict_get d key = Some (JDict s) ->
  merge_subkey default_section key sub (JDict d)
  = match dict_get s sub.1 with
    | Some _ => Some (JDict d)
    | None =>
        match getitem default_section sub.1 with
        | Some v => Some (JDict (dict_set d key (JDict (dict_set s sub.1 v))))
        | None => None
        end
    end.
Proof.
  intros Hs. unfold merge_subkey. simpl. rewrite Hs. simpl.
  destruct (dict_get s sub.1) as [v|] eqn:Hsub.
  - by rewrite bool_decide_true by eauto.
  - rewrite bool_decide_false by (by intros [? ?]). simpl.
    by destruct (getitem default_section sub.1).
Qed.

(** The inner loop over the rest [subs] of a default section: every key
    of [subs] that the section lacks is filled in from the defaults. *)
Lemma merge_subkeys (default_section : json) (key : string) (subs : list (string * json)) :
  (forall sub, sub ∈ subs -> is_Some (getitem default_section sub.1)) ->
  forall d s,
    dict_get d key = Some (JDict s) ->
    exists d' s',
      for_each_item (merge_subkey default_section key) subs (JDict d) = Some (JDict d') /\
      dict_get d' key = Some (JDict s') /\
      (forall k, k <> key -> dict_get d' k = dict_get d k) /\
      (forall k, dict_get s' k
                 = match dict_get s k with
                   | Some v => Some v
                   | None => if bool_decide (k ∈ subs.*1) then getitem default_section k
                             else None
                   end).
Proof.
  induction subs as [|sub subs IH]; intros Hdef d s Hs.
  - exists d, s. repeat split; [done |]. intros k. by destruct (dict_get s k).
  - cbn [for_each_item]. rewrite (merge_subkey_step _ _ _ _ _ Hs).
    assert (Hrest : forall x, x ∈ subs -> is_Some (getitem default_section x.1))
      by (intros x Hx; apply Hdef; by right).
    assert (Hmem : forall k, k <> sub.1 ->
              bool_decide (k ∈ (sub :: subs).*1) = bool_decide (k ∈ subs.*1)).
    { intros k Hne. rewrite fmap_cons. apply bool_decide_ext. rewrite elem_of_cons. tauto. }
    destruct (dict_get s sub.1) as [v|] eqn:Hsub.
    + cbn [mbind option_bind].
      destruct (IH Hrest d s Hs) as (d' & s' & -> & Hkey & Hother & Hsec).
      exists d', s'. repeat split; try done. intros k. rewrite Hsec.
      destruct (dict_get s k) eqn:Hk; [done |].
      rewrite Hmem; [done | congruence].
    + destruct (Hdef sub) as [v Hv]; [by left |]. rewrite Hv. cbn [mbind option_bind].
      destruct (IH Hrest (dict_set d key (JDict (dict_set s sub.1 v))) (dict_set s sub.1 v))
        as (d' & s' & -> & Hkey & Hother & Hsec); [apply dict_get_set_eq |].
      exists d', s'. repeat split; try done.
      * intros k Hk. rewrite Hother by done. by apply dict_get_set_ne.
      * intros k. rewrite Hsec, dict_get_set.
        destruct (decide (sub.1 = k)) as [<-|Hne].
        -- rewrite Hsub. rewrite bool_decide_true; [done |]. rewrite fmap_cons. by left.
        -- destruct (dict_get s k); [done |]. rewrite Hmem; [done | congruence].
Qed.

Lemma dict_get_None (d : list (string * json)) (key : string) :
  key ∉ d.*1 -> dict_get d key = None.
Proof.
  induction d as [|[k v] d IH]; [done |]. simpl. intros [Hne Hin]%not_elem_of_cons.
  rewrite decide_False by done. by apply IH.
Qed.

Lemma dict_get_elem (d : list (string * json)) (kv : string * json) :
  kv ∈ d -> is_Some (dict_get d kv.1).
Proof.
  induction d as [|[k v] d IH]; [by intros ?%elem_of_nil |].
  intros [->|Hin]%elem_of_cons; simpl.
  - rewrite decide_True by done. eauto.
  - destruct (decide (k = kv.1)); eauto.
Qed.

(** One round of the outer loop, for a section the file gives as a
    dictionary or not at all. *)
Lemma merge_key_spec (key : string) (subs d : list (string * json)) :
  section_ok d key = true ->
  exists d',
    merge_key (key, JDict subs) (JDict d) = Some (JDict d') /\
    (forall k, k <> key -> dict_get d' k = dict_get d k) /\
    (forall sub, getitem2 (JDict d') key sub
                 = match getitem2 (JDict d) key sub with
                   | Some v => Some v
                   | None => dict_get subs sub
                   end).
Proof.
  unfold section_ok, merge_key, getitem2. simpl.
  destruct (dict_get d key) as [v|] eqn:Hkey.
  - destruct v as [| | | | |s]; try done. intros _.
    rewrite bool_decide_true by eauto. simpl.
    destruct (merge_subkeys (JDict subs) key subs) with (d := d) (s := s)
      as (d' & s' & -> & Hkey' & Hother & Hsec); [|done |].
    { intros sub Hin. by apply dict_get_elem. }
    exists d'. repeat split; [done |]. intros sub. rewrite Hkey'. simpl. rewrite Hsec.
    destruct (dict_get s sub); [done |]. simpl.
    destruct (decide (sub ∈ subs.*1)).
    + by rewrite bool_decide_true.
    + rewrite bool_decide_false by done. symmetry. by apply dict_get_None.
  - intros _. rewrite bool_decide_false by (by intros [? ?]). simpl.
    exists (dict_set d key (JDict subs)). repeat split.
    + intros k Hk. by apply dict_get_set_ne.
    + intros sub. by rewrite dict_get_set_eq.
Qed.

Lemma merge_subkey_frame (default_section : json) (key : string) (sub : string * json)
    (d : list (string * json)) (c : json) :
  merge_subkey default_section key sub (JDict d) = Some c ->
  exists d', c = JDict d' /\ forall k, k <> key -> dict_get d' k = dict_get d k.
Proof.
  unfold merge_subkey. simpl.
  destruct (dict_get d key) as [section|]; simpl; [|done].
  destruct (contains section sub.1) as [[]|]; simpl; [by intros [= <-]; eauto | | done].
  destruct (getitem default_section sub.1) as [v|]; simpl; [|done].
  destruct (setitem section sub.1 v) as [section'|]; simpl; [|done].
  intros [= <-]. eexists. split; [done |]. intros k Hk. by apply dict_get_set_ne.
Qed.

(** A round that returns leaves a dictionary, and the other keys alone. *)
Lemma merge_key_frame (key : string) (subs d : list (string * json)) (c : json) :
  merge_key (key, JDict subs) (JDict d) = Some c ->
  exists d', c = JDict d' /\ forall k, k <> key -> dict_get d' k = dict_get d k.
Proof.
  unfold merge_key. cbn [fst snd contains mbind option_bind].
  destruct (bool_decide (is_Some (dict_get d key))); cbn [negb].
  - generalize subs at 2. intros l. revert d c.
    induction l as [|sub l IH]; intros d c; cbn [for_each_item].
    + intros [= <-]. eauto.
    + destruct (merge_subkey (JDict subs) key sub (JDict d)) as [c1|] eqn:Hstep;
        cbn [mbind option_bind]; [|done].
      apply merge_subkey_frame in Hstep as (d1 & -> & Hother1).
      intros (d' & -> & Hother)%IH. exists d'. split; [done |].
      intros k Hk. rewrite Hother by done. by apply Hother1.
  - intros [= <-]. eexists. split; [done |]. intros k Hk. by apply dict_get_set_ne.
Qed.

(** A section that is [null], a boolean or a number stops the merge. *)
Lemma merge_key_scalar (key : string) (sub : string * json) (subs d : list (string * json))
    (v : json) :
  dict_get d key = Some v -> scalar v = true ->
  merge_key (key, JDict (sub :: subs)) (JDict d) = None.
Proof.
  intros Hkey Hv. unfold merge_key. simpl.
  rewrite bool_decide_true by eauto. simpl. unfold merge_subkey. simpl. rewrite Hkey. simpl.
  by destruct v.
Qed.

(** A configuration that is not an object stops the merge. *)
Lemma merge_key_not_dict (key : string) (sub : string * json) (subs : list (string * json))
    (config : json) :
  (forall d, config <> JDict d) ->
  merge_key (key, JDict (sub :: subs)) config = None.
Proof.
  intros Hnot. unfold merge_key. cbn [fst snd].
  destruct config as [| | |s|l|d]; try done; [| |by destruct (Hnot d)].
  - cbn [contains mbind option_bind]. by destruct (Str.contains key s).
  - cbn [contains mbind option_bind]. by destruct (existsb _ l).
Qed.

(** X19.  When the file is missing, cannot be read or parsed, or does not hold
    an object, the defaults are used.  They are also used, and every
    setting of the file is dropped, when the file gives [aws] or [sync]
    as [null], a boolean or a number. *)
Theorem load_config_falls_back_to_defaults :
  load_config Missing = JDict default_config /\
  load_config Unreadable = JDict default_config /\
  (forall config, (forall d, config <> JDict d) ->
     load_config (Parsed config) = JDict default_config) /\
  (forall d key v,
     key = "aws"%string \/ key = "sync"%string ->
     dict_get d key = Some v -> scalar v = true ->
     load_config (Parsed (JDict d)) = JDict default_config).
Proof.
  split; [done |]. split; [done |]. split.
  - intros config Hnot. unfold load_config, default_config. cbn [for_each_item].
    by rewrite merge_key_not_dict.
  - intros d key v Hkey Hget Hv. unfold load_config, default_config. cbn [for_each_item].
    destruct Hkey as [-> | ->].
    + by rewrite (merge_key_scalar _ _ _ _ _ Hget Hv).
    + destruct (merge_key ("aws"%string, _) (JDict d)) as [c|] eqn:Haws; simpl; [|done].
      apply merge_key_frame in Haws as (d' & -> & Hother).
      rewrite (merge_key_scalar _ _ _ _ v); [done | | done].
      by rewrite Hother.
Qed.

(** X20.  When the file holds an object that gives [aws] and [sync] as objects,
    or not at all, the loaded configuration keeps every value of the file
    and fills in the defaults for what the file lacks: [config[key][sub]]
    is the value of the file when it has one and the default otherwise,
    and keys the defaults do not know are kept. *)
Theorem load_config_merges_with_defaults (d : list (string * json)) :
  section_ok d "aws" = true -> section_ok d "sync" = true ->
  exists d',
    load_config (Parsed (JDict d)) = JDict d' /\
    (forall key sub,
       key = "aws"%string \/ key = "sync"%string ->
       getitem2 (JDict d') key sub
       = match getitem2 (JDict d) key sub with
         | Some v => Some v
         | None => getitem2 (JDict default_config) key sub
         end) /\
    (forall key, key <> "aws"%string -> key <> "sync"%string ->
       dict_get d' key = dict_get d key).
Proof.
  intros Haws Hsync. unfold load_config, default_config. cbn [for_each_item].
  lazymatch goal with
  | |- context [merge_key ("aws"%string, JDict ?subs) (JDict d)] =>
      destruct (merge_key_spec "aws" subs d Haws) as (d1 & -> & Hother1 & Hsec1)
  end.
  cbn [mbind option_bind].
  assert (Hsync1 : section_ok d1 "sync" = true).
  { unfold section_ok. by rewrite Hother1. }
  lazymatch goal with
  | |- context [merge_key ("sync"%string, JDict ?subs) (JDict d1)] =>
      destruct (merge_key_spec "sync" subs d1 Hsync1) as (d2 & -> & Hother2 & Hsec2)
  end.
  cbn [mbind option_bind].
  exists d2. split; [done |]. split.
  - intros key sub [-> | ->].
    + transitivity (getitem2 (JDict d1) "aws" sub).
      { unfold getitem2. cbn [getitem]. by rewrite Hother2. }
      rewrite Hsec1. by destruct (getitem2 (JDict d) "aws" sub).
    + rewrite Hsec2.
      assert (getitem2 (JDict d1) "sync" sub = getitem2 (JDict d) "sync" sub) as ->.
      { unfold getitem2. cbn [getitem]. by rewrite Hother1. }
      by destruct (getitem2 (JDict d) "sync" sub).
  - intros key Ha Hs. rewrite Hother2, Hother1 by done. done.
Qed.

End ConfigFacts.

(** ** The command line *)

Module CliFacts.
Import Config ConfigFacts Cli.

Lemma setitem2_sections (config : json) (key subkey : string) (v : json) :
  sections config -> key = "aws"%string \/ key = "sync"%string ->
  exists config',
    setitem2 config key subkey v = Some config' /\ sections config' /\
    forall k s, getitem2 config' k s
                = if String.eqb key k && String.eqb subkey s then Some v
                  else getitem2 config k s.
Proof.
  intros (d & a & s & -> & Ha & Hs) Hkey.
  assert (exists x, dict_get d key = Some (JDict x)) as [x Hx]
    by (destruct Hkey as [-> | ->]; eauto).
  unfold setitem2. cbn [getitem]. rewrite Hx. cbn [mbind option_bind setitem].
  eexists. split; [reflexivity |]. split.
  - exists (dict_set d key (JDict (dict_set x subkey v))).
    destruct Hkey as [-> | ->].
    + exists (dict_set x subkey v), s. split; [done |].
      rewrite dict_get_set_eq, dict_get_set_ne by done. done.
    + exists a, (dict_set x subkey v). split; [done |].
      rewrite dict_get_set_eq, dict_get_set_ne by done. done.
  - intros k s'. unfold getitem2. cbn [getitem]. rewrite dict_get_set.
    destruct (decide (key = k)) as [<- | Hne].
    + rewrite String.eqb_refl, Hx. cbn [mbind option_bind getitem andb].
      rewrite dict_get_set.
      destruct (decide (subkey = s')) as [<- | Hne'].
      * by rewrite String.eqb_refl.
      * by apply String.eqb_neq in Hne' as ->.
    + by apply String.eqb_neq in Hne as ->.
Qed.

Lemma assign_sections (cond : bool) (key subkey : string) (v : json) (config : json) :
  sections config -> key = "aws"%string \/ key = "sync"%string ->
  exists config',
    assign cond key subkey v config = Some config' /\ sections config' /\
    forall k s, getitem2 config' k s
                = if cond && String.eqb key k && String.eqb subkey s then Some v
                  else getitem2 config k s.
Proof.
  intros Hsec Hkey. unfold assign. destruct cond.
  - destruct (setitem2_sections config key subkey v Hsec Hkey) as (c' & -> & ? & Hget).
    exists c'. repeat split; try done.
  - exists config. by repeat split.
Qed.

(** Run the next conditional assignment of a handler. *)
Ltac assign_step :=
  lazymatch goal with
  | Hs : sections ?cfg |- context [assign ?c ?k ?s ?v ?cfg] =>
      let c' := fresh "config" in
      let Hs' := fresh "Hsections" in
      let Hg := fresh "Hget" in
      destruct (assign_sections c k s v cfg Hs ltac:(auto)) as (c' & -> & Hs' & Hg);
      cbn [mbind option_bind]; clear Hs
  end.

(** Read a setting back through the assignments made so far. *)
Ltac read_back :=
  repeat match goal with
         | H : forall k s, getitem2 ?c k s = _ |- context [getitem2 ?c _ _] => rewrite H
         end;
  cbn [String.eqb Ascii.eqb Bool.eqb andb];
  rewrite ?andb_true_r, ?andb_false_r; cbv iota.

(** X21.  What [configure] saves and shows, for a configuration whose two
    sections are dictionaries.  [--profile] clears both stored keys, also
    keys given in the same call.  Of the two cache flags the disabling
    one wins, of the two metadata flags the enabling one.  A detected
    path wins over a path given on the command line.  An option that is
    absent or empty leaves its setting as it was.  The secret key is
    saved as given and shown as [***HIDDEN***]; the access key is shown
    as saved. *)
Theorem configure_precedence (args : Namespace) (auto_paths : string * string)
    (config : json) :
  sections config ->
  exists saved displayed,
    handle_configure args auto_paths config = Some (saved, displayed) /\
    (truthy (args_profile args) = true ->
     getitem2 saved "aws" "profile" = Some (given (args_profile args)) /\
     getitem2 saved "aws" "access_key_id" = Some (JStr "") /\
     getitem2 saved "aws" "secret_access_key" = Some (JStr "")) /\
    (args_disable_cache_sync args = true ->
     getitem2 saved "sync" "sync_cache_data" = Some (JBool false)) /\
    (args_enable_metadata args = true ->
     getitem2 saved "aws" "disable_metadata" = Some (JBool false)) /\
    (args_auto_detect args = true -> truthy (Some auto_paths.1) = true ->
     getitem2 saved "sync" "zen_roaming_path" = Some (JStr auto_paths.1)) /\
    (truthy (args_bucket args) = false ->
     getitem2 saved "aws" "bucket" = getitem2 config "aws" "bucket") /\
    getitem2 displayed "aws" "secret_access_key"
    = (if truth (default JNull (getitem2 saved "aws" "secret_access_key"))
       then Some (JStr "***HIDDEN***")
       else getitem2 saved "aws" "secret_access_key") /\
    getitem2 displayed "aws" "access_key_id" = getitem2 saved "aws" "access_key_id".
Proof.
  intros Hsections. unfold handle_configure.
  do 17 assign_step.
  lazymatch goal with
  | Hs : sections ?c |- _ =>
      pose proof Hs as Hfinal; destruct Hs as (d & a & s & Hc & Ha & _)
  end.
  lazymatch goal with
  | |- context [getitem ?c "aws"] =>
      assert (Haws : getitem c "aws" = Some (JDict a)) by (rewrite Hc; exact Ha);
      assert (Hsecret : dict_get a "secret_access_key" = getitem2 c "aws" "secret_access_key")
        by (unfold getitem2; by rewrite Haws)
  end.
  rewrite Haws. cbn [mbind option_bind]. rewrite Hsecret. clear Hc Ha Haws Hsecret.
  assign_step.
  eexists. eexists. split; [reflexivity |].
  split; [intros Hprofile | split; [intros Hdisable | split; [intros Henable |
    split; [intros Hauto Hfound | split; [intros Hbucket | split]]]]].
  - split; [|split]; read_back; by rewrite Hprofile.
  - read_back. by rewrite Hdisable.
  - read_back. by rewrite Henable.
  - read_back. by rewrite Hauto, Hfound.
  - read_back. by rewrite Hbucket.
  - read_back. by destruct (truth _).
  - read_back. done.
Qed.

(** X22.  The settings upload, download and sync run with.  A bucket or a
    prefix given on the command line replaces that of the file, and
    [--no-cache] switches cache data off; nothing on the command line
    switches it on.  Since the parser gives [--prefix] the default
    [zen-profiles/], the prefix of the file is used only when an empty
    [--prefix] is given: without the option the run uses
    [zen-profiles/], whatever the file says. *)
Theorem transfer_options_override_the_file (args : Namespace) (config : json)
    (t : transfer) :
  args_command args = Some (transfer_command t) ->
  sections config ->
  exists config',
    run_cli_config args config = Some config' /\
    getitem2 config' "aws" "prefix"
    = (if truthy (Some (prefix_attribute args)) then Some (JStr (prefix_attribute args))
       else getitem2 config "aws" "prefix") /\
    (args_prefix args = None ->
     getitem2 config' "aws" "prefix" = Some (JStr "zen-profiles/")) /\
    getitem2 config' "aws" "bucket"
    = (if truthy (args_bucket args) then Some (given (args_bucket args))
       else getitem2 config "aws" "bucket") /\
    getitem2 config' "sync" "sync_cache_data"
    = (if args_no_cache args then Some (JBool false)
       else getitem2 config "sync" "sync_cache_data").
Proof.
  intros Hcommand Hsections. unfold run_cli_config. rewrite Hcommand.
  do 5 assign_step. eexists. split; [reflexivity |].
  split; [|split; [intros Hnone | split]].
  - read_back. by destruct (truthy (Some (prefix_attribute args))).
  - read_back. unfold prefix_attribute. by rewrite Hnone.
  - read_back. by destruct (truthy (args_bucket args)).
  - read_back. by destruct (args_no_cache args).
Qed.

End CliFacts.

(** ** The status of a run *)

Section Status.

Variable fnmatch : string -> string -> bool.
Variable self : ZenS3Sync.

Lemma logs_only_logged (P : write -> Prop) (xs : list write) (w : World) :
  (forall x, P x -> exists r, x = WLog r) ->
  Forall P xs -> only_logged w (apply_writes xs w).
Proof.
  intros HP. apply apply_writes_relate.
  - apply only_logged_refl.
  - apply only_logged_trans.
  - intros x a (r & ->)%HP. apply only_logged_add, only_logged_refl.
Qed.

(** X23.  The status upload, download and sync end with.  It is 0 or 1, and it
    is 0 exactly when a bucket is named, the store was reached and the
    mode returned true: a mode that returns false or raises ends with 1.
    Without a bucket name or a connection no mode runs, and the bucket,
    the disk and the metadata switch are as they were.  With [--dry-run]
    the run changes nothing but the log. *)
Theorem transfer_exit_status (t : Cli.transfer) (args : Cli.Namespace) (bucket : string)
    (connected : bool) (w : World) :
  let out := Cli.run_cli_transfer fnmatch t args bucket connected self w in
  (out.1 = 0 \/ out.1 = 1) /\
  (out.1 = 0 <->
   bucket <> EmptyString /\ connected = true /\
   (Cli.run_mode fnmatch t args self w).1 = Ok true) /\
  (bucket = EmptyString \/ connected = false -> out = (1, w)) /\
  (Cli.args_dry_run args = true -> only_logged w out.2).
Proof.
  unfold Cli.run_cli_transfer.
  destruct (decide (bucket = EmptyString)) as [-> | Hbucket].
  { rewrite bool_decide_true by done. cbn [fst snd].
    split; [by right |]. split; [split; [done | by intros (? & _)] |].
    split; [done |]. intros _. apply only_logged_refl. }
  rewrite bool_decide_false by done.
  destruct connected; cbn [negb].
  2: { cbn [fst snd]. split; [by right |]. split; [split; [done | by intros (_ & ? & _)] |].
       split; [done |]. intros _. apply only_logged_refl. }
  assert (Hdry : Cli.args_dry_run args = true ->
                 only_logged w (Cli.run_mode fnmatch t args self w).2).
  { intros Hd. unfold Cli.run_mode. rewrite Hd. destruct t.
    - destruct (push_writes fnmatch self true (negb (Cli.args_force_full args))
                  (Cli.args_cleanup args) w) as (xs & Hxs & ->).
      eapply logs_only_logged; [|exact Hxs].
      intros [] Hx; simpl in Hx; eauto; try done; by destruct Hx.
    - destruct (pull_writes fnmatch self true (negb (Cli.args_force_full args))
                  (Cli.args_cleanup args) w) as (xs & Hxs & ->).
      eapply logs_only_logged; [|exact Hxs].
      intros [] Hx; simpl in Hx; eauto; try done; by destruct Hx.
    - destruct (sync_writes fnmatch self true (Cli.args_cleanup args) w) as (xs & Hxs & ->).
      eapply logs_only_logged; [|exact Hxs].
      intros [] Hx; simpl in Hx; eauto; try done; by destruct Hx. }
  destruct (Cli.run_mode fnmatch t args self w) as [r w'] eqn:Hrun. cbn [fst snd] in *.
  split; [destruct r as [[]|e]; simpl; auto |].
  split; [|split; [by intros [? | [=]] | exact Hdry]].
  destruct r as [[]|e]; simpl; split; try done; by intros (_ & _ & [=]).
Qed.

End Status.

(** ** The properties at concrete inputs *)

Lemma push_cleanup_without_cache_drops_local_objects_witness :
  (get_local_files fnmatch_posix Examples.plain_sync Examples.prefs_world).1
  = Ok [Runs.prefs_file] /\
  _analyze_upload_files Examples.plain_sync (fs Examples.prefs_world) [Runs.prefs_file]
    Runs.listing_cache true true
  = Ok ([Runs.prefs_upload], [], [Runs.cache_deletion]) /\
  Runs.cache_deletion ∈ [Runs.cache_deletion].
Proof.
  split; [reflexivity |]. split; [reflexivity |].
  apply (push_cleanup_without_cache_drops_local_objects fnmatch_posix Examples.plain_sync
           Examples.prefs_world [Runs.prefs_file] Runs.listing_cache true
           [Runs.prefs_upload] [] [Runs.cache_deletion] "local/cache.db" Runs.remote_cache);
    reflexivity.
Defined.

Lemma pull_analysis_plan_witness :
  (_analyze_download_files fnmatch_posix Examples.plain_sync Examples.listing_prefs true false
     Examples.prefs_world).1
  = Ok ([Runs.prefs_download], [], []) /\
  _get_download_path Examples.plain_sync "roaming/prefs.js" = Some Examples.prefs_js /\
  Runs.prefs_download ∈ [Runs.prefs_download].
Proof.
  split; [reflexivity |]. split; [reflexivity |].
  exact (proj1 (pull_analysis_plan fnmatch_posix Examples.plain_sync Examples.listing_prefs
                  true false Examples.prefs_world [Runs.prefs_download] [] [] eq_refl)
               "roaming/prefs.js"%string Examples.remote_prefs eq_refl).
Defined.

Lemma pull_cleanup_plan_witness :
  exists files,
    (get_local_files fnmatch_posix Examples.plain_sync Examples.prefs_world).1 = Ok files /\
    forall item : DeleteLocalItem,
      item ∈ [Runs.prefs_deletion] <->
      exists base_path path_type mtime,
        (item.1.1, base_path, path_type) ∈ files /\
        _get_relative_s3_key item.1.1 base_path path_type = Ok item.1.2 /\
        Runs.listing_cache !! item.1.2 = None /\
        stat (fs Examples.prefs_world) item.1.1 = Some (item.2, mtime).
Proof.
  apply (pull_cleanup_plan fnmatch_posix Examples.plain_sync Runs.listing_cache true
           Examples.prefs_world [] [] [Runs.prefs_deletion]).
  reflexivity.
Defined.

Lemma bidirectional_one_sided_keys_witness :
  _analyze_bidirectional_sync Examples.plain_sync Examples.lookup_prefs Runs.listing_cache
  = Ok ([Runs.prefs_upload], [], []) /\
  Runs.prefs_upload ∈ [Runs.prefs_upload] /\
  _get_download_path Examples.plain_sync "local/cache.db" = None /\
  forall item : DownloadItem, item ∈ [] -> item.2 <> "local/cache.db"%string.
Proof.
  pose proof (bidirectional_one_sided_keys Examples.plain_sync Examples.lookup_prefs
                Runs.listing_cache [Runs.prefs_upload] [] [] eq_refl) as (Hup & Hdown & _).
  split; [reflexivity |]. split; [|split; [reflexivity |]].
  - destruct (Hup "roaming/prefs.js"%string Examples.local_prefs eq_refl eq_refl)
      as (key & size & mtime & hash & Hkey & Hinfo & Hin).
    injection Hkey as <-. injection Hinfo as <- _ _. exact Hin.
  - exact (Hdown "local/cache.db"%string Runs.remote_cache eq_refl eq_refl).
Defined.

Lemma full_push_uploads_every_file_witness :
  @nil SkipItem = [] /\
  Forall2 (fun (file : LocalFile) (item : UploadItem) =>
             exists key mtime,
               _get_s3_key Examples.plain_sync file.1.1 file.1.2 file.2 = Ok key /\
               stat Examples.prefs_disk file.1.1 = Some (item.1.2, mtime) /\
               item = (file.1.1, key, item.1.2, file.2))
          [Runs.prefs_file] [Runs.prefs_upload].
Proof.
  apply (full_push_uploads_every_file Examples.plain_sync Examples.prefs_disk
           [Runs.prefs_file] Examples.listing_prefs false [Runs.prefs_upload] [] []).
  reflexivity.
Defined.


Lemma switched_off_uploads_carry_no_metadata_witness :
  match _upload_file Examples.prefs_js "zen-profiles/roaming/prefs.js" "roaming"
          Cases.offline_world with
  | (Ok _, w') =>
      exists obj,
        obj_metadata obj = ∅ /\
        w' = set_bucket (<["zen-profiles/roaming/prefs.js"%string := obj]>
                           (bucket Cases.offline_world)) Cases.offline_world
  | (Raise _, w') => w' = Cases.offline_world
  end.
Proof.
  apply (switched_off_uploads_carry_no_metadata Examples.prefs_js
           "zen-profiles/roaming/prefs.js" "roaming" Cases.offline_world).
  reflexivity.
Defined.


Lemma pull_follows_absolute_keys_witness :
  (_analyze_download_files fnmatch_posix Examples.plain_sync Runs.listing_job false false
     Examples.prefs_world).1
  = Ok ([Runs.job_download], [], []) /\
  Runs.job_download ∈ [Runs.job_download] /\ absolute (parse_path "/etc/cron.d/job") = true.
Proof.
  split; [reflexivity |].
  apply (pull_follows_absolute_keys fnmatch_posix Examples.plain_sync Runs.listing_job false
           Examples.prefs_world [Runs.job_download] [] [] "/etc/cron.d/job" Runs.remote_job);
    reflexivity.
Defined.


Lemma load_config_merges_with_defaults_witness :
  exists d',
    Config.load_config (Config.Parsed (Config.JDict Runs.partial_file)) = Config.JDict d' /\
    (forall key sub,
       key = "aws"%string \/ key = "sync"%string ->
       Config.getitem2 (Config.JDict d') key sub
       = match Config.getitem2 (Config.JDict Runs.partial_file) key sub with
         | Some v => Some v
         | None => Config.getitem2 (Config.JDict Config.default_config) key sub
         end) /\
    (forall key, key <> "aws"%string -> key <> "sync"%string ->
       Config.dict_get d' key = Config.dict_get Runs.partial_file key).
Proof.
  apply (ConfigFacts.load_config_merges_with_defaults Runs.partial_file); reflexivity.
Defined.

Lemma sections_file_config : Cli.sections Runs.file_config.
Proof. eexists. eexists. eexists. split; [reflexivity |]. split; reflexivity. Defined.

Lemma configure_precedence_witness :
  exists saved displayed,
    Cli.handle_configure Runs.reconfigure (EmptyString, EmptyString) Runs.file_config
    = Some (saved, displayed) /\
    Config.getitem2 saved "aws" "profile" = Some (Config.JStr "work") /\
    Config.getitem2 saved "aws" "access_key_id" = Some (Config.JStr "") /\
    Config.getitem2 saved "aws" "secret_access_key" = Some (Config.JStr "") /\
    Config.getitem2 saved "sync" "sync_cache_data" = Some (Config.JBool false) /\
    Config.getitem2 saved "aws" "disable_metadata" = Some (Config.JBool false) /\
    Config.getitem2 saved "aws" "bucket" = Some (Config.JStr "my-backups").
Proof.
  destruct (CliFacts.configure_precedence Runs.reconfigure (EmptyString, EmptyString)
              Runs.file_config sections_file_config)
    as (saved & displayed & Hrun & Hprofile & Hcache & Hmeta & _ & Hbucket & _).
  exists saved, displayed. split; [exact Hrun |].
  destruct (Hprofile eq_refl) as (Hp & Ha & Hs).
  split; [exact Hp |]. split; [exact Ha |]. split; [exact Hs |].
  split; [exact (Hcache eq_refl) |]. split; [exact (Hmeta eq_refl) |].
  rewrite (Hbucket eq_refl). reflexivity.
Defined.

Lemma transfer_options_override_the_file_witness :
  exists config',
    Cli.run_cli_config Runs.plain_upload Runs.file_config = Some config' /\
    Config.getitem2 Runs.file_config "aws" "prefix" = Some (Config.JStr "laptop/") /\
    Config.getitem2 config' "aws" "prefix" = Some (Config.JStr "zen-profiles/") /\
    Config.getitem2 config' "aws" "bucket" = Some (Config.JStr "my-backups") /\
    Config.getitem2 config' "sync" "sync_cache_data" = Some (Config.JBool true).
Proof.
  destruct (CliFacts.transfer_options_override_the_file Runs.plain_upload Runs.file_config
              Cli.upload eq_refl sections_file_config)
    as (config' & Hrun & _ & Hprefix & Hbucket & Hcache).
  exists config'. split; [exact Hrun |]. split; [reflexivity |].
  split; [exact (Hprefix eq_refl) |]. split; [exact Hbucket | exact Hcache].
Defined.

(** ** A listing call that fails *)

Section FailedListing.

Variable fnmatch : string -> string -> bool.
Variable self : ZenS3Sync.






End FailedListing.


(** ** The listing *)

Section ListingFacts.

Variable self : ZenS3Sync.


(** X26.  Without hashes only the size counts.  When metadata is switched
    off, or the metadata request for the object fails, the listed record
    carries no hash, and the comparator finds a local file different from
    it exactly when the sizes differ: a change that keeps the size is not
    seen. *)
Theorem size_decides_without_hashes (w : World) (s3_objects : gmap string S3Info)
    (rk : string) (s3_info : S3Info) (size mtime : Z) (hash : string) :
  (_list_s3_objects self w).1 = Ok s3_objects ->
  s3_objects !! rk = Some s3_info ->
  disable_metadata w = true \/ is_Some (s3_fault w (HeadObject (s3_key s3_info))) ->
  s3_hash s3_info = None /\
  _files_are_different (info_file size mtime hash) s3_info
  = negb (bool_decide (size = s3_size s3_info)).
Proof.
  intros Hrun Hlook Hoff.
  assert (Hnone : s3_hash s3_info = None /\ s3_exists s3_info = true).
  { destruct (s3_fault w ListObjects) as [msg|] eqn:Hfault.
    - revert Hrun. unfold _list_s3_objects. rewrite Hfault. simpl. intros [= <-].
      by rewrite lookup_empty in Hlook.
    - destruct (list_s3_objects_lookup self w Hfault) as (objs & Heq & Hl).
      rewrite Heq in Hrun. simpl in Hrun. injection Hrun as ->.
      rewrite Hl in Hlook.
      destruct (bucket w !! (prefix self +:+ rk)) as [obj|]; [|done].
      simpl in Hlook. injection Hlook as <-. simpl. split; [|done].
      unfold listed_hash. simpl in Hoff.
      destruct Hoff as [Hflag | [msg Hhead]]; [|by rewrite Hhead].
      rewrite Hflag. simpl. by destruct (s3_fault w (HeadObject (prefix self +:+ rk))). }
  destruct Hnone as [Hhash Hexists]. split; [done |].
  unfold _files_are_different. rewrite Hexists, Hhash. simpl.
  rewrite andb_false_r. by destruct (bool_decide (size = s3_size s3_info)).
Qed.

End ListingFacts.

Lemma size_decides_without_hashes_witness :
  (_list_s3_objects Examples.plain_sync Plain.world).1
  = Ok {["roaming/prefs.js"%string := Plain.listed_prefs]} /\
  s3_hash Plain.listed_prefs = None /\
  _files_are_different (info_file 120 2000 "h-edited") Plain.listed_prefs
  = negb (bool_decide (120 = s3_size Plain.listed_prefs)).
Proof.
  split; [reflexivity |].
  apply (size_decides_without_hashes Examples.plain_sync Plain.world
           {["roaming/prefs.js"%string := Plain.listed_prefs]} "roaming/prefs.js"
           Plain.listed_prefs 120 2000 "h-edited").
  - reflexivity.
  - reflexivity.
  - left. reflexivity.
Defined.
